(** * ABI review pipeline of openSUSE-release-tools: a shallow embedding

    The development follows [abichecker/abichecker.py] (repo matching,
    maintenance remapping, library pairing, verdict aggregation and
    persistence) and [osclib/cpio.py] (the archive parser).

    Conventions used throughout:
    - the set of matched triples, which the code builds and then iterates
      over, is a duplicate-free list holding its elements in iteration
      order, insertion appends at the end; statements about loops over
      it are made for every order;
    - a Python [dict] or a [set] that is only queried is a [gmap] or a
      [gset]; the library maps and the set of library pairs are iterated
      in the order of their elements as [gmap] and [gset] list them;
    - a Python exception is a constructor of [exn], and a function that
      may raise returns a [result];
    - answers of the build service (XML documents, query results) are
      inputs of the functions that read them. *)

From Stdlib Require Import ZArith Ascii String List Bool Lia.
From stdpp Require Import base option list sorting gmap sets strings pretty.
Import ListNotations.

(** ** Exceptions and results *)

Inductive exn : Type :=
| DistUrlMismatch (disturl md5 : string)
| SourceBroken (project package : string)
| NoBuildSuccess (project package md5 : string)
| NotReadyYet (project package reason : string)
| MissingDebugInfo (msg : string)
| FetchError (msg : string)
| MaintenanceError (msg : string)
| PyError (kind : string).   (* built-in errors: TypeError, AttributeError, ... *)

Inductive result (A : Type) : Type :=
| Return (a : A)
| Raise (e : exn).
Arguments Return {A} a.
Arguments Raise {A} e.

#[global] Instance result_ret : MRet result := fun A a => Return a.
#[global] Instance result_bind : MBind result := fun A B k m =>
  match m with
  | Return a => k a
  | Raise e => Raise e
  end.

(** ** Data model *)

(** [MR = namedtuple('MatchRepo', ('srcrepo', 'dstrepo', 'arch'))] *)
Record MR : Type := mkMR { srcrepo : string; dstrepo : string; arch : string }.

#[global] Instance MR_eq_dec : EqDecision MR.
Proof. solve_decision. Defined.

(** The two fields of a source info that the pipeline reads. *)
Record SourceInfo : Type := mkSourceInfo { package : string; verifymd5 : string }.

(** [set.add] on the list model of an iterated set. *)
Definition set_add {A} `{EqDecision A} (x : A) (s : list A) : list A :=
  if bool_decide (x ∈ s) then s else s ++ [x].

(** Truth value of an optional string ([None] and [''] are false). *)
Definition truthy (s : option string) : bool :=
  match s with
  | None => false
  | Some s => negb (bool_decide (s = ""))
  end.

(** The line break of the summary texts. *)
Definition nl : string := String (ascii_of_nat 10) EmptyString.

(** [str(x)] for a value that is a string or [None]. *)
Definition pystr (s : option string) : string := default "None" s.

(** ** RepoMatcher *)

(** One [<path project=... repository=.../>] child of a repository. *)
Record Path : Type := mkPath { path_project : string; path_repository : string }.

(** One [<repository name=...>] element of a project's [_meta]. *)
Record Repository : Type := mkRepository {
  repo_name : string;
  repo_paths : list Path;
  repo_archs : list string
}.

(** One dictionary produced by [osc.core.result_xml_to_dicts]; the
    ['package'] key may be missing. *)
Record BuildResult : Type := mkBuildResult {
  res_package : option string;
  res_repository : string;
  res_arch : string;
  res_dirty : bool;
  res_code : string
}.

(** The first loop of [ensure_settled]: the results of other packages are
    skipped, a later result for the same (repository, arch) overwrites an
    earlier one. *)
Definition build_rmap (pkg : string) (results : list BuildResult)
  : gmap (string * string) BuildResult :=
  foldl (fun rmap res =>
           if bool_decide (res_package res = Some pkg)
           then <[(res_repository res, res_arch res) := res]> rmap
           else rmap)
        ∅ results.

Definition terminal_codes : list string := ["succeeded"; "locked"; "excluded"].

(** The body of the second loop of [ensure_settled] for one triple:
    [None] when the triple passes, the raised exception otherwise. *)
Definition settle_one (src_project pkg : string)
    (rmap : gmap (string * string) BuildResult) (mr : MR) : option exn :=
  match rmap !! (srcrepo mr, arch mr) with
  | None => Some (NotReadyYet src_project pkg "no result")
  | Some res =>
      if res_dirty res then Some (NotReadyYet src_project pkg "dirty")
      else if bool_decide (res_code res = "broken")
           then Some (SourceBroken src_project pkg)
      else if bool_decide (res_code res ∈ terminal_codes) then None
      else Some (NotReadyYet src_project pkg (res_code res))
  end.

Fixpoint settle_loop (src_project pkg : string)
    (rmap : gmap (string * string) BuildResult) (matchrepos : list MR)
  : result unit :=
  match matchrepos with
  | [] => Return tt
  | mr :: rest =>
      match settle_one src_project pkg rmap mr with
      | Some e => Raise e
      | None => settle_loop src_project pkg rmap rest
      end
  end.

(** [ensure_settled(self, src_project, src_srcinfo, matchrepos)];
    [results] is the answer of [osc.core.get_package_results]. *)
Definition ensure_settled (results : list BuildResult)
    (src_project : string) (src_srcinfo : SourceInfo) (matchrepos : list MR)
  : result unit :=
  settle_loop src_project (package src_srcinfo)
              (build_rmap (package src_srcinfo) results) matchrepos.

(** What [findrepos] asks the build service. [None] stands for the
    [HTTPError] (or the 404) that the callee turns into [None]. *)
Record RepoEnv : Type := mkRepoEnv {
  env_dstrepos : option (gset (string * string));        (* get_dstrepos *)
  env_src_meta : option (list Repository);               (* source _meta *)
  env_results : list BuildResult;                 (* get_package_results *)
  env_buildsuccess : option (gset (string * string)) (* get_buildsuccess_repos *)
}.

(** The state of the matching loops: the set built so far and the local
    variable [arch], which is unbound until an [<arch>] node is visited
    and keeps its last value after the loops. *)
Definition match_state : Type := (list MR * option string)%type.

(** Staging branch:
    [for node in root.findall("repository[@name='standard']/arch")]. *)
Definition match_staging (root : list Repository) (st : match_state) : match_state :=
  foldl (fun st repo =>
           if bool_decide (repo_name repo = "standard")
           then foldl (fun '(m, _) a =>
                         (set_add (mkMR "standard" "standard" a) m, Some a))
                      st (repo_archs repo)
           else st)
        st root.

(** Regular branch, one [<repository>] element. *)
Definition match_repo (dst_project : option string) (dstrepos : gset (string * string))
    (st : match_state) (repo : Repository) : match_state :=
  match repo_paths repo with
  | [p] =>
      let prj := if bool_decide (path_project p = "openSUSE:Tumbleweed")
                 then "openSUSE:Factory" else path_project p in
      if bool_decide (Some prj ≠ dst_project) then st
      else
        foldl (fun '(m, _) a =>
                 let dstname :=
                   if bool_decide (prj = "openSUSE:Factory")
                      && bool_decide (path_repository p = "snapshot")
                   then "standard" else path_repository p in
                 if bool_decide ((dstname, a) ∈ dstrepos)
                 then (set_add (mkMR (repo_name repo) dstname a) m, Some a)
                 else (m, Some a))
              st (repo_archs repo)
  | _ => st      (* "repo has more than one path": skipped *)
  end.

(** The last loop of [findrepos]; [a] is the local variable [arch] as the
    matching loops left it. *)
Fixpoint check_buildsuccess (src_project : string) (src_srcinfo : SourceInfo)
    (srcrepos : gset (string * string)) (a : string) (matchrepos : list MR)
  : result unit :=
  match matchrepos with
  | [] => Return tt
  | mr :: rest =>
      if bool_decide ((srcrepo mr, a) ∉ srcrepos)
      then Raise (NoBuildSuccess src_project (package src_srcinfo)
                                 (verifymd5 src_srcinfo))
      else check_buildsuccess src_project src_srcinfo srcrepos a rest
  end.

(** [findrepos(self, src_project, src_srcinfo, dst_project, dst_srcinfo)];
    [staging_project] is [self.current_request.staging_project]. *)
Definition findrepos (staging_project : option string) (env : RepoEnv)
    (src_project : string) (src_srcinfo : SourceInfo)
    (dst_project : option string) (dst_srcinfo : SourceInfo)
  : result (option (list MR)) :=
  match env_dstrepos env with
  | None => Return None
  | Some dstrepos =>
  match env_src_meta env with
  | None => Return None
  | Some root =>
      let '(matchrepos, last_arch) :=
        if truthy staging_project then match_staging root ([], None)
        else foldl (match_repo dst_project dstrepos) ([], None) root in
      match matchrepos with
      | [] => Return None
      | _ :: _ =>
          _ ← ensure_settled (env_results env) src_project src_srcinfo matchrepos;
          match env_buildsuccess env with
          | None => Raise (NotReadyYet src_project (package src_srcinfo)
                                       "no build success")
          | Some srcrepos =>
              if bool_decide (srcrepos = ∅)
              then Raise (NoBuildSuccess src_project (package src_srcinfo)
                                         (verifymd5 src_srcinfo))
              else
                match last_arch with
                | None => Raise (PyError "UnboundLocalError")
                | Some a =>
                    _ ← check_buildsuccess src_project src_srcinfo srcrepos
                                           a matchrepos;
                    Return (Some matchrepos)
                end
          end
      end
  end
  end.

(** ** MaintenanceResolver *)

Definition is_digit (c : ascii) : bool :=
  let n := nat_of_ascii c in (48 <=? n)%nat && (n <=? 57)%nat.

(** The text after the last ['.'] of [s], if there is a ['.']. *)
Fixpoint after_last_dot (s : string) : option string :=
  match s with
  | EmptyString => None
  | String c rest =>
      match after_last_dot rest with
      | Some t => Some t
      | None => if bool_decide (c = "."%char) then Some rest else None
      end
  end.

Fixpoint all_digits (s : string) : bool :=
  match s with
  | EmptyString => true
  | String c rest => is_digit c && all_digits rest
  end.

(** [re.compile(r'.*\.(\d+)$').match(linkpkg)], group 1: the greedy
    prefix can only end at the last dot, since no digit is a dot. Package
    names are ASCII without line breaks. *)
Definition incident_of (linkpkg : string) : option string :=
  match after_last_dot linkpkg with
  | Some t => if all_digits t && negb (bool_decide (t = "")) then Some t else None
  | None => None
  end.

(** [s.replace(':', '_')] *)
Fixpoint replace_colon (s : string) : string :=
  match s with
  | EmptyString => EmptyString
  | String c rest =>
      String (if bool_decide (c = ":"%char) then "_"%char else c) (replace_colon rest)
  end.

(** [mapped = {(mr.dstrepo, mr.arch): mr for mr in originrepos}] *)
Definition build_mapped (originrepos : list MR) : gmap (string * string) MR :=
  foldl (fun mapped mr => <[(dstrepo mr, arch mr) := mr]> mapped) ∅ originrepos.

(** The loop over [myrepos] of [_maintenance_hack]: the new set of triples
    and the warnings logged on the way. *)
Definition remap_repos (originproject originpackage : string)
    (mapped : gmap (string * string) MR) (myrepos : list MR)
  : list MR * list string :=
  foldl (fun '(matchrepos, warnings) mr =>
           match mapped !! (dstrepo mr, arch mr) with
           | None =>
               (matchrepos,
                warnings ++ ["couldn't find repo " +:+ dstrepo mr +:+ "/" +:+ arch mr
                             +:+ " in " +:+ originproject +:+ "/" +:+ originpackage])
           | Some o =>
               (set_add (mkMR (srcrepo mr) (srcrepo o) (arch mr)) matchrepos,
                warnings)
           end)
        ([], []) myrepos.

(** What [_maintenance_hack] asks the build service. *)
Record MaintEnv : Type := mkMaintEnv {
  (* name of the project found by the maintenance search, if any *)
  mh_maintenance_project : option string;
  mh_originproject : option string;                  (* get_originproject *)
  mh_status_codes : list (option string);   (* code of each status node *)
  mh_linktarget : option string * option string;      (* _get_linktarget *)
  mh_origin_srcinfo : string -> string -> option SourceInfo;
  mh_origin_queries : RepoEnv       (* answers to the nested findrepos *)
}.

(** [_maintenance_hack(self, dst_project, dst_srcinfo, myrepos)]: the
    returned tuple and the warnings. *)
Definition _maintenance_hack (staging_project : option string) (env : MaintEnv)
    (dst_project : option string) (dst_srcinfo : SourceInfo) (myrepos : list MR)
  : result (option string * option string * SourceInfo * list MR * list string) :=
  let pkg := package dst_srcinfo in
  match mh_maintenance_project env with
  | None => Return (None, None, dst_srcinfo, myrepos, [])
  | Some mproject =>
      match mh_originproject env with
      | Some originproject =>
          let alldisabled :=
            forallb (fun c => bool_decide (c = Some "disabled")) (mh_status_codes env) in
          Return (if alldisabled then Some originproject else None,
                  None, dst_srcinfo, myrepos, [])
      | None =>
          match mh_linktarget env with
          | (linkprj, Some linkpkg) =>
              if bool_decide (linkprj = dst_project) then
                match incident_of linkpkg with
                | None =>
                    Raise (MaintenanceError
                      (pystr dst_project +:+ "/" +:+ pkg +:+ " -> " +:+ pystr linkprj
                       +:+ "/" +:+ linkpkg
                       +:+ " is not a proper maintenance link (must match /.*\.(\d+)$/)"))
                | Some incident =>
                    match dst_project with
                    | None => Raise (PyError "AttributeError")
                    | Some dst =>
                        let originproject := mproject +:+ ":" +:+ incident in
                        let originpackage := pkg +:+ "." +:+ replace_colon dst in
                        match mh_origin_srcinfo env originproject originpackage with
                        | None =>
                            Raise (MaintenanceError
                              (originproject +:+ "/" +:+ originpackage +:+ " invalid"))
                        | Some origin_srcinfo =>
                            originrepos ← findrepos staging_project (mh_origin_queries env)
                                            originproject origin_srcinfo
                                            dst_project dst_srcinfo;
                            match originrepos with
                            | None => Raise (PyError "TypeError")
                            | Some originrepos =>
                                let '(matchrepos, warnings) :=
                                  remap_repos originproject originpackage
                                              (build_mapped originrepos) myrepos in
                                Return (Some originproject, Some originpackage,
                                        origin_srcinfo, matchrepos, warnings)
                            end
                        end
                    end
                end
              else Return (None, None, dst_srcinfo, myrepos, [])
          | (_, None) => Return (None, None, dst_srcinfo, myrepos, [])
          end
      end
  end.

(** ** LibraryPairer *)

(** The reverse index of the source side: alias basename to the libraries
    that carry it ([src_aliases.setdefault(a, set()).add(lib)]). *)
Definition src_alias_index (src_libs : gmap string (gset string))
  : gmap string (gset string) :=
  map_fold (fun lib aliases idx =>
              set_fold (fun a idx => <[a := default ∅ (idx !! a) ∪ {[lib]}]> idx)
                       idx aliases)
           ∅ src_libs.

(** The pairing loop for one destination library [lib] with aliases
    [aliases]: the grown pair set and the flag [found]. *)
Definition pair_aliases (src_aliases : gmap string (gset string))
    (lib : string) (aliases : gset string) (pairs : gset (string * string))
  : gset (string * string) * bool :=
  set_fold (fun a '(pairs, found) =>
              match src_aliases !! a with
              | Some ls =>
                  set_fold (fun l '(pairs, _) => ({[(lib, l)]} ∪ pairs, true))
                           (pairs, found) ls
              | None => (pairs, found)
              end)
           (pairs, false) aliases.

(** The pairs to diff and the warnings added to the summary. *)
Definition pair_libs (dst_libs src_libs : gmap string (gset string))
  : gset (string * string) * list string :=
  let src_aliases := src_alias_index src_libs in
  map_fold (fun lib aliases '(pairs, warnings) =>
              if bool_decide (is_Some (src_libs !! lib))
              then ({[(lib, lib)]} ∪ pairs, warnings)
              else
                let '(pairs, found) := pair_aliases src_aliases lib aliases pairs in
                if found then (pairs, warnings)
                else (pairs,
                      warnings ++ ["*Warning*: " +:+ lib +:+ " no longer packaged"
                                   +:+ nl +:+ nl]))
           (∅, []) dst_libs.

(** ** ABIDiffOrchestrator *)

(** [run_abi_checker]: [r] is the exit status of [abi-compliance-checker]. *)
Definition run_abi_checker (r : Z) : option bool :=
  if bool_decide (r ∉ [0; 1]%Z) then None else Some (bool_decide (r = 0%Z)).

(** [run_abi_dumper]: [r] is the exit status of [abi-dumper]. *)
Definition run_abi_dumper (r : Z) : bool :=
  if bool_decide (r ≠ 0%Z) then false else true.

(** ** ReviewStateMachine *)

(** [LibResult] and [Report] named tuples. *)
Record LibResult : Type := mkLibResult {
  lr_src_repo : string; lr_src_lib : string;
  lr_dst_repo : string; lr_dst_lib : string;
  lr_arch : string; lr_htmlreport : string;
  lr_result : bool
}.

Record Report : Type := mkReport {
  r_src_project : string; r_src_package : string; r_src_rev : option string;
  r_dst_project : option string; r_dst_package : string;
  r_reports : list LibResult;
  r_result : option bool
}.

(** [PROJECT_BLACKLIST] *)
Definition PROJECT_BLACKLIST : gmap string string :=
  list_to_map
    [ ("SUSE:SLE-11:Update",     "abi-checker doesn't support SLE 11");
      ("SUSE:SLE-11-SP1:Update", "abi-checker doesn't support SLE 11");
      ("SUSE:SLE-11-SP2:Update", "abi-checker doesn't support SLE 11");
      ("SUSE:SLE-11-SP3:Update", "abi-checker doesn't support SLE 11");
      ("SUSE:SLE-11-SP4:Update", "abi-checker doesn't support SLE 11");
      ("SUSE:SLE-11-SP5:Update", "abi-checker doesn't support SLE 11") ].

(** [dst_project in PROJECT_BLACKLIST]; [None] is no key. *)
Definition blacklisted (dst_project : option string) : bool :=
  match dst_project with
  | None => false
  | Some p => bool_decide (is_Some (PROJECT_BLACKLIST !! p))
  end.

(** The work handed to collaborators, recorded in the order it is done. *)
Inductive Call : Type :=
| CallHasStaging (project : option string)
| CallBaseCheck
| CallGetSourceInfo (project : option string) (pkg : string) (rev : option string)
| CallRmtree
| CallFindRepos (src_project : string) (dst_project : option string)
| CallMaintenanceHack (dst_project : option string)
| CallExtract (project : option string) (pkg repo arch : string)
| CallAbiDumper (filename debuglib : string)
| CallAbiChecker (libname : string).

(** The attributes of the checker object that a submission changes; what
    it writes to the logger is left out. *)
Record Checker : Type := mkChecker {
  reports : list Report;
  text_summary : string;
  calls : list Call
}.

(** Computations that read and write the checker and may raise. *)
Definition M (A : Type) : Type := Checker -> result A * Checker.

#[global] Instance M_ret : MRet M := fun A a s => (Return a, s).
#[global] Instance M_bind : MBind M := fun A B k m s =>
  match m s with
  | (Return a, s') => k a s'
  | (Raise e, s') => (Raise e, s')
  end.

Definition call (c : Call) : M unit := fun s =>
  (Return tt, mkChecker (reports s) (text_summary s) (calls s ++ [c])).

(** [self.text_summary += t] *)
Definition summary_add (t : string) : M unit := fun s =>
  (Return tt, mkChecker (reports s) (text_summary s +:+ t) (calls s)).

(** [self.reports.append(r)] *)
Definition reports_append (r : Report) : M unit := fun s =>
  (Return tt, mkChecker (reports s ++ [r]) (text_summary s) (calls s)).

Definition lift {A} (r : result A) : M A := fun s => (r, s).

Fixpoint mfoldl {A B} (f : B -> A -> M B) (b : B) (l : list A) : M B :=
  match l with
  | [] => mret b
  | x :: l => b' ← f b x; mfoldl f b' l
  end.

(** [str(e)] *)
Definition exn_str (e : exn) : string :=
  match e with
  | DistUrlMismatch disturl md5 =>
      "disturl mismatch has: " +:+ disturl +:+ " wanted ..." +:+ md5
  | SourceBroken project pkg =>
      project +:+ "/" +:+ pkg +:+ " has broken sources, needs rebase"
  | NoBuildSuccess project pkg md5 =>
      project +:+ "/" +:+ pkg +:+ "(" +:+ md5 +:+ ") had no successful build"
  | NotReadyYet project pkg reason =>
      project +:+ "/" +:+ pkg +:+ " not ready yet: " +:+ reason
  | MissingDebugInfo msg | FetchError msg | MaintenanceError msg => msg
  | PyError kind => kind
  end.

(** The text after the last ['/'] of [s], if there is a ['/']. *)
Fixpoint after_last_slash (s : string) : option string :=
  match s with
  | EmptyString => None
  | String c rest =>
      match after_last_slash rest with
      | Some t => Some t
      | None => if bool_decide (c = "/"%char) then Some rest else None
      end
  end.

(** [os.path.basename] *)
Definition basename (s : string) : string := default s (after_last_slash s).

(** What a submission check asks of its collaborators: the review bot
    base class, the build service, the [re] and [time] modules and the
    two external tools. *)
Record Env : Type := mkEnv {
  has_staging : option string -> bool;
  staging_project : option string;     (* current_request.staging_project *)
  get_sourceinfo : option string -> string -> option string -> option SourceInfo;
  repo_queries : RepoEnv;
  maint_queries : MaintEnv;
  (* extract(project, package, srcinfo, repo, arch): (None, None) is None *)
  extract : option string -> string -> SourceInfo -> string -> string ->
            result (option (gmap string (gset string) * gmap string string));
  so_re_match : string -> option string;       (* so_re.match(old), group 1 *)
  now_hex : MR -> string -> string -> string;  (* '%08x' % int(time.time()) *)
  (* exit status of abi-dumper for (project, package, repo, arch) and the
     library and debug files *)
  abi_dumper_exit : option string -> string -> string -> string ->
                    string -> string -> Z;
  (* exit status of abi-compliance-checker for a library name and report *)
  abi_checker_exit : string -> string -> Z
}.

(** The local variables of [check_source_submission] that its loops
    update. *)
Record Locals : Type := mkLocals {
  ret : option bool;
  overall : option bool;
  libresults : list LibResult;
  missing_debuginfo : list string
}.

(** [if ret == True: ret = None]; for the three values [ret] takes,
    [if ret:] is the same test. *)
Definition need_recheck (r : option bool) : option bool :=
  if bool_decide (r = Some true) then None else r.

(** The [except] clauses around both calls of [extract]. *)
Definition on_extract_error (loc : Locals) (e : exn) : result Locals :=
  match e with
  | DistUrlMismatch _ _ | FetchError _ =>
      Return (mkLocals (need_recheck (ret loc)) (overall loc)
                       (libresults loc) (missing_debuginfo loc))
  | MissingDebugInfo _ =>
      Return (mkLocals (Some false) (overall loc) (libresults loc)
                       (missing_debuginfo loc ++ [exn_str e]))
  | _ => Raise e
  end.

(** [if overall is None: overall = r
     elif overall == True and r == False: overall = r] *)
Definition combine_overall (overall : option bool) (r : bool) : option bool :=
  match overall with
  | None => Some r
  | Some o => if o && negb r then Some r else overall
  end.

(** [d[k]], raising [KeyError] *)
Definition getitem {A} (d : gmap string A) (k : string) : M A :=
  match d !! k with
  | Some v => mret v
  | None => lift (Raise (PyError "KeyError"))
  end.

(** ['report-%s-%s-%s-%s-%s-%08x.html' % (mr.srcrepo, basename(old),
    mr.dstrepo, basename(new), mr.arch, int(time.time()))] *)
Definition htmlreport_name (env : Env) (mr : MR) (old new : string) : string :=
  "report-" +:+ srcrepo mr +:+ "-" +:+ basename old +:+ "-" +:+ dstrepo mr
  +:+ "-" +:+ basename new +:+ "-" +:+ arch mr +:+ "-"
  +:+ now_hex env mr old new +:+ ".html".

(** The body of [for old, new in pairs]. *)
Definition diff_pair (env : Env) (src_project src_package : string)
    (dst_project : option string) (dst_package : string) (mr : MR)
    (dst_libdebug src_libdebug : gmap string string)
    (loc : Locals) (pair : string * string) : M Locals :=
  let '(old, new) := pair in
  let m := so_re_match env old in
  let htmlreport := htmlreport_name env mr old new in
  dumped ←
    match m with
    | None => mret None
    | Some libname =>
        olddebug ← getitem dst_libdebug old;
        _ ← call (CallAbiDumper old olddebug);
        if run_abi_dumper (abi_dumper_exit env dst_project dst_package
                             (dstrepo mr) (arch mr) old olddebug)
        then
          newdebug ← getitem src_libdebug new;
          _ ← call (CallAbiDumper new newdebug);
          if run_abi_dumper (abi_dumper_exit env (Some src_project) src_package
                               (srcrepo mr) (arch mr) new newdebug)
          then mret (Some libname) else mret None
        else mret None
    end;
  match dumped with
  | Some libname =>
      _ ← call (CallAbiChecker libname);
      match run_abi_checker (abi_checker_exit env libname htmlreport) with
      | Some r =>
          mret (mkLocals (ret loc) (combine_overall (overall loc) r)
                  (libresults loc ++
                     [mkLibResult (srcrepo mr) (basename old) (dstrepo mr)
                                  (basename new) (arch mr) htmlreport r])
                  (missing_debuginfo loc))
      | None => mret loc
      end
  | None =>
      _ ← summary_add ("**Error**: ABI check failed on " +:+ old +:+ " vs "
                        +:+ new +:+ nl +:+ nl);
      mret (mkLocals (need_recheck (ret loc)) (overall loc)
                     (libresults loc) (missing_debuginfo loc))
  end.

(** The body of [for mr in myrepos]. *)
Definition check_repo (env : Env) (src_project src_package : string)
    (src_srcinfo : SourceInfo) (dst_project : option string)
    (dst_package : string) (dst_srcinfo : SourceInfo)
    (loc : Locals) (mr : MR) : M Locals :=
  _ ← call (CallExtract dst_project dst_package (dstrepo mr) (arch mr));
  match extract env dst_project dst_package dst_srcinfo (dstrepo mr) (arch mr) with
  | Raise e => lift (on_extract_error loc e)
  | Return None => mret loc
  | Return (Some (dst_libs, dst_libdebug)) =>
      _ ← call (CallExtract (Some src_project) src_package (srcrepo mr) (arch mr));
      match extract env (Some src_project) src_package src_srcinfo
                    (srcrepo mr) (arch mr) with
      | Raise e => lift (on_extract_error loc e)
      | Return None =>
          _ ← (if bool_decide (dst_libs ≠ ∅)
               then summary_add
                      ("*Warning*: the submission does not contain any libs anymore"
                       +:+ nl +:+ nl)
               else mret tt);
          mret loc
      | Return (Some (src_libs, src_libdebug)) =>
          let '(pairs, warnings) := pair_libs dst_libs src_libs in
          _ ← summary_add (foldr String.append "" warnings);
          mfoldl (diff_pair env src_project src_package dst_project dst_package
                            mr dst_libdebug src_libdebug)
                 loc (elements pairs)
      end
  end.

(** The three handlers shared by the calls of [findrepos] and
    [_maintenance_hack]; [MaintenanceError] is caught around the second
    only. Each appends the empty report; the value is what
    [check_source_submission] returns. *)
Definition on_matching_error (maintenance : bool) (report : Report) (e : exn)
  : M (option bool) :=
  match e with
  | NoBuildSuccess _ _ _ | SourceBroken _ _ =>
      _ ← summary_add ("**Error**: " +:+ exn_str e +:+ nl);
      _ ← reports_append report;
      mret (Some false)
  | NotReadyYet _ _ _ =>
      _ ← reports_append report;
      mret None
  | MaintenanceError _ =>
      if maintenance then
        _ ← summary_add ("**Error**: " +:+ exn_str e +:+ nl +:+ nl);
        _ ← reports_append report;
        mret (Some false)
      else lift (Raise e)
  | _ => lift (Raise e)
  end.

(** The part of [check_source_submission] after [myrepos] is known to be
    non-empty. *)
Definition check_matched (env : Env) (src_project src_package : string)
    (src_srcinfo : SourceInfo) (dst_project : option string)
    (dst_package : string) (dst_srcinfo : SourceInfo)
    (report : Report) (myrepos : list MR) : M (option bool) :=
  _ ← call (CallMaintenanceHack dst_project);
  match _maintenance_hack (staging_project env) (maint_queries env)
                          dst_project dst_srcinfo myrepos with
  | Raise e => on_matching_error true report e
  | Return (originproject, originpackage, origin_srcinfo, new_repo_map, _) =>
      let dst_project := if originproject is Some p then Some p else dst_project in
      let dst_package := default dst_package originpackage in
      let dst_srcinfo := origin_srcinfo in
      let myrepos := new_repo_map in
      loc ← mfoldl (check_repo env src_project src_package src_srcinfo
                               dst_project dst_package dst_srcinfo)
                   (mkLocals (Some true) None [] []) myrepos;
      _ ← (if bool_decide (missing_debuginfo loc ≠ [])
           then summary_add
                  ("debug information is missing for the following packages, can't check:"
                   +:+ nl +:+ "<pre>"
                   +:+ foldr String.append "" (missing_debuginfo loc)
                   +:+ "</pre>" +:+ nl
                   +:+ "please enable debug info in your project config." +:+ nl)
           else mret tt);
      _ ← reports_append
            (mkReport (r_src_project report) (r_src_package report)
                      (r_src_rev report) (r_dst_project report)
                      (r_dst_package report) (libresults loc) (overall loc));
      _ ← call CallRmtree;
      mret (ret loc)
  end.

(** [check_source_submission(self, src_project, src_package, src_rev,
    dst_project, dst_package)] *)
Definition check_source_submission (env : Env)
    (src_project src_package : string) (src_rev : option string)
    (dst_project : option string) (dst_package : string) : M (option bool) :=
  if bool_decide (dst_project = None) && bool_decide (src_package = "patchinfo")
  then mret None
  else if blacklisted dst_project then mret (Some true)
  else
    _ ← call (CallHasStaging dst_project);
    let source :=
      if has_staging env dst_project then
        if truthy (staging_project env)
        then Some (pystr (staging_project env), dst_package, None)
        else None
      else Some (src_project, src_package, src_rev) in
    match source with
    | None => mret None                        (* request not staged yet *)
    | Some (src_project, src_package, src_rev) =>
        _ ← call CallBaseCheck;
        let report := mkReport src_project src_package src_rev
                               dst_project dst_package [] None in
        _ ← call (CallGetSourceInfo dst_project dst_package None);
        match get_sourceinfo env dst_project dst_package None with
        | None => _ ← reports_append report; mret (Some true)
        | Some dst_srcinfo =>
            _ ← call (CallGetSourceInfo (Some src_project) src_package src_rev);
            match get_sourceinfo env (Some src_project) src_package src_rev with
            | None =>
                _ ← summary_add (src_project +:+ "/" +:+ src_package +:+ "@"
                                  +:+ pystr src_rev
                                  +:+ " does not exist!? can't check" +:+ nl);
                _ ← reports_append report;
                mret (Some false)
            | Some src_srcinfo =>
                _ ← call CallRmtree;
                _ ← call (CallFindRepos src_project dst_project);
                match findrepos (staging_project env) (repo_queries env)
                                src_project src_srcinfo dst_project dst_srcinfo with
                | Raise e => on_matching_error false report e
                | Return myrepos =>
                    match myrepos with
                    | None | Some [] =>
                        _ ← summary_add
                              ("**Error**: " +:+ src_project
                               +:+ " does not build against " +:+ pystr dst_project
                               +:+ ", can't check library ABIs" +:+ nl +:+ nl);
                        _ ← reports_append report;
                        mret (Some false)
                    | Some myrepos =>
                        check_matched env src_project src_package src_srcinfo
                                      dst_project dst_package dst_srcinfo
                                      report myrepos
                    end
                end
            end
        end
    end.

(** ** Persistence *)

(** The tables of [abichecker_dbmodel.py] that [save_reports_to_db]
    touches, without the time stamps. *)
Record RequestRow : Type := mkRequestRow {
  rq_state : string;
  rq_result : option string
}.

Record ABICheckRow : Type := mkABICheckRow {
  ac_id : nat;
  ac_request_id : nat;
  ac_src_project : string; ac_src_package : string; ac_src_rev : option string;
  ac_dst_project : option string; ac_dst_package : string;
  ac_result : option bool
}.

Record LibReportRow : Type := mkLibReportRow {
  lp_id : nat;
  lp_submission_id : nat;
  lp_src_repo : string; lp_src_lib : string;
  lp_dst_repo : string; lp_dst_lib : string;
  lp_arch : string; lp_htmlreport : string;
  lp_result : bool
}.

(** The request table is keyed by its primary key; the other two tables
    keep their rows in insertion order. *)
Record DB : Type := mkDB {
  requests : gmap nat RequestRow;
  abichecks : list ABICheckRow;
  libreports : list LibReportRow
}.

(** The primary key the storage engine gives a new row of an integer
    primary key column: one more than the largest key in the table. *)
Definition next_id (ids : list nat) : nat := S (foldr Nat.max 0 ids).

(** [session.delete(i)] for every [ABICheck] of the request; the
    relationship [reports] cascades the deletion to the [LibReport] rows
    of each deleted row. *)
Definition delete_abichecks (reqid : nat) (db : DB) : DB :=
  let doomed := ac_id <$> filter (fun a => ac_request_id a = reqid) (abichecks db) in
  mkDB (requests db)
       (filter (fun a => ac_request_id a ≠ reqid) (abichecks db))
       (filter (fun l => lp_submission_id l ∉ doomed) (libreports db)).

(** The body of [for lr in r.reports]. *)
Definition add_libreport (web_url : option string) (abicheck_id : nat)
    (st : DB * string) (lr : LibResult) : DB * string :=
  let '(db, text) := st in
  let id := next_id (lp_id <$> libreports db) in
  (mkDB (requests db) (abichecks db)
        (libreports db ++
           [mkLibReportRow id abicheck_id (lr_src_repo lr) (lr_src_lib lr)
                           (lr_dst_repo lr) (lr_dst_lib lr) (lr_arch lr)
                           (lr_htmlreport lr) (lr_result lr)]),
   text +:+ "* " +:+ lr_dst_lib lr +:+ " (" +:+ lr_arch lr +:+ "): ["
        +:+ (if lr_result lr then "compatible" else "***INCOMPATIBLE***")
        +:+ "](" +:+ pystr web_url +:+ "/report/" +:+ pretty id +:+ ")" +:+ nl).

(** The body of [for r in self.reports]. *)
Definition add_report (web_url : option string) (reqid : nat)
    (st : DB * string) (r : Report) : DB * string :=
  let '(db, text) := st in
  let id := next_id (ac_id <$> abichecks db) in
  let db := mkDB (requests db)
                 (abichecks db ++
                    [mkABICheckRow id reqid (r_src_project r) (r_src_package r)
                                   (r_src_rev r) (r_dst_project r)
                                   (r_dst_package r) (r_result r)])
                 (libreports db) in
  match r_result r with
  | None => (db, text)
  | Some compatible =>
      let link := "](" +:+ pystr web_url +:+ "/request/" +:+ pretty reqid
                  +:+ "):" +:+ nl +:+ nl in
      let text :=
        if compatible
        then text +:+ "Good news from ABI check, " +:+ r_dst_package r
                  +:+ " seems to be ABI [compatible" +:+ link
        else text +:+ "Warning: bad news from ABI check, " +:+ r_dst_package r
                  +:+ " may be ABI [**INCOMPATIBLE**" +:+ link in
      foldl (add_libreport web_url id) (db, text) (r_reports r)
  end.

(** The [try] block of [save_reports_to_db] and its handler: a stored
    request loses its [ABICheck] rows and gets the new state and result,
    a request that is not stored ([NoResultFound]) is added. *)
Definition upsert_request (reqid : nat) (state : string) (result : option string)
    (db : DB) : DB :=
  match requests db !! reqid with
  | Some _ =>
      let db := delete_abichecks reqid db in
      mkDB (<[reqid := mkRequestRow state result]> (requests db))
           (abichecks db) (libreports db)
  | None =>
      mkDB (<[reqid := mkRequestRow state result]> (requests db))
           (abichecks db) (libreports db)
  end.

(** [save_reports_to_db(self, req, state, result)]; [web_url] is the
    module variable [WEB_URL], [reqid] is [req.reqid]. *)
Definition save_reports_to_db (web_url : option string) (reqid : nat)
    (state : string) (result : option string) (self : Checker) (db : DB)
  : Checker * DB :=
  let db := upsert_request reqid state result db in
  let '(db, text) := foldl (add_report web_url reqid) (db, text_summary self)
                           (reports self) in
  (mkChecker [] text (calls self), db).

(** The stored sub-reports of a request, read back without primary keys:
    each [ABICheck] row of the request with the [LibReport] rows that
    point to it. *)
Definition libreport_of (l : LibReportRow) : LibResult :=
  mkLibResult (lp_src_repo l) (lp_src_lib l) (lp_dst_repo l) (lp_dst_lib l)
              (lp_arch l) (lp_htmlreport l) (lp_result l).

Definition report_of (db : DB) (a : ABICheckRow) : Report :=
  mkReport (ac_src_project a) (ac_src_package a) (ac_src_rev a)
           (ac_dst_project a) (ac_dst_package a)
           (libreport_of <$> filter (fun l => lp_submission_id l = ac_id a)
                                    (libreports db))
           (ac_result a).

Definition stored_reports (db : DB) (reqid : nat) : list Report :=
  report_of db <$> filter (fun a => ac_request_id a = reqid) (abichecks db).

(** What [save_reports_to_db] stores of one report: the nested results
    only when the report has a verdict. *)
Definition persisted (r : Report) : Report :=
  mkReport (r_src_project r) (r_src_package r) (r_src_rev r)
           (r_dst_project r) (r_dst_package r)
           (if r_result r is Some _ then r_reports r else [])
           (r_result r).

(** Referential integrity of the database: primary keys of [abicheck]
    are unique, every [abicheck] row belongs to a stored request and every
    [libreport] row to a stored [abicheck] row. *)
Definition db_ok (db : DB) : Prop :=
  NoDup (ac_id <$> abichecks db)
  ∧ (∀ a, a ∈ abichecks db → is_Some (requests db !! ac_request_id a))
  ∧ (∀ l, l ∈ libreports db → lp_submission_id l ∈ (ac_id <$> abichecks db)).

(** ** Archive parser ([osclib/cpio.py])

    The module runs under Python 3 (its first line asks for [python3] and
    it uses a formatted string literal), where [bytes] and [str] are
    different types: a [bytes] value is never equal to a [str] value.
    Both are sequences of 8-bit characters here, told apart by a tag. *)
Module cpio.

Local Open Scope Z_scope.

Inductive pyvalue : Type :=
| PyBytes (b : string)
| PyStr (s : string).

(** [x == y] on these values. *)
Definition py_eq (x y : pyvalue) : bool :=
  match x, y with
  | PyBytes a, PyBytes b => bool_decide (a = b)
  | PyStr a, PyStr b => bool_decide (a = b)
  | _, _ => false
  end.

(** [buf[a:b]] for [0 <= a]. *)
Definition slice (buf : string) (a b : Z) : string :=
  substring (Z.to_nat a) (Z.to_nat (b - a)) buf.

Definition hex_digit (c : ascii) : option Z :=
  let n := Z.of_nat (nat_of_ascii c) in
  if (48 <=? n) && (n <=? 57) then Some (n - 48)
  else if (97 <=? n) && (n <=? 102) then Some (n - 87)
  else if (65 <=? n) && (n <=? 70) then Some (n - 55)
  else None.

Fixpoint int16_from (acc : Z) (v : string) : option Z :=
  match v with
  | EmptyString => Some acc
  | String c rest =>
      match hex_digit c with
      | Some d => int16_from (16 * acc + d) rest
      | None => None
      end
  end.

(** [int(v, 16)] on a field of hexadecimal digits; signs, prefixes and
    blanks, which [int] also accepts, do not occur in a header. *)
Definition int16 (v : string) : result Z :=
  match v with
  | EmptyString => Raise (PyError "ValueError")
  | _ => match int16_from 0 v with
         | Some n => Return n
         | None => Raise (PyError "ValueError")
         end
  end.

(** [struct.calcsize("6s8s8s8s8s8s8s8s8s8s8s8s8s8s")] *)
Definition header_size : Z := 110.

(** [struct.unpack(fmt, data)] for that format: the fourteen fields, when
    [data] has exactly the size of the format. *)
Fixpoint fields8 (n : nat) (data : string) : list string :=
  match n with
  | O => []
  | S n => substring 0 8 data :: fields8 n (substring 8 (String.length data - 8) data)
  end.

Definition unpack_header (data : string) : result (list string) :=
  if bool_decide (Z.of_nat (String.length data) = header_size)
  then Return (substring 0 6 data
               :: fields8 13 (substring 6 (String.length data - 6) data))
  else Raise (PyError "struct.error").

(** The attributes of a [CpioFile] object. *)
Record CpioFile : Type := mkCpioFile {
  off : Z;
  buf : string;
  c_ino : Z; c_mode : Z; c_uid : Z; c_gid : Z; c_nlink : Z; c_mtime : Z;
  c_filesize : Z; c_devmajor : Z; c_devminor : Z; c_rdevmajor : Z;
  c_rdevminor : Z; c_namesize : Z; c_check : Z;
  name : pyvalue;
  payloadstart : Z
}.

Fixpoint mapM {A B} (f : A -> result B) (l : list A) : result (list B) :=
  match l with
  | [] => Return []
  | x :: l => y ← f x; ys ← mapM f l; Return (y :: ys)
  end.

(** [CpioFile.__init__(self, off, buf)] for a [bytes] buffer. The message
    of the second [raise] reads the attribute [c_magic], which is never
    set, so that statement ends in [AttributeError]. *)
Definition CpioFile_init (off0 : Z) (buf0 : string) : result CpioFile :=
  if bool_decide (Z.land off0 3 ≠ 0) then Raise (PyError "Exception: invalid offset")
  else
    let off1 := off0 + header_size in
    fields ← unpack_header (slice buf0 off0 off1);
    match fields with
    | magic :: rest =>
        if negb (py_eq (PyBytes magic) (PyStr "070701"))
        then Raise (PyError "AttributeError")
        else
          nums ← mapM int16 rest;
          match nums with
          | [ino; mode; uid; gid; nlink; mtime; filesize; devmajor; devminor;
             rdevmajor; rdevminor; namesize; check] =>
              let nlen := namesize - 1 in
              if bool_decide (nlen < 0) then Raise (PyError "struct.error")
              else
                let raw := slice buf0 off1 (off1 + nlen) in
                if bool_decide (Z.of_nat (String.length raw) ≠ nlen)
                then Raise (PyError "struct.error")
                else
                  let off2 := off1 + nlen + 1 in
                  let off3 := if bool_decide (Z.land off2 3 ≠ 0)
                              then off2 + 4 - Z.land off2 3 else off2 in
                  Return (mkCpioFile off0 buf0 ino mode uid gid nlink mtime
                            filesize devmajor devminor rdevmajor rdevminor
                            namesize check (PyBytes raw) off3)
          | _ => Raise (PyError "struct.error")
          end
    | [] => Raise (PyError "struct.error")
    end.

(** [fin], [header] and [length] *)
Definition fin (f : CpioFile) : bool := py_eq (name f) (PyStr "TRAILER!!!").

Definition header (f : CpioFile) : string :=
  slice (buf f) (payloadstart f) (payloadstart f + c_filesize f).

Definition length (f : CpioFile) : Z :=
  let len := payloadstart f - off f + c_filesize f in
  if bool_decide (Z.land (c_filesize f) 3 ≠ 0)
  then len + 4 - Z.land (c_filesize f) 3 else len.

(** A [Cpio] object: the buffer and the current offset. *)
Record Cpio : Type := mkCpio { cpio_buf : string; cpio_off : Z }.

(** [Cpio(buf)] *)
Definition Cpio_init (b : string) : Cpio := mkCpio b 0.

(** [Cpio.next(self)]: [None] is [StopIteration]. *)
Definition next (c : Cpio) : result (option (CpioFile * Cpio)) :=
  f ← CpioFile_init (cpio_off c) (cpio_buf c);
  if fin f then Return None
  else Return (Some (f, mkCpio (cpio_buf c) (cpio_off c + length f))).

(** Calling [next] by hand until it stops; every call that returns a file
    moves the offset forward by at least a header, so a buffer of [n]
    bytes is drained within [n] calls. *)
Fixpoint drain (fuel : nat) (c : Cpio) : result (list CpioFile) :=
  match fuel with
  | O => Return []
  | S fuel =>
      r ← next c;
      match r with
      | None => Return []
      | Some (f, c') => fs ← drain fuel c'; Return (f :: fs)
      end
  end.

(** The methods the class [Cpio] defines. *)
Definition Cpio_methods : list string := ["__init__"; "__iter__"; "next"].

(** [for i in cpio]: [__iter__] returns the object itself, and the loop
    asks it for [__next__]. *)
Definition for_each (c : Cpio) : result (list CpioFile) :=
  if bool_decide ("__next__" ∈ Cpio_methods)
  then drain (S (String.length (cpio_buf c))) c
  else Raise (PyError "TypeError").

(** A well-formed entry of the archive format: the magic, thirteen fields
    of eight hexadecimal digits, the name with its terminating zero byte
    padded to a multiple of four, and the payload padded likewise. *)
Definition hex_char (d : Z) : ascii :=
  ascii_of_nat (Z.to_nat (if d <? 10 then 48 + d else 55 + d)).

Fixpoint hex_digits (n : nat) (v : Z) : string :=
  match n with
  | O => EmptyString
  | S n => hex_digits n (v / 16) +:+ String (hex_char (v mod 16)) EmptyString
  end.

Definition hex8 (v : Z) : string := hex_digits 8 v.

Fixpoint zeros (n : nat) : string :=
  match n with
  | O => EmptyString
  | S n => String zero (zeros n)
  end.

Definition pad4 (len : Z) : string := zeros (Z.to_nat ((4 - len mod 4) mod 4)).

Definition entry (fname content : string) : string :=
  let namesize := Z.of_nat (String.length fname) + 1 in
  let filesize := Z.of_nat (String.length content) in
  "070701" +:+ hex8 1 +:+ hex8 33188 +:+ hex8 0 +:+ hex8 0 +:+ hex8 1 +:+ hex8 0
  +:+ hex8 filesize +:+ hex8 0 +:+ hex8 0 +:+ hex8 0 +:+ hex8 0
  +:+ hex8 namesize +:+ hex8 0
  +:+ fname +:+ zeros 1 +:+ pad4 (header_size + namesize)
  +:+ content +:+ pad4 filesize.

(** One file followed by the trailer entry. *)
Definition archive (fname content : string) : string :=
  entry fname content +:+ entry "TRAILER!!!" "".

End cpio.

(** * Properties *)

(** ** RepoMatcher: build success and settledness *)

Section RepoMatcher.

Context (src_project : string) (src_srcinfo : SourceInfo).



End RepoMatcher.

(** A source project with one repository built for two architectures
    against [openSUSE:Leap:15.0]; both builds are settled, only the
    [x86_64] one is in the report of successful builds. *)
Definition unbuilt_env : RepoEnv := {|
  env_dstrepos := Some {[ ("standard", "i586"); ("standard", "x86_64") ]};
  env_src_meta :=
    Some [ mkRepository "openSUSE_Leap_15.0"
                        [mkPath "openSUSE:Leap:15.0" "standard"]
                        ["i586"; "x86_64"] ];
  env_results :=
    [ mkBuildResult (Some "libfoo") "openSUSE_Leap_15.0" "i586" false "excluded";
      mkBuildResult (Some "libfoo") "openSUSE_Leap_15.0" "x86_64" false "succeeded" ];
  env_buildsuccess := Some {[ ("openSUSE_Leap_15.0", "x86_64") ]}
|}.

Definition libfoo_srcinfo : SourceInfo := mkSourceInfo "libfoo" "0123456789abcdef".

(** C1 (code as written): the last loop of [findrepos] tests every matched
    triple against the report of successful builds with the leftover loop
    variable [arch] instead of the triple's own architecture. Here the
    triple [(openSUSE_Leap_15.0, standard, i586)] is matched, its pair
    [(openSUSE_Leap_15.0, i586)] is absent from the report, and
    [findrepos] returns the matched set instead of raising
    [NoBuildSuccess]. *)
Theorem findrepos_checks_last_arch_only :
  findrepos None unbuilt_env "home:user" libfoo_srcinfo
            (Some "openSUSE:Leap:15.0") libfoo_srcinfo
  = Return (Some [ mkMR "openSUSE_Leap_15.0" "standard" "i586";
                   mkMR "openSUSE_Leap_15.0" "standard" "x86_64" ])
  ∧ env_buildsuccess unbuilt_env = Some {[ ("openSUSE_Leap_15.0", "x86_64") ]}
  ∧ ("openSUSE_Leap_15.0", "i586")
      ∉ ({[ ("openSUSE_Leap_15.0", "x86_64") ]} : gset (string * string)).
Proof.
  split; [vm_compute; reflexivity|].
  split; [reflexivity|].
  intros H. apply elem_of_singleton in H. discriminate H.
Qed.

Section Settled.

Context (results : list BuildResult) (src_project : string) (src_srcinfo : SourceInfo).

Let rmap := build_rmap (package src_srcinfo) results.

(** A triple passes: it has a result that is not dirty and whose code is
    terminal. *)
Definition passes (mr : MR) : Prop :=
  ∃ res, rmap !! (srcrepo mr, arch mr) = Some res
         ∧ res_dirty res = false ∧ res_code res ∈ terminal_codes.

(** A triple is broken: it has a result that is not dirty and whose code
    is [broken]. *)
Definition is_broken (mr : MR) : Prop :=
  ∃ res, rmap !! (srcrepo mr, arch mr) = Some res
         ∧ res_dirty res = false ∧ res_code res = "broken".

(** A triple is not ready: no result, or a dirty one (whatever its code),
    or a code that is neither [broken] nor terminal. *)
Definition not_ready (mr : MR) : Prop :=
  rmap !! (srcrepo mr, arch mr) = None
  ∨ ∃ res, rmap !! (srcrepo mr, arch mr) = Some res
           ∧ (res_dirty res = true
              ∨ (res_code res ≠ "broken" ∧ res_code res ∉ terminal_codes)).

Lemma settle_one_passes mr :
  settle_one src_project (package src_srcinfo) rmap mr = None ↔ passes mr.
Proof.
  unfold settle_one, passes. destruct (rmap !! _) as [res|] eqn:E.
  - destruct (res_dirty res) eqn:D.
    + split; [done|]. intros (r & [= <-] & ? & _). congruence.
    + case_bool_decide as Hb.
      * split; [done|]. intros (r & [= <-] & _ & Hin).
        unfold terminal_codes in Hin. rewrite Hb in Hin.
        repeat (apply elem_of_cons in Hin as [Hin|Hin]; [discriminate Hin|]).
        by apply elem_of_nil in Hin.
      * case_bool_decide as Ht.
        -- split; [|done]. intros _. by exists res.
        -- split; [done|]. by intros (r & [= <-] & _ & Hin).
  - split; [done|]. intros (r & ? & _). done.
Qed.

Lemma settle_one_broken mr :
  is_broken mr →
  settle_one src_project (package src_srcinfo) rmap mr
  = Some (SourceBroken src_project (package src_srcinfo)).
Proof.
  intros (res & E & D & C). unfold settle_one. rewrite E, D.
  by rewrite bool_decide_eq_true_2.
Qed.

Lemma settle_one_not_ready mr :
  not_ready mr →
  ∃ reason, settle_one src_project (package src_srcinfo) rmap mr
            = Some (NotReadyYet src_project (package src_srcinfo) reason).
Proof.
  unfold settle_one. intros [E | (res & E & [D | [C T]])]; rewrite E.
  - by eexists.
  - rewrite D. by eexists.
  - destruct (res_dirty res); [by eexists|].
    rewrite bool_decide_eq_false_2 by done.
    rewrite bool_decide_eq_false_2 by done. by eexists.
Qed.

Lemma settle_loop_passing pre rest :
  Forall passes pre →
  settle_loop src_project (package src_srcinfo) rmap (pre ++ rest)
  = settle_loop src_project (package src_srcinfo) rmap rest.
Proof.
  induction 1 as [|mr pre Hmr _ IH]; simpl; [done|].
  apply settle_one_passes in Hmr. by rewrite Hmr.
Qed.

(** C2 (amended): [ensure_settled] walks the matched triples in iteration
    order and the first triple that does not pass decides. When every
    triple before [mr] passes: a broken [mr] raises [SourceBroken], a
    not-ready [mr] (no result, dirty whatever its code, or another
    non-terminal code) raises [NotReadyYet], whatever the triples after
    it are; and when all triples pass nothing is raised. *)
Theorem ensure_settled_first_failure (pre post : list MR) (mr : MR) :
  Forall passes pre →
  (is_broken mr →
     ensure_settled results src_project src_srcinfo (pre ++ mr :: post)
     = Raise (SourceBroken src_project (package src_srcinfo)))
  ∧ (not_ready mr →
     ∃ reason,
       ensure_settled results src_project src_srcinfo (pre ++ mr :: post)
       = Raise (NotReadyYet src_project (package src_srcinfo) reason))
  ∧ ensure_settled results src_project src_srcinfo pre = Return tt.
Proof.
  intros Hpre. unfold ensure_settled. fold rmap.
  rewrite settle_loop_passing by done. simpl.
  split; [|split].
  - intros Hb. by rewrite (settle_one_broken _ Hb).
  - intros Hn. destruct (settle_one_not_ready _ Hn) as [reason ->]. by exists reason.
  - rewrite <- (app_nil_r pre). by rewrite settle_loop_passing.
Qed.

End Settled.

(** Build results of a source package in three architectures: settled,
    broken, and dirty. *)
Definition mixed_results : list BuildResult :=
  [ mkBuildResult (Some "libfoo") "standard" "x86_64" false "succeeded";
    mkBuildResult (Some "libfoo") "standard" "i586" false "broken";
    mkBuildResult (Some "libfoo") "standard" "aarch64" true "building" ].

Definition mr_x86_64 : MR := mkMR "standard" "standard" "x86_64".
Definition mr_i586 : MR := mkMR "standard" "standard" "i586".
Definition mr_aarch64 : MR := mkMR "standard" "standard" "aarch64".

Lemma ensure_settled_first_failure_witness :
  ensure_settled mixed_results "home:user" libfoo_srcinfo
                 ([mr_x86_64] ++ mr_i586 :: [mr_aarch64])
  = Raise (SourceBroken "home:user" (package libfoo_srcinfo)).
Proof.
  refine (proj1 (ensure_settled_first_failure mixed_results "home:user"
                   libfoo_srcinfo [mr_x86_64] [mr_aarch64] mr_i586 _) _).
  - apply Forall_cons. split; [|apply Forall_nil; exact I].
    exists (mkBuildResult (Some "libfoo") "standard" "x86_64" false "succeeded").
    split; [vm_compute; reflexivity|]. split; [reflexivity|].
    apply list_elem_of_here.
  - exists (mkBuildResult (Some "libfoo") "standard" "i586" false "broken").
    split; [vm_compute; reflexivity|]. split; reflexivity.
Defined.

(** C2 (as stated) fails. With the same three results, the dirty triple
    iterated before the broken one gives [NotReadyYet]; and a single
    matched triple that is both dirty and broken gives [NotReadyYet] in
    every order. *)
Lemma broken_does_not_take_precedence :
  (mr_i586 ∈ [mr_aarch64; mr_i586]
   ∧ res_code <$> (build_rmap "libfoo" mixed_results !! ("standard", "i586"))
     = Some "broken"
   ∧ ensure_settled mixed_results "home:user" libfoo_srcinfo [mr_aarch64; mr_i586]
     = Raise (NotReadyYet "home:user" "libfoo" "dirty"))
  ∧ (let results := [mkBuildResult (Some "libfoo") "standard" "i586" true "broken"] in
     res_code <$> (build_rmap "libfoo" results !! ("standard", "i586")) = Some "broken"
     ∧ ensure_settled results "home:user" libfoo_srcinfo [mr_i586]
       = Raise (NotReadyYet "home:user" "libfoo" "dirty")).
Proof.
  split; [split; [|split]|split].
  - apply list_elem_of_further, list_elem_of_here.
  - vm_compute; reflexivity.
  - vm_compute; reflexivity.
  - vm_compute; reflexivity.
  - vm_compute; reflexivity.
Qed.

(** ** MaintenanceResolver: remapping the matched triples *)

Lemma build_mapped_acc (originrepos : list MR) (acc : gmap (string * string) MR)
    (k : string * string) (o : MR) :
  foldl (fun mapped mr => <[(dstrepo mr, arch mr) := mr]> mapped) acc originrepos !! k
  = Some o →
  (o ∈ originrepos ∧ k = (dstrepo o, arch o)) ∨ acc !! k = Some o.
Proof.
  revert acc. induction originrepos as [|mr rest IH]; intros acc; simpl.
  - by right.
  - intros H. apply IH in H as [[Hin Hk] | H].
    + left. split; [by right | done].
    + destruct (decide ((dstrepo mr, arch mr) = k)) as [<-|Hne].
      * rewrite lookup_insert_eq in H. injection H as <-. left. split; [left | done].
      * rewrite lookup_insert_ne in H by done. by right.
Qed.

Lemma build_mapped_sound originrepos k o :
  build_mapped originrepos !! k = Some o →
  o ∈ originrepos ∧ k = (dstrepo o, arch o).
Proof.
  intros H. apply build_mapped_acc in H as [H | H]; [done|].
  by rewrite lookup_empty in H.
Qed.

Lemma build_mapped_some_acc (originrepos : list MR) (acc : gmap (string * string) MR)
    (k : string * string) :
  is_Some (acc !! k) ∨ (∃ o, o ∈ originrepos ∧ k = (dstrepo o, arch o)) →
  is_Some (foldl (fun mapped mr => <[(dstrepo mr, arch mr) := mr]> mapped)
                 acc originrepos !! k).
Proof.
  revert acc. induction originrepos as [|mr rest IH]; intros acc; simpl.
  - intros [H | (o & Hin & _)]; [done | by apply elem_of_nil in Hin].
  - intros [H | (o & Hin & Hk)]; apply IH.
    + left. destruct (decide ((dstrepo mr, arch mr) = k)) as [<-|Hne].
      * by rewrite lookup_insert_eq.
      * by rewrite lookup_insert_ne.
    + apply elem_of_cons in Hin as [-> | Hin].
      * left. subst k. by rewrite lookup_insert_eq.
      * right. by exists o.
Qed.

Lemma build_mapped_complete originrepos o :
  o ∈ originrepos → is_Some (build_mapped originrepos !! (dstrepo o, arch o)).
Proof. intros H. apply build_mapped_some_acc. right. by exists o. Qed.

Lemma set_add_elem {A} `{EqDecision A} (x y : A) (s : list A) :
  y ∈ set_add x s ↔ y = x ∨ y ∈ s.
Proof.
  unfold set_add. case_bool_decide as Hx.
  - split; [by right | intros [-> | ?]; done].
  - rewrite elem_of_app, list_elem_of_singleton. tauto.
Qed.

Lemma set_add_NoDup {A} `{EqDecision A} (x : A) (s : list A) :
  NoDup s → NoDup (set_add x s).
Proof.
  intros Hs. unfold set_add. case_bool_decide as Hx; [done|].
  apply NoDup_app. split; [done|]. split.
  - intros y Hy Hy'. apply list_elem_of_singleton in Hy'. by subst.
  - apply NoDup_singleton.
Qed.

Section Remap.

Context (originproject originpackage : string) (mapped : gmap (string * string) MR).

Let step := fun '(matchrepos, warnings) mr =>
  match mapped !! (dstrepo mr, arch mr) with
  | None =>
      (matchrepos,
       warnings ++ ["couldn't find repo " +:+ dstrepo mr +:+ "/" +:+ arch mr
                    +:+ " in " +:+ originproject +:+ "/" +:+ originpackage])
  | Some o => (set_add (mkMR (srcrepo mr) (srcrepo o) (arch mr)) matchrepos, warnings)
  end.

Lemma remap_acc (myrepos : list MR) (ms : list MR) (ws : list string) :
  let r := foldl step (ms, ws) myrepos in
  (∀ t, t ∈ r.1 ↔
        t ∈ ms ∨ ∃ mr o, mr ∈ myrepos ∧ mapped !! (dstrepo mr, arch mr) = Some o
                         ∧ t = mkMR (srcrepo mr) (srcrepo o) (arch mr))
  ∧ length r.2
    = (length ws
       + length (filter (fun mr => mapped !! (dstrepo mr, arch mr) = None) myrepos))%nat
  ∧ (NoDup ms → NoDup r.1).
Proof.
  revert ms ws. induction myrepos as [|mr rest IH]; intros ms ws; simpl.
  - split; [|split; [simpl; lia | done]].
    intros t. split; [by left|]. intros [H | (mr & o & Hin & _)]; [done|].
    by apply elem_of_nil in Hin.
  - destruct (mapped !! (dstrepo mr, arch mr)) as [o|] eqn:E.
    + destruct (IH (set_add (mkMR (srcrepo mr) (srcrepo o) (arch mr)) ms) ws)
        as (Hel & Hlen & Hnd).
      split; [|split].
      * intros t. rewrite Hel, set_add_elem. split.
        -- intros [[-> | H] | (mr' & o' & Hin & Hm & ->)].
           ++ right. exists mr, o. split; [left | done].
           ++ by left.
           ++ right. exists mr', o'. split; [by right | done].
        -- intros [H | (mr' & o' & Hin & Hm & ->)]; [left; by right|].
           apply elem_of_cons in Hin as [-> | Hin].
           ++ left. left. rewrite E in Hm. by injection Hm as <-.
           ++ right. by exists mr', o'.
      * rewrite Hlen. rewrite filter_cons_False by (rewrite E; done). done.
      * intros H. by apply Hnd, set_add_NoDup.
    + destruct (IH ms (ws ++ ["couldn't find repo " +:+ dstrepo mr +:+ "/" +:+ arch mr
                              +:+ " in " +:+ originproject +:+ "/" +:+ originpackage]))
        as (Hel & Hlen & Hnd).
      split; [|split].
      * intros t. rewrite Hel. split.
        -- intros [H | (mr' & o' & Hin & Hm & ->)]; [by left|].
           right. exists mr', o'. split; [by right | done].
        -- intros [H | (mr' & o' & Hin & Hm & ->)]; [by left|].
           apply elem_of_cons in Hin as [-> | Hin]; [congruence|].
           right. by exists mr', o'.
      * rewrite Hlen, length_app, filter_cons_True by done. simpl. lia.
      * done.
Qed.

End Remap.

(** C9 (amended): the map built from the nested repo matching holds, for
    a pair [(dstRepo, arch)], an origin triple with that destination repo
    and architecture, and has an entry exactly for the pairs of the origin
    triples. The loop over the original triples never raises; a triple
    whose [(dstRepo, arch)] has no entry is dropped with one warning; each
    other triple keeps its source repo and its architecture, and its
    destination repo is replaced by the source repo of the origin triple
    found in the map. *)
Theorem remap_repos_rewrites_dstrepo
    (originproject originpackage : string) (originrepos myrepos : list MR) :
  let mapped := build_mapped originrepos in
  let r := remap_repos originproject originpackage mapped myrepos in
  (∀ k, is_Some (mapped !! k) ↔ ∃ o, o ∈ originrepos ∧ k = (dstrepo o, arch o))
  ∧ (∀ k o, mapped !! k = Some o → o ∈ originrepos ∧ k = (dstrepo o, arch o))
  ∧ (∀ t, t ∈ r.1 ↔
          ∃ mr o, mr ∈ myrepos ∧ mapped !! (dstrepo mr, arch mr) = Some o
                  ∧ t = mkMR (srcrepo mr) (srcrepo o) (arch mr))
  ∧ length r.2
    = length (filter (fun mr => mapped !! (dstrepo mr, arch mr) = None) myrepos)
  ∧ NoDup r.1.
Proof.
  intros mapped r.
  destruct (remap_acc originproject originpackage mapped myrepos [] [])
    as (Hel & Hlen & Hnd).
  split; [|split; [|split; [|split]]].
  - intros k. split.
    + intros [o Ho]. exists o. by apply build_mapped_sound.
    + intros (o & Hin & ->). by apply build_mapped_complete.
  - intros k o. apply build_mapped_sound.
  - intros t. unfold r, remap_repos. rewrite Hel. split.
    + intros [H | H]; [by apply elem_of_nil in H | done].
    + intros H. by right.
  - exact Hlen.
  - apply Hnd, NoDup_nil. exact I.
Qed.

(** The incident branch of [_maintenance_hack] as a whole: when the
    destination package links to [<name>.<incident>] in the destination
    project, the origin package exists and the nested repo matching
    returns a set, the call returns (it does not raise) the origin
    project, package and source info with the remapped triples. *)
Lemma maintenance_hack_incident (staging : option string) (env : MaintEnv)
    (dst : string) (dst_srcinfo origin_srcinfo : SourceInfo)
    (myrepos originrepos : list MR) (mproject linkpkg incident : string) :
  mh_maintenance_project env = Some mproject →
  mh_originproject env = None →
  mh_linktarget env = (Some dst, Some linkpkg) →
  incident_of linkpkg = Some incident →
  let originproject := mproject +:+ ":" +:+ incident in
  let originpackage := package dst_srcinfo +:+ "." +:+ replace_colon dst in
  mh_origin_srcinfo env originproject originpackage = Some origin_srcinfo →
  findrepos staging (mh_origin_queries env) originproject origin_srcinfo
            (Some dst) dst_srcinfo
  = Return (Some originrepos) →
  let r := remap_repos originproject originpackage (build_mapped originrepos) myrepos in
  _maintenance_hack staging env (Some dst) dst_srcinfo myrepos
  = Return (Some originproject, Some originpackage, origin_srcinfo, r.1, r.2).
Proof.
  intros Hm Ho Hl Hi originproject originpackage Hs Hf r.
  unfold _maintenance_hack. rewrite Hm, Ho, Hl.
  rewrite bool_decide_eq_true_2 by done. rewrite Hi.
  fold originproject originpackage. rewrite Hs, Hf. simpl.
  fold r. by destruct r.
Qed.

(** An update of [openSUSE:Leap:15.0:Update]: the request builds in the
    repository [openSUSE_Leap_15.0_Update] against the destination
    repository [standard]; the incident builds in [openSUSE_Leap_15.0]
    against the same destination repository. *)
Definition request_repos : list MR :=
  [ mkMR "openSUSE_Leap_15.0_Update" "standard" "x86_64";
    mkMR "openSUSE_Leap_15.0_Update" "standard" "i586" ].

Definition incident_repos : list MR :=
  [ mkMR "openSUSE_Leap_15.0" "standard" "x86_64" ].

(** C9 (as stated) fails: the remaining triple keeps its source repo
    [openSUSE_Leap_15.0_Update]; the field that the map rewrites is the
    destination repo, [standard] becomes [openSUSE_Leap_15.0]. The triple
    the claim describes, with the source side rewritten and the rest
    unchanged, is not produced. The [i586] triple is dropped with one
    warning. *)
Lemma remap_keeps_source_side :
  let r := remap_repos "openSUSE:Maintenance:1234" "libfoo.openSUSE_Leap_15.0_Update"
                       (build_mapped incident_repos) request_repos in
  r.1 = [ mkMR "openSUSE_Leap_15.0_Update" "openSUSE_Leap_15.0" "x86_64" ]
  ∧ ¬ (mkMR "openSUSE_Leap_15.0" "standard" "x86_64" ∈ r.1)
  ∧ length r.2 = 1%nat.
Proof.
  split; [vm_compute; reflexivity|]. split; [|vm_compute; reflexivity].
  vm_compute. intros H. apply list_elem_of_singleton in H. discriminate H.
Qed.

(** ** LibraryPairer *)

Definition dst_liba : gmap string (gset string) := {[ "liba.so.1" := ∅ ]}.
Definition src_liba : gmap string (gset string) := {[ "liba.so.2" := {[ "liba.so.1" ]} ]}.
Definition dst_liba_aliased : gmap string (gset string) :=
  {[ "liba.so.1" := {[ "liba.so.1" ]} ]}.

(** C5 (as stated) fails: the destination library has no alias, so no
    alias is looked up in the index of the source side and no pair is
    produced. *)
Lemma pair_libs_without_dst_alias :
  (pair_libs dst_liba src_liba).1
  ≠ ({[ ("liba.so.1", "liba.so.2") ]} : gset (string * string)).
Proof.
  intros H.
  assert (Hin : ("liba.so.1", "liba.so.2") ∈ (pair_libs dst_liba src_liba).1)
    by (rewrite H; apply elem_of_singleton; reflexivity).
  revert Hin. vm_compute. intros Hin. discriminate Hin.
Qed.

(** C5 (amended): for [dst = {"liba.so.1": {}}] and
    [src = {"liba.so.2": {"liba.so.1"}}] the pair set is empty and the
    library is reported as no longer packaged; when the destination
    library carries the alias [liba.so.1] itself, the pair set is exactly
    [{("liba.so.1", "liba.so.2")}] and there is no warning. *)
Theorem pair_libs_matches_through_dst_aliases :
  pair_libs dst_liba src_liba
  = (∅, ["*Warning*: liba.so.1 no longer packaged" +:+ nl +:+ nl])
  ∧ pair_libs dst_liba_aliased src_liba = ({[ ("liba.so.1", "liba.so.2") ]}, []).
Proof. split; vm_compute; reflexivity. Qed.

(** ** ReviewStateMachine *)

Lemma blacklist_family (p : string) :
  is_Some (PROJECT_BLACKLIST !! p)
  ↔ p ∈ [ "SUSE:SLE-11:Update"; "SUSE:SLE-11-SP1:Update"; "SUSE:SLE-11-SP2:Update";
          "SUSE:SLE-11-SP3:Update"; "SUSE:SLE-11-SP4:Update";
          "SUSE:SLE-11-SP5:Update" ].
Proof.
  unfold PROJECT_BLACKLIST. rewrite <- elem_of_dom, dom_list_to_map_L.
  rewrite elem_of_list_to_set. reflexivity.
Qed.

(** C10: when the destination project is a key of [PROJECT_BLACKLIST],
    [check_source_submission] returns [True] and leaves the checker as it
    was: no report is appended, the summary is untouched and no
    collaborator (staging lookup, source info, repo matching, maintenance
    remapping, extraction, dump or compare tool) is called, whatever the
    collaborators would answer. *)
Theorem check_source_submission_blacklisted (env : Env)
    (src_project src_package : string) (src_rev : option string)
    (dst_project dst_package : string) (self : Checker) :
  is_Some (PROJECT_BLACKLIST !! dst_project) →
  check_source_submission env src_project src_package src_rev
                          (Some dst_project) dst_package self
  = (Return (Some true), self).
Proof.
  intros Hbl. unfold check_source_submission, blacklisted.
  rewrite bool_decide_eq_false_2 by discriminate.
  rewrite (bool_decide_eq_true_2 _ Hbl). reflexivity.
Qed.

Definition idle_env : Env := {|
  has_staging := fun _ => false;
  staging_project := None;
  get_sourceinfo := fun _ _ _ => None;
  repo_queries := mkRepoEnv None None [] None;
  maint_queries := mkMaintEnv None None [] (None, None) (fun _ _ => None)
                              (mkRepoEnv None None [] None);
  extract := fun _ _ _ _ _ => Return None;
  so_re_match := fun _ => None;
  now_hex := fun _ _ _ => "00000000";
  abi_dumper_exit := fun _ _ _ _ _ _ => 0%Z;
  abi_checker_exit := fun _ _ => 0%Z
|}.

Lemma check_source_submission_blacklisted_witness :
  check_source_submission idle_env "home:user" "libfoo" None
                          (Some "SUSE:SLE-11-SP4:Update") "libfoo"
                          (mkChecker [] "" [])
  = (Return (Some true), mkChecker [] "" []).
Proof.
  apply (check_source_submission_blacklisted idle_env "home:user" "libfoo" None
           "SUSE:SLE-11-SP4:Update" "libfoo" (mkChecker [] "" [])).
  vm_compute. eexists. reflexivity.
Defined.

Lemma run_bind {A B} (m : M A) (k : A → M B) (s : Checker) :
  (m ≫= k) s
  = match m s with
    | (Return a, s') => k a s'
    | (Raise e, s') => (Raise e, s')
    end.
Proof. reflexivity. Qed.

Lemma run_abi_checker_cases (r : Z) :
  (r = 0%Z → run_abi_checker r = Some true)
  ∧ (r = 1%Z → run_abi_checker r = Some false)
  ∧ (r ≠ 0%Z → r ≠ 1%Z → run_abi_checker r = None).
Proof.
  unfold run_abi_checker. split; [|split].
  - intros ->. reflexivity.
  - intros ->. reflexivity.
  - intros H0 H1. rewrite bool_decide_eq_true_2; [done|].
    intros Hin. apply elem_of_cons in Hin as [?|Hin]; [done|].
    apply list_elem_of_singleton in Hin. done.
Qed.

Section Compare.

Context (env : Env) (src_project src_package : string)
        (dst_project : option string) (dst_package : string) (mr : MR)
        (dst_libdebug src_libdebug : gmap string string).

(** C7: when the compare step is reached for a pair (the library name
    matches [so_re] and both dumps succeed), the exit status [r] of the
    compare tool decides: [0] records a [LibResult] with [result = True],
    [1] records one with [result = False], and any other status records
    nothing and leaves the local variables as they were. *)
Theorem compare_exit_code_decides (loc : Locals) (old new libname olddebug newdebug : string)
    (self : Checker) :
  so_re_match env old = Some libname →
  dst_libdebug !! old = Some olddebug →
  abi_dumper_exit env dst_project dst_package (dstrepo mr) (arch mr) old olddebug = 0%Z →
  src_libdebug !! new = Some newdebug →
  abi_dumper_exit env (Some src_project) src_package (srcrepo mr) (arch mr)
                  new newdebug = 0%Z →
  let r := abi_checker_exit env libname (htmlreport_name env mr old new) in
  let recorded := fun compatible =>
    mkLibResult (srcrepo mr) (basename old) (dstrepo mr) (basename new) (arch mr)
                (htmlreport_name env mr old new) compatible in
  ∃ loc' self',
    diff_pair env src_project src_package dst_project dst_package mr
              dst_libdebug src_libdebug loc (old, new) self
    = (Return loc', self')
    ∧ (r = 0%Z → run_abi_checker r = Some true
                 ∧ libresults loc' = libresults loc ++ [recorded true])
    ∧ (r = 1%Z → run_abi_checker r = Some false
                 ∧ libresults loc' = libresults loc ++ [recorded false])
    ∧ (r ≠ 0%Z → r ≠ 1%Z → run_abi_checker r = None ∧ loc' = loc).
Proof.
  intros Hm Hold Hdump_old Hnew Hdump_new r recorded.
  unfold diff_pair. rewrite Hm. unfold getitem. rewrite Hold, Hnew.
  repeat (progress (rewrite ?run_bind; simpl; rewrite ?Hdump_old, ?Hdump_new)).
  fold r.
  destruct (run_abi_checker_cases r) as (H0 & H1 & Hother).
  destruct (decide (r = 0%Z)) as [E0|N0]; [|destruct (decide (r = 1%Z)) as [E1|N1]].
  - rewrite (H0 E0). do 2 eexists. split; [reflexivity|].
    split; [|split]; [done | lia | lia].
  - rewrite (H1 E1). do 2 eexists. split; [reflexivity|].
    split; [|split]; [lia | done | lia].
  - rewrite (Hother N0 N1). do 2 eexists. split; [reflexivity|].
    split; [|split]; done.
Qed.

End Compare.

(** Collaborators for one library pair: every library name matches, both
    dumps succeed, and the compare tool exits with [code]. *)
Definition tools_env (code : Z) : Env := {|
  has_staging := fun _ => false;
  staging_project := None;
  get_sourceinfo := fun _ _ _ => None;
  repo_queries := mkRepoEnv None None [] None;
  maint_queries := mkMaintEnv None None [] (None, None) (fun _ _ => None)
                              (mkRepoEnv None None [] None);
  extract := fun _ _ _ _ _ => Return None;
  so_re_match := fun _ => Some "foo";
  now_hex := fun _ _ _ => "6543f000";
  abi_dumper_exit := fun _ _ _ _ _ _ => 0%Z;
  abi_checker_exit := fun _ _ => code
|}.

Definition libfoo_debug : gmap string string :=
  {[ "/usr/lib64/libfoo.so.1" := "/usr/lib/debug/usr/lib64/libfoo.so.1.debug" ]}.

Lemma compare_exit_code_decides_witness :
  ∃ loc',
    (diff_pair (tools_env 1) "home:user" "libfoo" (Some "openSUSE:Leap:15.0") "libfoo"
               mr_x86_64 libfoo_debug libfoo_debug (mkLocals (Some true) None [] [])
               ("/usr/lib64/libfoo.so.1", "/usr/lib64/libfoo.so.1")
               (mkChecker [] "" [])).1
    = Return loc'
    ∧ lr_result <$> libresults loc' = [false].
Proof.
  destruct (compare_exit_code_decides (tools_env 1) "home:user" "libfoo"
              (Some "openSUSE:Leap:15.0") "libfoo" mr_x86_64 libfoo_debug libfoo_debug
              (mkLocals (Some true) None [] [])
              "/usr/lib64/libfoo.so.1" "/usr/lib64/libfoo.so.1" "foo"
              "/usr/lib/debug/usr/lib64/libfoo.so.1.debug"
              "/usr/lib/debug/usr/lib64/libfoo.so.1.debug"
              (mkChecker [] "" []))
    as (loc' & self' & Hrun & _ & Hone & _).
  - reflexivity.
  - vm_compute; reflexivity.
  - reflexivity.
  - vm_compute; reflexivity.
  - reflexivity.
  - exists loc'. rewrite Hrun. split; [reflexivity|].
    destruct (Hone eq_refl) as [_ ->]. reflexivity.
Defined.

(** The failures after which the submission has to be checked again. *)
Definition transient (e : exn) : bool :=
  match e with
  | FetchError _ | DistUrlMismatch _ _ => true
  | _ => false
  end.

Section Transient.

Context (env : Env) (src_project src_package : string) (src_srcinfo : SourceInfo)
        (dst_project : option string) (dst_package : string)
        (dst_srcinfo : SourceInfo).

(** Extraction of the destination side, or of the source side after the
    destination side gave libraries, fails with [e]. *)
Definition extract_fails (mr : MR) (e : exn) : Prop :=
  extract env dst_project dst_package dst_srcinfo (dstrepo mr) (arch mr) = Raise e
  ∨ (∃ libs, extract env dst_project dst_package dst_srcinfo (dstrepo mr) (arch mr)
             = Return (Some libs))
    ∧ extract env (Some src_project) src_package src_srcinfo (srcrepo mr) (arch mr)
      = Raise e.

(** C4: the verdict of a submission is the value [ret] that
    [check_source_submission] returns ([True] accept, [None] check again
    later, [False] decline). When extraction for a matched triple fails
    with [FetchError] or [DistUrlMismatch], the loop goes on, and [ret]
    becomes [None] if it was [True], stays [False] if it was [False] and
    stays [None] if it was [None]: the failure never makes it [False].
    The result stored in the report ([overall]) and the recorded library
    results are not touched. *)
Theorem transient_failure_rechecks (loc : Locals) (mr : MR) (e : exn) (self : Checker) :
  transient e = true →
  extract_fails mr e →
  ∃ loc' self',
    check_repo env src_project src_package src_srcinfo dst_project dst_package
               dst_srcinfo loc mr self
    = (Return loc', self')
    ∧ (ret loc = Some true → ret loc' = None)
    ∧ (ret loc = Some false → ret loc' = Some false)
    ∧ (ret loc = None → ret loc' = None)
    ∧ (ret loc' = Some false → ret loc = Some false)
    ∧ overall loc' = overall loc
    ∧ libresults loc' = libresults loc
    ∧ reports self' = reports self.
Proof.
  intros He Hfail.
  assert (Hstep : on_extract_error loc e
                  = Return (mkLocals (need_recheck (ret loc)) (overall loc)
                                     (libresults loc) (missing_debuginfo loc))).
  { destruct e; simpl in He; try discriminate He; reflexivity. }
  assert (Hret : ∀ r, (r = Some true → need_recheck r = None)
                      ∧ (r = Some false → need_recheck r = Some false)
                      ∧ (r = None → need_recheck r = None)
                      ∧ (need_recheck r = Some false → r = Some false)).
  { intros [[|]|]; unfold need_recheck; simpl; repeat split; congruence. }
  destruct (Hret (ret loc)) as (H1 & H2 & H3 & H4).
  unfold check_repo. rewrite run_bind. simpl.
  destruct Hfail as [Hdst | [[[dst_libs dst_libdebug] Hdst] Hsrc]]; rewrite Hdst.
  - unfold lift. rewrite Hstep. do 2 eexists. split; [reflexivity|]. simpl. tauto.
  - rewrite run_bind. simpl. rewrite Hsrc.
    unfold lift. rewrite Hstep. do 2 eexists. split; [reflexivity|]. simpl. tauto.
Qed.

End Transient.

(** A destination whose packed headers cannot be fetched. *)
Definition offline_env : Env := {|
  has_staging := fun _ => false;
  staging_project := None;
  get_sourceinfo := fun _ _ _ => None;
  repo_queries := mkRepoEnv None None [] None;
  maint_queries := mkMaintEnv None None [] (None, None) (fun _ _ => None)
                              (mkRepoEnv None None [] None);
  extract := fun _ _ _ _ _ => Raise (FetchError "failed to fetch header information");
  so_re_match := fun _ => None;
  now_hex := fun _ _ _ => "6543f000";
  abi_dumper_exit := fun _ _ _ _ _ _ => 0%Z;
  abi_checker_exit := fun _ _ => 0%Z
|}.

Lemma transient_failure_rechecks_witness :
  ∃ loc',
    (check_repo offline_env "home:user" "libfoo" libfoo_srcinfo
                (Some "openSUSE:Leap:15.0") "libfoo" libfoo_srcinfo
                (mkLocals (Some true) (Some true) [] []) mr_x86_64
                (mkChecker [] "" [])).1
    = Return loc'
    ∧ ret loc' = None ∧ overall loc' = Some true.
Proof.
  destruct (transient_failure_rechecks offline_env "home:user" "libfoo" libfoo_srcinfo
              (Some "openSUSE:Leap:15.0") "libfoo" libfoo_srcinfo
              (mkLocals (Some true) (Some true) [] []) mr_x86_64
              (FetchError "failed to fetch header information")
              (mkChecker [] "" []))
    as (loc' & self' & Hrun & Htrue & _ & _ & _ & Hoverall & _).
  - reflexivity.
  - left. reflexivity.
  - exists loc'. rewrite Hrun. split; [reflexivity|].
    split; [apply Htrue; reflexivity | exact Hoverall].
Defined.

(** *** Dominance of the result stored in a report *)

(** What one library pair does to [overall]: a result [r] of the compare
    step goes through the update at the end of the pair loop, a pair
    without result (failed dump or compare tool) leaves [overall] alone. *)
Definition overall_step (overall outcome : option bool) : option bool :=
  match outcome with
  | Some r => combine_overall overall r
  | None => overall
  end.

(** Unknown < Compatible < Incompatible *)
Definition rank (v : option bool) : nat :=
  match v with
  | None => 0
  | Some true => 1
  | Some false => 2
  end.

(** The state of [self] and of the loop variables that a computation may
    change: [m] leaves [self.reports] alone and its value satisfies [Q]. *)
Definition keeps_reports {A} (Q : A → Prop) (m : M A) : Prop :=
  ∀ s, reports (m s).2 = reports s
       ∧ match (m s).1 with Return a => Q a | Raise _ => True end.

Lemma keeps_ret {A} (Q : A → Prop) (a : A) : Q a → keeps_reports Q (mret a).
Proof. intros H s. by split. Qed.

Lemma keeps_bind {A B} (P : A → Prop) (Q : B → Prop) (m : M A) (k : A → M B) :
  keeps_reports P m → (∀ a, P a → keeps_reports Q (k a)) →
  keeps_reports Q (m ≫= k).
Proof.
  intros Hm Hk s. rewrite run_bind. destruct (Hm s) as [Hr Hv].
  destruct (m s) as [[a|e] s']; simpl in *.
  - destruct (Hk a Hv s') as [Hr' Hv']. split; [congruence | done].
  - by split.
Qed.

Lemma keeps_call (c : Call) : keeps_reports (fun _ => True) (call c).
Proof. intros s. by split. Qed.

Lemma keeps_summary_add (t : string) : keeps_reports (fun _ => True) (summary_add t).
Proof. intros s. by split. Qed.

Lemma keeps_lift {A} (Q : A → Prop) (r : result A) :
  match r with Return a => Q a | Raise _ => True end → keeps_reports Q (lift r).
Proof. intros H s. by split. Qed.

Lemma keeps_weaken {A} (P Q : A → Prop) (m : M A) :
  (∀ a, P a → Q a) → keeps_reports P m → keeps_reports Q m.
Proof.
  intros HPQ Hm s. destruct (Hm s) as [Hr Hv]. split; [done|].
  destruct (m s).1; [by apply HPQ | done].
Qed.

Lemma keeps_mfoldl {A B} (I : B → Prop) (f : B → A → M B) (l : list A) (b : B) :
  (∀ b x, I b → keeps_reports I (f b x)) → I b →
  keeps_reports I (mfoldl f b l).
Proof.
  intros Hf. revert b. induction l as [|x l IH]; intros b Hb; simpl.
  - by apply keeps_ret.
  - apply (keeps_bind I); [by apply Hf | exact IH].
Qed.

(** The invariant of the loops of [check_source_submission]: [overall] is
    what the recorded library results give, taken in order. *)
Definition overall_recorded (loc : Locals) : Prop :=
  overall loc = foldl overall_step None (Some ∘ lr_result <$> libresults loc).

Section Loops.

Context (env : Env) (src_project src_package : string) (src_srcinfo : SourceInfo)
        (dst_project : option string) (dst_package : string)
        (dst_srcinfo : SourceInfo).

Lemma diff_pair_keeps mr dst_libdebug src_libdebug loc pair :
  overall_recorded loc →
  keeps_reports overall_recorded
    (diff_pair env src_project src_package dst_project dst_package mr
               dst_libdebug src_libdebug loc pair).
Proof.
  intros Hinv. destruct pair as [old new]. unfold diff_pair.
  apply (keeps_bind (fun _ => True)).
  - destruct (so_re_match env old) as [libname|]; [|by apply keeps_ret].
    unfold getitem. destruct (dst_libdebug !! old) as [olddebug|].
    + apply (keeps_bind (fun _ => True)); [by apply keeps_ret|]. intros ? _.
      apply (keeps_bind (fun _ => True)); [apply keeps_call|]. intros _ _.
      destruct (run_abi_dumper _); [|by apply keeps_ret].
      destruct (src_libdebug !! new) as [newdebug|].
      * apply (keeps_bind (fun _ => True)); [by apply keeps_ret|]. intros ? _.
        apply (keeps_bind (fun _ => True)); [apply keeps_call|]. intros _ _.
        destruct (run_abi_dumper _); by apply keeps_ret.
      * apply (keeps_bind (fun _ => False)); [by apply keeps_lift|]. by intros.
    + apply (keeps_bind (fun _ => False)); [by apply keeps_lift|]. by intros.
  - intros [libname|] _.
    + apply (keeps_bind (fun _ => True)); [apply keeps_call|]. intros _ _.
      destruct (run_abi_checker _) as [r|]; apply keeps_ret; [|done].
      unfold overall_recorded in *. simpl.
      rewrite fmap_app, foldl_app. simpl. by rewrite <- Hinv.
    + apply (keeps_bind (fun _ => True)); [apply keeps_summary_add|]. intros _ _.
      by apply keeps_ret.
Qed.

Lemma on_extract_error_keeps loc e :
  overall_recorded loc →
  keeps_reports overall_recorded (lift (on_extract_error loc e)).
Proof.
  intros Hinv. apply keeps_lift. destruct e; simpl; done.
Qed.

Lemma check_repo_keeps loc mr :
  overall_recorded loc →
  keeps_reports overall_recorded
    (check_repo env src_project src_package src_srcinfo dst_project dst_package
                dst_srcinfo loc mr).
Proof.
  intros Hinv. unfold check_repo.
  apply (keeps_bind (fun _ => True)); [apply keeps_call|]. intros _ _.
  destruct (extract env dst_project _ _ _ _) as [[[dst_libs dst_libdebug]|]|e].
  - apply (keeps_bind (fun _ => True)); [apply keeps_call|]. intros _ _.
    destruct (extract env (Some src_project) _ _ _ _)
      as [[[src_libs src_libdebug]|]|e].
    + destruct (pair_libs dst_libs src_libs) as [pairs warnings].
      apply (keeps_bind (fun _ => True)); [apply keeps_summary_add|]. intros _ _.
      apply keeps_mfoldl; [|done]. intros b x Hb. by apply diff_pair_keeps.
    + apply (keeps_bind (fun _ => True)).
      * case_bool_decide; [apply keeps_summary_add | by apply keeps_ret].
      * intros _ _. by apply keeps_ret.
    + by apply on_extract_error_keeps.
  - by apply keeps_ret.
  - by apply on_extract_error_keeps.
Qed.

End Loops.

(** A report whose result is what its library results give. *)
Definition dominant_report (r : Report) : Prop :=
  r_result r = foldl overall_step None (Some ∘ lr_result <$> r_reports r).

(** [m] appends no report, or one report that is dominant. *)
Definition appends_dominant {A} (m : M A) : Prop :=
  ∀ s, reports (m s).2 = reports s
       ∨ ∃ r, reports (m s).2 = reports s ++ [r] ∧ dominant_report r.

Lemma appends_ret {A} (a : A) : appends_dominant (mret a).
Proof. intros s. by left. Qed.

Lemma appends_lift {A} (r : result A) : appends_dominant (lift r).
Proof. intros s. by left. Qed.

Lemma appends_bind {A B} (P : A → Prop) (m : M A) (k : A → M B) :
  keeps_reports P m → (∀ a, P a → appends_dominant (k a)) →
  appends_dominant (m ≫= k).
Proof.
  intros Hm Hk s. rewrite run_bind. destruct (Hm s) as [Hr Hv].
  destruct (m s) as [[a|e] s']; simpl in *.
  - rewrite <- Hr. by apply Hk.
  - by left.
Qed.

Lemma appends_report {A} (r : Report) (a : A) :
  dominant_report r →
  appends_dominant (reports_append r ≫= fun _ => mret a).
Proof. intros Hr s. right. by exists r. Qed.

Lemma on_matching_error_appends maintenance report e :
  dominant_report report → appends_dominant (on_matching_error maintenance report e).
Proof.
  intros Hr. destruct e; simpl; try apply appends_lift.
  - apply (appends_bind (fun _ => True)); [apply keeps_summary_add|]. intros _ _.
    by apply appends_report.
  - apply (appends_bind (fun _ => True)); [apply keeps_summary_add|]. intros _ _.
    by apply appends_report.
  - by apply appends_report.
  - destruct maintenance; [|apply appends_lift].
    apply (appends_bind (fun _ => True)); [apply keeps_summary_add|]. intros _ _.
    by apply appends_report.
Qed.

Lemma check_matched_appends env src_project src_package src_srcinfo dst_project
    dst_package dst_srcinfo report myrepos :
  dominant_report report →
  appends_dominant (check_matched env src_project src_package src_srcinfo dst_project
                                  dst_package dst_srcinfo report myrepos).
Proof.
  intros Hr. unfold check_matched.
  apply (appends_bind (fun _ => True)); [apply keeps_call|]. intros _ _.
  destruct (_maintenance_hack _ _ _ _ _)
    as [[[[[originproject originpackage] origin_srcinfo] new_repo_map] warnings]|e].
  - apply (appends_bind overall_recorded).
    + apply keeps_mfoldl; [|reflexivity].
      intros b x Hb. by apply check_repo_keeps.
    + intros loc Hloc.
      apply (appends_bind (fun _ => True)).
      * case_bool_decide; [apply keeps_summary_add | by apply keeps_ret].
      * intros _ _. intros s. right. eexists. split; [reflexivity|]. exact Hloc.
  - by apply on_matching_error_appends.
Qed.

Lemma check_source_submission_appends env src_project src_package src_rev
    dst_project dst_package :
  appends_dominant (check_source_submission env src_project src_package src_rev
                                            dst_project dst_package).
Proof.
  unfold check_source_submission.
  destruct (_ && _); [apply appends_ret|].
  destruct (blacklisted dst_project); [apply appends_ret|].
  apply (appends_bind (fun _ => True)); [apply keeps_call|]. intros _ _.
  match goal with
  | |- appends_dominant (match ?src with _ => _ end) => destruct src as [[[sp spk] rev]|]
  end; [|apply appends_ret].
  apply (appends_bind (fun _ => True)); [apply keeps_call|]. intros _ _.
  apply (appends_bind (fun _ => True)); [apply keeps_call|]. intros _ _.
  destruct (get_sourceinfo env dst_project dst_package None) as [dst_srcinfo|];
    [|by apply appends_report].
  apply (appends_bind (fun _ => True)); [apply keeps_call|]. intros _ _.
  destruct (get_sourceinfo env (Some sp) spk rev) as [src_srcinfo|].
  - apply (appends_bind (fun _ => True)); [apply keeps_call|]. intros _ _.
    apply (appends_bind (fun _ => True)); [apply keeps_call|]. intros _ _.
    destruct (findrepos _ _ _ _ _ _) as [[[|mr myrepos]|]|e].
    + apply (appends_bind (fun _ => True)); [apply keeps_summary_add|]. intros _ _.
      by apply appends_report.
    + by apply check_matched_appends.
    + apply (appends_bind (fun _ => True)); [apply keeps_summary_add|]. intros _ _.
      by apply appends_report.
    + by apply on_matching_error_appends.
  - apply (appends_bind (fun _ => True)); [apply keeps_summary_add|]. intros _ _.
    by apply appends_report.
Qed.

Lemma overall_step_rank (overall outcome : option bool) :
  rank (overall_step overall outcome) = Nat.max (rank overall) (rank outcome).
Proof. by destruct overall as [[|]|], outcome as [[|]|]. Qed.

Lemma overall_fold_rank (outcomes : list (option bool)) (overall : option bool) :
  rank (foldl overall_step overall outcomes)
  = Nat.max (rank overall) (foldr Nat.max 0 (rank <$> outcomes)).
Proof.
  revert overall. induction outcomes as [|o outcomes IH]; intros overall; simpl.
  - by rewrite Nat.max_0_r.
  - by rewrite IH, overall_step_rank, Nat.max_assoc.
Qed.

Lemma rank_inj (v w : option bool) : rank v = rank w → v = w.
Proof. by destruct v as [[|]|], w as [[|]|]. Qed.

(** C3: the result of a report is combined from the outcomes of the
    library pairs, taken in any order, by the dominance rule
    Incompatible > Compatible > Unknown: it is the outcome of highest
    rank. Once it is Incompatible no later outcome changes it; the
    sequence Compatible, Compatible, Incompatible, Compatible gives
    Incompatible. In every run of [check_source_submission], a report
    that is appended carries the result its library results give by that
    rule. *)
Theorem overall_dominance :
  (∀ outcomes : list (option bool),
     rank (foldl overall_step None outcomes) = foldr Nat.max 0 (rank <$> outcomes))
  ∧ (∀ outcomes : list (option bool),
       foldl overall_step (Some false) outcomes = Some false)
  ∧ foldl overall_step None [Some true; Some true; Some false; Some true] = Some false
  ∧ (∀ env src_project src_package src_rev dst_project dst_package self,
       let self' := (check_source_submission env src_project src_package src_rev
                                             dst_project dst_package self).2 in
       reports self' = reports self
       ∨ ∃ r, reports self' = reports self ++ [r]
              ∧ r_result r
                = foldl overall_step None (Some ∘ lr_result <$> r_reports r)).
Proof.
  split; [|split; [|split]].
  - intros outcomes. by rewrite overall_fold_rank.
  - intros outcomes. induction outcomes as [|o outcomes IH]; [reflexivity|].
    destruct o as [[|]|]; exact IH.
  - reflexivity.
  - intros env src_project src_package src_rev dst_project dst_package self self'.
    apply check_source_submission_appends.
Qed.

(** ** Persistence: delete, then insert *)

Lemma next_id_bound (ids : list nat) (x : nat) : x ∈ ids → x < next_id ids.
Proof.
  unfold next_id. induction ids as [|y ids IH]; intros H.
  - by apply elem_of_nil in H.
  - simpl. apply elem_of_cons in H as [-> | H].
    + apply Nat.lt_succ_r, Nat.le_max_l.
    + specialize (IH H). apply Nat.lt_succ_r.
      etrans; [|apply Nat.le_max_r]. by apply Nat.lt_succ_r.
Qed.

Lemma next_id_fresh (ids : list nat) : next_id ids ∉ ids.
Proof. intros H. apply next_id_bound in H. lia. Qed.

Lemma filter_all {A} (P : A → Prop) `{∀ x, Decision (P x)} (l : list A) :
  Forall P l → filter P l = l.
Proof.
  induction 1 as [|x l Hx _ IH]; [done|].
  by rewrite filter_cons_True, IH.
Qed.

Lemma filter_none {A} (P : A → Prop) `{∀ x, Decision (P x)} (l : list A) :
  Forall (fun x => ¬ P x) l → filter P l = [].
Proof.
  induction 1 as [|x l Hx _ IH]; [done|].
  by rewrite filter_cons_False.
Qed.

Lemma filter_filter_implied {A} (P Q : A → Prop)
    `{∀ x, Decision (P x)} `{∀ x, Decision (Q x)} (l : list A) :
  (∀ x, P x → Q x) → filter P (filter Q l) = filter P l.
Proof.
  intros HPQ. induction l as [|x l IH]; [done|].
  destruct (decide (Q x)) as [HQ|HQ].
  - rewrite (filter_cons_True Q) by done.
    destruct (decide (P x)).
    + rewrite !(filter_cons_True P) by done. by rewrite IH.
    + by rewrite !(filter_cons_False P).
  - rewrite (filter_cons_False Q) by done.
    rewrite (filter_cons_False P); [done|]. intros HP. by apply HQ, HPQ.
Qed.

Lemma foldl_fst_indep {A S T} (f : S * T → A → S * T) :
  (∀ s t t' x, (f (s, t) x).1 = (f (s, t') x).1) →
  ∀ l s t t', (foldl f (s, t) l).1 = (foldl f (s, t') l).1.
Proof.
  intros Hf l. induction l as [|x l IH]; intros s t t'; simpl; [done|].
  specialize (Hf s t t' x).
  destruct (f (s, t) x) as [s1 t1], (f (s, t') x) as [s2 t2].
  simpl in Hf. subst s2. apply IH.
Qed.

Section Persist.

Context (web_url : option string) (reqid : nat).

Lemma add_libreports_spec (id : nat) (lrs : list LibResult) (db : DB) (t : string) :
  let r := foldl (add_libreport web_url id) (db, t) lrs in
  requests r.1 = requests db ∧ abichecks r.1 = abichecks db
  ∧ ∃ rows, libreports r.1 = libreports db ++ rows
            ∧ Forall (fun l => lp_submission_id l = id) rows
            ∧ libreport_of <$> rows = lrs.
Proof.
  revert db t. induction lrs as [|lr lrs IH]; intros db t; simpl.
  - split; [done|]. split; [done|]. exists []. by rewrite app_nil_r.
  - match goal with
    | |- context [foldl _ (?db', ?t') lrs] =>
        destruct (IH db' t') as (Hr & Ha & rows & Hl & Hs & Hv)
    end.
    simpl in *. split; [done|]. split; [done|].
    eexists (_ :: rows). rewrite Hl, <- app_assoc. split; [reflexivity|].
    split; [by constructor|]. rewrite fmap_cons, Hv. by destruct lr.
Qed.

Lemma add_report_spec (db : DB) (t : string) (r : Report) :
  let db' := (add_report web_url reqid (db, t) r).1 in
  requests db' = requests db
  ∧ ∃ a rows, abichecks db' = abichecks db ++ [a]
      ∧ libreports db' = libreports db ++ rows
      ∧ ac_id a = next_id (ac_id <$> abichecks db)
      ∧ ac_request_id a = reqid
      ∧ Forall (fun l => lp_submission_id l = ac_id a) rows
      ∧ mkReport (ac_src_project a) (ac_src_package a) (ac_src_rev a)
                 (ac_dst_project a) (ac_dst_package a)
                 (libreport_of <$> rows) (ac_result a)
        = persisted r.
Proof.
  unfold add_report, persisted. destruct (r_result r) as [compatible|] eqn:E.
  - match goal with
    | |- context [foldl (add_libreport _ ?id) (?db', ?t') ?lrs] =>
        destruct (add_libreports_spec id lrs db' t') as (Hr & Ha & rows & Hl & Hs & Hv)
    end.
    simpl in *. split; [done|]. do 2 eexists. split; [exact Ha|].
    split; [exact Hl|]. simpl. split; [done|]. split; [done|].
    split; [done|]. by rewrite Hv.
  - simpl. split; [done|]. eexists _, []. split; [reflexivity|].
    rewrite app_nil_r. split; [done|]. simpl. by repeat split.
Qed.

Lemma add_report_text_indep (db : DB) (t t' : string) (r : Report) :
  (add_report web_url reqid (db, t) r).1 = (add_report web_url reqid (db, t') r).1.
Proof.
  unfold add_report. destruct (r_result r); [|done].
  apply foldl_fst_indep. by intros.
Qed.

(** Referential integrity of [libreport]. *)
Definition fk (db : DB) : Prop :=
  ∀ l, l ∈ libreports db → lp_submission_id l ∈ (ac_id <$> abichecks db).

(** [db1] is [D] with rows added for the request: new [abicheck] rows of
    the request with fresh keys, and [libreport] rows that point to them. *)
Definition grown (D db1 : DB) : Prop :=
  requests db1 = requests D
  ∧ ∃ new rows,
      abichecks db1 = abichecks D ++ new
      ∧ libreports db1 = libreports D ++ rows
      ∧ Forall (fun a => ac_request_id a = reqid
                         ∧ ac_id a ∉ (ac_id <$> abichecks D)) new
      ∧ Forall (fun l => lp_submission_id l ∈ (ac_id <$> new)) rows.

Lemma grown_refl (D : DB) : grown D D.
Proof. split; [done|]. exists [], []. by rewrite !app_nil_r. Qed.

Lemma grown_add_report (D db : DB) (t : string) (r : Report) :
  grown D db → grown D (add_report web_url reqid (db, t) r).1.
Proof.
  intros (Hr & new & rows & Ha & Hl & Hnew & Hrows).
  destruct (add_report_spec db t r)
    as (Hr' & a & rows' & Ha' & Hl' & Hid & Hreq & Hsub & _).
  split; [congruence|]. exists (new ++ [a]), (rows ++ rows').
  rewrite Ha', Hl', Ha, Hl, <- !app_assoc. split; [done|]. split; [done|]. split.
  - apply Forall_app. split; [done|]. apply Forall_singleton. split; [done|].
    rewrite Hid, Ha, fmap_app. intros Hin.
    eapply next_id_fresh. rewrite elem_of_app. left. exact Hin.
  - apply Forall_app. split.
    + eapply Forall_impl; [exact Hrows|]. intros l Hin. simpl in Hin.
      rewrite fmap_app, elem_of_app. by left.
    + eapply Forall_impl; [exact Hsub|]. intros l ->.
      rewrite fmap_app, elem_of_app. right. simpl. apply list_elem_of_here.
Qed.

Lemma grown_fold (D : DB) (rs : list Report) (db : DB) (t : string) :
  grown D db → grown D (foldl (add_report web_url reqid) (db, t) rs).1.
Proof.
  revert db t. induction rs as [|r rs IH]; intros db t Hg; cbn [foldl]; [done|].
  pose proof (grown_add_report D db t r Hg) as Hg'.
  destruct (add_report web_url reqid (db, t) r) as [db' t']. by apply IH.
Qed.

Lemma delete_grown (D db1 : DB) :
  grown D db1 →
  Forall (fun a => ac_request_id a ≠ reqid) (abichecks D) →
  fk D →
  delete_abichecks reqid db1 = mkDB (requests D) (abichecks D) (libreports D).
Proof.
  intros (Hr & new & rows & Ha & Hl & Hnew & Hrows) Hother Hfk.
  unfold delete_abichecks. rewrite Hr, Ha, Hl, !filter_app, fmap_app.
  rewrite (filter_all _ (abichecks D)) by done.
  rewrite (filter_none (fun a => ac_request_id a ≠ reqid) new); cycle 1.
  { eapply Forall_impl; [exact Hnew|]. intros a [Hq _] Hne. done. }
  rewrite (filter_none (fun a => ac_request_id a = reqid) (abichecks D)) by done.
  rewrite (filter_all (fun a => ac_request_id a = reqid) new); cycle 1.
  { eapply Forall_impl; [exact Hnew|]. by intros a [Hq _]. }
  simpl. rewrite app_nil_r.
  rewrite (filter_all _ (libreports D)); cycle 1.
  { apply Forall_forall. intros l Hin Hdoomed.
    apply list_elem_of_fmap in Hdoomed as (a & Hid & Ha').
    rewrite Forall_forall in Hnew. destruct (Hnew a Ha') as [_ Hfresh].
    apply Hfresh. rewrite <- Hid. by apply Hfk. }
  rewrite (filter_none _ rows); cycle 1.
  { eapply Forall_impl; [exact Hrows|]. intros l Hin Hn. done. }
  by rewrite app_nil_r.
Qed.

End Persist.

Lemma report_of_ext (db db' : DB) (a : ABICheckRow) :
  libreports db = libreports db' → report_of db a = report_of db' a.
Proof. unfold report_of. by intros ->. Qed.

Lemma ac_id_inj (l : list ABICheckRow) (a b : ABICheckRow) :
  NoDup (ac_id <$> l) → a ∈ l → b ∈ l → ac_id a = ac_id b → a = b.
Proof.
  induction l as [|x l IH]; intros Hnd Ha Hb Hid.
  - by apply elem_of_nil in Ha.
  - rewrite fmap_cons in Hnd. apply NoDup_cons in Hnd as [Hx Hnd].
    apply elem_of_cons in Ha as [-> | Ha]; apply elem_of_cons in Hb as [-> | Hb].
    + done.
    + exfalso. apply Hx. rewrite Hid. by apply list_elem_of_fmap_2.
    + exfalso. apply Hx. rewrite <- Hid. by apply list_elem_of_fmap_2.
    + by apply IH.
Qed.

Section Stored.

Context (web_url : option string) (reqid : nat).

Lemma stored_add_report (db : DB) (t : string) (r : Report) :
  fk db →
  let db' := (add_report web_url reqid (db, t) r).1 in
  stored_reports db' reqid = stored_reports db reqid ++ [persisted r]
  ∧ (∀ other, other ≠ reqid → stored_reports db' other = stored_reports db other)
  ∧ fk db'.
Proof.
  intros Hfk db'.
  destruct (add_report_spec web_url reqid db t r)
    as (Hr & a & rows & Ha & Hl & Hid & Hreq & Hsub & Hpers).
  fold db' in Hr, Ha, Hl.
  assert (Hfresh : ac_id a ∉ ac_id <$> abichecks db).
  { rewrite Hid. apply next_id_fresh. }
  assert (Hold : ∀ q, report_of db' <$> filter (fun a => ac_request_id a = q) (abichecks db)
                      = report_of db <$> filter (fun a => ac_request_id a = q) (abichecks db)).
  { intros q. apply list_fmap_ext. intros i b Hb.
    apply list_elem_of_lookup_2, list_elem_of_filter in Hb as [_ Hb].
    unfold report_of. rewrite Hl, filter_app.
    rewrite (filter_none _ rows); [by rewrite app_nil_r|].
    eapply Forall_impl; [exact Hsub|]. intros l Hl' Hl''. simpl in *.
    apply Hfresh. rewrite <- Hl', Hl''. by apply list_elem_of_fmap_2. }
  assert (Hnew : report_of db' a = persisted r).
  { rewrite <- Hpers. unfold report_of. rewrite Hl, filter_app.
    rewrite (filter_none _ (libreports db)).
    - rewrite (filter_all _ rows) by done. done.
    - apply Forall_forall. intros l Hin Hl'. apply Hfresh. rewrite <- Hl'.
      by apply Hfk. }
  split; [|split].
  - unfold stored_reports. rewrite Ha, filter_app, fmap_app, Hold.
    rewrite filter_cons_True by done. rewrite filter_nil. simpl. by rewrite Hnew.
  - intros other Hne. unfold stored_reports. rewrite Ha, filter_app, fmap_app, Hold.
    rewrite filter_cons_False by congruence. rewrite filter_nil. simpl.
    by rewrite app_nil_r.
  - intros l. rewrite Hl, Ha, fmap_app, !elem_of_app. intros [Hin | Hin].
    + left. by apply Hfk.
    + right. rewrite Forall_forall in Hsub. rewrite (Hsub l Hin). simpl.
      apply list_elem_of_here.
Qed.

Lemma stored_fold (rs : list Report) (db : DB) (t : string) :
  fk db →
  let db' := (foldl (add_report web_url reqid) (db, t) rs).1 in
  stored_reports db' reqid = stored_reports db reqid ++ (persisted <$> rs)
  ∧ (∀ other, other ≠ reqid → stored_reports db' other = stored_reports db other).
Proof.
  revert db t. induction rs as [|r rs IH]; intros db t Hfk; cbn [foldl].
  - simpl. by rewrite app_nil_r.
  - destruct (stored_add_report db t r Hfk) as (Hme & Hothers & Hfk').
    destruct (add_report web_url reqid (db, t) r) as [db1 t1].
    simpl in Hme, Hothers, Hfk'.
    destruct (IH db1 t1 Hfk') as [IHme IHothers]. split.
    + rewrite IHme, Hme, fmap_cons, <- app_assoc. done.
    + intros other Hne. by rewrite IHothers, Hothers.
Qed.

Context (state : string) (result : option string).

Lemma upsert_request_props (db : DB) :
  db_ok db →
  let D := upsert_request reqid state result db in
  requests D = <[reqid := mkRequestRow state result]> (requests db)
  ∧ Forall (fun a => ac_request_id a ≠ reqid) (abichecks D)
  ∧ fk D
  ∧ (∀ other, other ≠ reqid → stored_reports D other = stored_reports db other).
Proof.
  intros (Hnd & Hreq & Hfk). unfold upsert_request.
  destruct (requests db !! reqid) as [row|] eqn:E; simpl.
  - split; [done|]. split; [|split].
    + apply Forall_forall. intros a Ha. by apply list_elem_of_filter in Ha as [? _].
    + intros l Hl. simpl in *. apply list_elem_of_filter in Hl as [Hkeep Hl].
      specialize (Hfk l Hl). apply list_elem_of_fmap in Hfk as (a & Hid & Ha).
      apply list_elem_of_fmap. exists a. split; [done|].
      apply list_elem_of_filter. split; [|done]. intros Hq. apply Hkeep.
      rewrite Hid. apply list_elem_of_fmap_2. by apply list_elem_of_filter.
    + intros other Hne. unfold stored_reports. simpl.
      rewrite filter_filter_implied by (intros a ->; done).
      apply list_fmap_ext. intros i a Ha.
      apply list_elem_of_lookup_2, list_elem_of_filter in Ha as [Hq Ha].
      unfold report_of. simpl. f_equal. f_equal.
      apply filter_filter_implied. intros l Hsub Hdoomed.
      apply list_elem_of_fmap in Hdoomed as (b & Hid & Hb).
      apply list_elem_of_filter in Hb as [Hbq Hb].
      assert (a = b) by (apply (ac_id_inj (abichecks db)); congruence).
      subst b. congruence.
  - split; [done|]. split; [|split].
    + apply Forall_forall. intros a Ha Hq. specialize (Hreq a Ha).
      rewrite Hq, E in Hreq. by destruct Hreq.
    + exact Hfk.
    + done.
Qed.

End Stored.

Lemma DB_eta (d : DB) : mkDB (requests d) (abichecks d) (libreports d) = d.
Proof. by destruct d. Qed.

Lemma save_reports_to_db_db web_url reqid state result self db :
  (save_reports_to_db web_url reqid state result self db).2
  = (foldl (add_report web_url reqid)
           (upsert_request reqid state result db, text_summary self)
           (reports self)).1.
Proof. unfold save_reports_to_db. by destruct (foldl _ _ _). Qed.

Lemma save_reports_to_db_clears web_url reqid state result self db :
  reports (save_reports_to_db web_url reqid state result self db).1 = [].
Proof. unfold save_reports_to_db. by destruct (foldl _ _ _). Qed.

(** C8: on a database with referential integrity, persisting the reports
    of a request stores exactly these reports (each with its library
    results) as the sub-reports of the request, leaves the sub-reports of
    every other request as they were, and persisting the same reports for
    the request once more gives the same database: the rows stored for
    the request before are deleted, with their nested rows, and the
    current ones are inserted. *)
Theorem save_reports_to_db_idempotent (web_url : option string) (reqid : nat)
    (state : string) (result : option string) (self self' : Checker) (db : DB) :
  db_ok db →
  reports self' = reports self →
  let once := (save_reports_to_db web_url reqid state result self db).2 in
  let twice := (save_reports_to_db web_url reqid state result self' once).2 in
  twice = once
  ∧ stored_reports once reqid = persisted <$> reports self
  ∧ (∀ other, other ≠ reqid → stored_reports once other = stored_reports db other)
  ∧ requests once = <[reqid := mkRequestRow state result]> (requests db).
Proof.
  intros Hok Hsame once twice.
  destruct (upsert_request_props reqid state result db Hok)
    as (Hreq & Hnone & Hfk & Hothers).
  set (D := upsert_request reqid state result db) in *.
  assert (Honce : once = (foldl (add_report web_url reqid) (D, text_summary self)
                                (reports self)).1)
    by apply save_reports_to_db_db.
  assert (Hgrown : grown reqid D once).
  { rewrite Honce. apply grown_fold, grown_refl. }
  destruct (stored_fold web_url reqid (reports self) D (text_summary self) Hfk)
    as [Hme Hrest].
  rewrite <- Honce in Hme, Hrest.
  assert (Hagain : upsert_request reqid state result once = D).
  { unfold upsert_request. destruct Hgrown as [Hr Hg].
    rewrite Hr, Hreq, lookup_insert_eq.
    rewrite (delete_grown reqid D once) by (done || by split).
    simpl. by rewrite Hreq, insert_insert_eq, <- Hreq, DB_eta. }
  split; [|split; [|split]].
  - unfold twice. rewrite save_reports_to_db_db, Hagain, Hsame, Honce.
    apply foldl_fst_indep. intros. apply add_report_text_indep.
  - rewrite Hme. unfold stored_reports at 1.
    rewrite (filter_none _ (abichecks D)); [done|].
    eapply Forall_impl; [exact Hnone|]. intros a Hne Heq. done.
  - intros other Hne. by rewrite Hrest, Hothers.
  - destruct Hgrown as [Hr _]. by rewrite Hr.
Qed.

(** A database that holds one finished request with one sub-report, and
    the reports of a second run for that request. *)
Definition stored_db : DB := {|
  requests := {[ 1001%nat := mkRequestRow "seen" None ]};
  abichecks := [ mkABICheckRow 1 1001 "home:user" "libfoo" (Some "3")
                               (Some "openSUSE:Leap:15.0") "libfoo" (Some true) ];
  libreports := [ mkLibReportRow 1 1 "openSUSE_Leap_15.0" "libfoo.so.1" "standard"
                                 "libfoo.so.1" "x86_64" "report-1.html" true ]
|}.

Definition second_run : Checker := {|
  reports := [ mkReport "home:user" "libfoo" (Some "4") (Some "openSUSE:Leap:15.0")
                        "libfoo"
                        [ mkLibResult "openSUSE_Leap_15.0" "libfoo.so.1" "standard"
                                      "libfoo.so.1" "x86_64" "report-2.html" false ]
                        (Some false) ];
  text_summary := "";
  calls := []
|}.

Lemma save_reports_to_db_idempotent_witness :
  let once := (save_reports_to_db (Some "https://abi.example.org") 1001 "done"
                                  (Some "accepted") second_run stored_db).2 in
  (save_reports_to_db (Some "https://abi.example.org") 1001 "done"
                      (Some "accepted") second_run once).2
  = once.
Proof.
  refine (proj1 (save_reports_to_db_idempotent (Some "https://abi.example.org") 1001
                   "done" (Some "accepted") second_run second_run stored_db _ _)).
  - split; [|split].
    + apply NoDup_singleton.
    + intros a Ha. apply list_elem_of_singleton in Ha as ->. vm_compute.
      eexists. reflexivity.
    + intros l Hl. apply list_elem_of_singleton in Hl as ->.
      apply list_elem_of_here.
  - reflexivity.
Defined.

(** ** Archive parser *)

Lemma CpioFile_init_raises (off : Z) (buf : string) :
  ∃ e, cpio.CpioFile_init off buf = Raise e.
Proof.
  unfold cpio.CpioFile_init. case_bool_decide; [by eexists|].
  unfold cpio.unpack_header. case_bool_decide; [|by eexists].
  simpl. by eexists.
Qed.

(** C6 (code as written): for a [bytes] buffer the constructor of
    [CpioFile] raises at every offset, because the magic it unpacked is
    [bytes] and is compared with a [str]; so [next] never returns a file.
    A [for] loop over a [Cpio] object fails before that, because the
    class defines [next] and not [__next__]. For the archive made of the
    file [a] with content [hello] and the trailer entry, no file is
    produced either way. *)
Theorem cpio_yields_no_file :
  (∀ (off : Z) (buf : string), ∃ e, cpio.CpioFile_init off buf = Raise e)
  ∧ (∀ (c : cpio.Cpio), ∃ e, cpio.next c = Raise e)
  ∧ cpio.next (cpio.Cpio_init (cpio.archive "a" "hello"))
    = Raise (PyError "AttributeError")
  ∧ cpio.for_each (cpio.Cpio_init (cpio.archive "a" "hello"))
    = Raise (PyError "TypeError").
Proof.
  split; [|split; [|split]].
  - apply CpioFile_init_raises.
  - intros c. unfold cpio.next.
    destruct (CpioFile_init_raises (cpio.cpio_off c) (cpio.cpio_buf c)) as [e He].
    rewrite He. by exists e.
  - vm_compute. reflexivity.
  - vm_compute. reflexivity.
Qed.

(** ** A whole submission

    The destination has [libfoo.so.1], the submission has [libfoo.so.2];
    both carry the alias [libfoo.so]. The compare tool exits with [code]. *)
Definition soname_bump_env (code : Z) : Env := {|
  has_staging := fun _ => false;
  staging_project := None;
  get_sourceinfo := fun _ _ _ => Some libfoo_srcinfo;
  repo_queries := mkRepoEnv
    (Some {[ ("standard", "x86_64") ]})
    (Some [ mkRepository "openSUSE_Leap_15.0"
                         [mkPath "openSUSE:Leap:15.0" "standard"] ["x86_64"] ])
    [ mkBuildResult (Some "libfoo") "openSUSE_Leap_15.0" "x86_64" false "succeeded" ]
    (Some {[ ("openSUSE_Leap_15.0", "x86_64") ]});
  maint_queries := mkMaintEnv None None [] (None, None) (fun _ _ => None)
                              (mkRepoEnv None None [] None);
  extract := fun prj _ _ _ _ =>
    if bool_decide (prj = Some "home:user")
    then Return (Some ({[ "/usr/lib64/libfoo.so.2" := {[ "libfoo.so" ]} ]},
                       {[ "/usr/lib64/libfoo.so.2" :=
                            "/usr/lib/debug/usr/lib64/libfoo.so.2.debug" ]}))
    else Return (Some ({[ "/usr/lib64/libfoo.so.1" := {[ "libfoo.so" ]} ]},
                       {[ "/usr/lib64/libfoo.so.1" :=
                            "/usr/lib/debug/usr/lib64/libfoo.so.1.debug" ]}));
  so_re_match := fun _ => Some "foo";
  now_hex := fun _ _ _ => "6543f000";
  abi_dumper_exit := fun _ _ _ _ _ _ => 0%Z;
  abi_checker_exit := fun _ _ => code
|}.

(** With exit status 1 the report holds one library result, the pair
    [libfoo.so.1] / [libfoo.so.2] marked incompatible, and its result is
    [False]; the review itself is still accepted. *)
Example soname_bump_incompatible :
  let run := check_source_submission (soname_bump_env 1) "home:user" "libfoo"
               (Some "4") (Some "openSUSE:Leap:15.0") "libfoo" (mkChecker [] "" []) in
  run.1 = Return (Some true)
  ∧ ((fun r => (r_result r,
                (fun lr => (lr_src_lib lr, lr_dst_lib lr, lr_result lr)) <$> r_reports r))
       <$> reports run.2)
    = [ (Some false, [ ("libfoo.so.1", "libfoo.so.2", false) ]) ].
Proof. split; vm_compute; reflexivity. Qed.

(** * Further components of the pipeline *)

(** ** RepoMatcher: the matching loops and the outcome of [findrepos] *)

(** The project and the repository a [<path>] element stands for:
    [openSUSE:Tumbleweed] is read as [openSUSE:Factory], and the
    repository [snapshot] of [openSUSE:Factory] as [standard]. *)
Definition resolved_project (p : Path) : string :=
  if bool_decide (path_project p = "openSUSE:Tumbleweed")
  then "openSUSE:Factory" else path_project p.

Definition resolved_repository (p : Path) : string :=
  if bool_decide (resolved_project p = "openSUSE:Factory")
     && bool_decide (path_repository p = "snapshot")
  then "standard" else path_repository p.

(** A state of the matching loops in which the local variable [arch] is
    bound whenever a triple has been added. *)
Definition arch_bound (st : match_state) : Prop := st.1 ≠ [] → is_Some st.2.

Section Matching.

Context (dst_project : option string) (dstrepos : gset (string * string)).

Lemma match_archs_spec (name dstname : string) (archs : list string) (st : match_state) :
  let step := fun '(m, _) a =>
    if bool_decide ((dstname, a) ∈ dstrepos)
    then (set_add (mkMR name dstname a) m, Some a)
    else (m, Some a) in
  let r := foldl step st archs in
  (∀ mr, mr ∈ r.1 ↔ mr ∈ st.1 ∨ ∃ a, a ∈ archs ∧ (dstname, a) ∈ dstrepos
                                   ∧ mr = mkMR name dstname a)
  ∧ (NoDup st.1 → NoDup r.1)
  ∧ (arch_bound st → arch_bound r).
Proof.
  intros step. revert st. induction archs as [|a archs IH]; intros [m l]; simpl.
  - split; [|done]. intros mr. split; [by left|].
    intros [H | (a & Ha & _)]; [done | by apply elem_of_nil in Ha].
  - case_bool_decide as Hin.
    + destruct (IH (set_add (mkMR name dstname a) m, Some a)) as (Hel & Hnd & Hb).
      simpl in *. split; [|split].
      * intros mr. rewrite Hel, set_add_elem. split.
        -- intros [[-> | H] | (a' & Ha' & Hd & ->)].
           ++ right. exists a. split; [left | done].
           ++ by left.
           ++ right. exists a'. split; [by right | done].
        -- intros [H | (a' & Ha' & Hd & ->)]; [left; by right|].
           apply elem_of_cons in Ha' as [-> | Ha']; [left; by left|].
           right. by exists a'.
      * intros H. by apply Hnd, set_add_NoDup.
      * intros _. apply Hb. intros _. by eexists.
    + destruct (IH (m, Some a)) as (Hel & Hnd & Hb). simpl in *.
      split; [|split].
      * intros mr. rewrite Hel. split.
        -- intros [H | (a' & Ha' & Hd & ->)]; [by left|].
           right. exists a'. split; [by right | done].
        -- intros [H | (a' & Ha' & Hd & ->)]; [by left|].
           apply elem_of_cons in Ha' as [-> | Ha']; [done|].
           right. by exists a'.
      * done.
      * intros _. apply Hb. intros _. by eexists.
Qed.

(** The triples one [<repository>] element contributes. *)
Definition contributes (repo : Repository) (mr : MR) : Prop :=
  ∃ p, repo_paths repo = [p]
       ∧ Some (resolved_project p) = dst_project
       ∧ srcrepo mr = repo_name repo
       ∧ dstrepo mr = resolved_repository p
       ∧ arch mr ∈ repo_archs repo
       ∧ (dstrepo mr, arch mr) ∈ dstrepos.

Lemma match_repo_spec (repo : Repository) (st : match_state) :
  let r := match_repo dst_project dstrepos st repo in
  (∀ mr, mr ∈ r.1 ↔ mr ∈ st.1 ∨ contributes repo mr)
  ∧ (NoDup st.1 → NoDup r.1)
  ∧ (arch_bound st → arch_bound r).
Proof.
  unfold match_repo, contributes.
  destruct (repo_paths repo) as [|p [|p' ps]] eqn:Hp.
  - split; [|done]. intros mr. split; [by left|]. by intros [H | (p & ? & _)].
  - fold (resolved_project p). case_bool_decide as Hprj.
    + split; [|done]. intros mr. split; [by left|].
      intros [H | (q & [= <-] & Hq & _)]; [done|]. by destruct Hprj.
    + destruct (match_archs_spec (repo_name repo) (resolved_repository p)
                                 (repo_archs repo) st) as (Hel & Hnd & Hb).
      unfold resolved_repository in *.
      split; [|split]; [|exact Hnd|exact Hb].
      intros mr. rewrite Hel. split.
      * intros [H | (a & Ha & Hd & ->)]; [by left|]. right. by exists p.
      * intros [H | (q & [= <-] & _ & Hs & Hd & Ha & Hin)]; [by left|].
        right. exists (arch mr). split; [done|]. rewrite <- Hd. split; [done|].
        destruct mr; simpl in *. by subst.
  - split; [|done]. intros mr. split; [by left|]. by intros [H | (p0 & ? & _)].
Qed.

Lemma match_repos_spec (root : list Repository) (st : match_state) :
  let r := foldl (match_repo dst_project dstrepos) st root in
  (∀ mr, mr ∈ r.1 ↔ mr ∈ st.1 ∨ ∃ repo, repo ∈ root ∧ contributes repo mr)
  ∧ (NoDup st.1 → NoDup r.1)
  ∧ (arch_bound st → arch_bound r).
Proof.
  revert st. induction root as [|repo root IH]; intros st; cbn [foldl].
  - split; [|done]. intros mr. split; [by left|].
    intros [H | (repo & Hin & _)]; [done | by apply elem_of_nil in Hin].
  - destruct (match_repo_spec repo st) as (Hel & Hnd & Hb).
    destruct (IH (match_repo dst_project dstrepos st repo)) as (Hel' & Hnd' & Hb').
    split; [|split]; [|by auto|by auto].
    intros mr. rewrite Hel', Hel. split.
    + intros [[H | H] | (repo' & Hin & Hc)]; [by left | |].
      * right. exists repo. split; [left | done].
      * right. exists repo'. split; [by right | done].
    + intros [H | (repo' & Hin & Hc)]; [left; by left|].
      apply elem_of_cons in Hin as [-> | Hin]; [left; by right|].
      right. by exists repo'.
Qed.

End Matching.

(** X1: without staging, a triple is matched exactly when some repository
    of the source project has one path, that path resolves to the
    destination project (Tumbleweed read as Factory), the triple has the
    repository's name, one of its architectures and the resolved
    destination repository (Factory's snapshot read as standard), and the
    destination offers that repository for that architecture. The matched
    set has no duplicates. *)
Theorem matched_repos_characterised (dst_project : option string)
    (dstrepos : gset (string * string)) (root : list Repository) (mr : MR) :
  let matched := (foldl (match_repo dst_project dstrepos) ([], None) root).1 in
  (mr ∈ matched ↔ ∃ repo, repo ∈ root ∧ contributes dst_project dstrepos repo mr)
  ∧ NoDup matched.
Proof.
  intros matched.
  destruct (match_repos_spec dst_project dstrepos root ([], None)) as (Hel & Hnd & _).
  split; [|apply Hnd, NoDup_nil; exact I].
  unfold matched. rewrite Hel. split; [|by right].
  intros [H | H]; [by apply elem_of_nil in H | done].
Qed.

Lemma settle_one_cases (src_project pkg : string)
    (rmap : gmap (string * string) BuildResult) (mr : MR) :
  settle_one src_project pkg rmap mr = None
  ∨ settle_one src_project pkg rmap mr = Some (SourceBroken src_project pkg)
  ∨ ∃ reason, settle_one src_project pkg rmap mr
              = Some (NotReadyYet src_project pkg reason).
Proof.
  unfold settle_one. destruct (rmap !! _) as [res|]; [|right; right; by eexists].
  destruct (res_dirty res); [right; right; by eexists|].
  case_bool_decide; [right; by left|].
  case_bool_decide; [by left | right; right; by eexists].
Qed.

Lemma ensure_settled_outcome (results : list BuildResult)
    (src_project : string) (src_srcinfo : SourceInfo) (matchrepos : list MR) :
  (ensure_settled results src_project src_srcinfo matchrepos = Return tt
   ↔ Forall (passes results src_srcinfo) matchrepos)
  ∧ (∀ e, ensure_settled results src_project src_srcinfo matchrepos = Raise e →
          e = SourceBroken src_project (package src_srcinfo)
          ∨ ∃ reason, e = NotReadyYet src_project (package src_srcinfo) reason).
Proof.
  unfold ensure_settled.
  induction matchrepos as [|mr rest [IHret IHraise]]; simpl.
  - split; [|done]. split; [by constructor | done].
  - pose proof (settle_one_passes results src_project src_srcinfo mr) as Hpass.
    destruct (settle_one_cases src_project (package src_srcinfo)
                (build_rmap (package src_srcinfo) results) mr)
      as [H | [H | [reason H]]]; rewrite H in *.
    + split; [|exact IHraise]. rewrite IHret. split.
      * intros Hrest. constructor; [by apply Hpass | done].
      * intros Hall. by apply Forall_cons in Hall as [_ ?].
    + split.
      * split; [done|]. intros Hall. apply Forall_cons in Hall as [Hmr _].
        by apply Hpass in Hmr.
      * intros e [= <-]. by left.
    + split.
      * split; [done|]. intros Hall. apply Forall_cons in Hall as [Hmr _].
        by apply Hpass in Hmr.
      * intros e [= <-]. right. by exists reason.
Qed.

(** X2: [ensure_settled] returns without raising exactly when every
    matched triple has a build result that is not dirty and whose code is
    [succeeded], [locked] or [excluded]; the only exceptions it raises
    are [SourceBroken] and [NotReadyYet] for the source package. *)
Theorem ensure_settled_returns_iff (results : list BuildResult)
    (src_project : string) (src_srcinfo : SourceInfo) (matchrepos : list MR) :
  (ensure_settled results src_project src_srcinfo matchrepos = Return tt
   ↔ Forall (passes results src_srcinfo) matchrepos)
  ∧ (∀ e, ensure_settled results src_project src_srcinfo matchrepos = Raise e →
          e = SourceBroken src_project (package src_srcinfo)
          ∨ ∃ reason, e = NotReadyYet src_project (package src_srcinfo) reason).
Proof. apply ensure_settled_outcome. Qed.


Section Findrepos.

Context (staging : option string) (env : RepoEnv) (src_project : string)
        (src_srcinfo : SourceInfo) (dst_project : option string)
        (dst_srcinfo : SourceInfo).



Local Opaque check_buildsuccess.



Local Transparent check_buildsuccess.

End Findrepos.




(** ** RepoMatcher: the repositories of the destination *)

(** A value of the allow and deny tables: a tuple of names, or one [str]
    (the entry of [REPO_WHITELIST] for [SUSE:SLE-12:Update] has no
    trailing comma). *)
Inductive pycontainer : Type :=
| PyTuple (names : list string)
| PyString (s : string).

(** [x in s] for two [str]: [x] occurs in [s]. *)
Fixpoint is_substring (x s : string) : bool :=
  String.prefix x s
  || match s with
     | EmptyString => false
     | String _ rest => is_substring x rest
     end.

(** [x in c] *)
Definition py_in (x : string) (c : pycontainer) : bool :=
  match c with
  | PyTuple names => bool_decide (x ∈ names)
  | PyString s => is_substring x s
  end.

Definition REPO_WHITELIST : gmap string pycontainer :=
  list_to_map [ ("openSUSE:Factory", PyTuple ["standard"; "snapshot"]);
                ("SUSE:SLE-12:Update", PyString "standard") ].

Definition ARCH_BLACKLIST : gmap string pycontainer := ∅.

Definition ARCH_WHITELIST : gmap string pycontainer :=
  list_to_map [ ("SUSE:SLE-12:Update",
                 PyTuple ["i586"; "ppc64le"; "s390"; "s390x"; "x86_64"]) ].

(** [project in table and x not in table[project]] *)
Definition not_whitelisted (table : gmap string pycontainer)
    (project : option string) (x : string) : bool :=
  match project ≫= (table !!.) with
  | Some c => negb (py_in x c)
  | None => false
  end.

(** [project in table and x in table[project]] *)
Definition blacklisted_in (table : gmap string pycontainer)
    (project : option string) (x : string) : bool :=
  match project ≫= (table !!.) with
  | Some c => py_in x c
  | None => false
  end.

(** [get_dstrepos(self, project)]; [meta] is the project's [_meta]
    document, [None] when fetching it fails. *)
Definition get_dstrepos (meta : option (list Repository)) (project : option string)
  : option (gset (string * string)) :=
  match meta with
  | None => None
  | Some root =>
      Some (foldl (fun repos repo =>
                     if not_whitelisted REPO_WHITELIST project (repo_name repo)
                     then repos
                     else foldl (fun repos a =>
                                   if not_whitelisted ARCH_WHITELIST project a then repos
                                   else if blacklisted_in ARCH_BLACKLIST project a
                                        then repos
                                   else {[ (repo_name repo, a) ]} ∪ repos)
                                repos (repo_archs repo))
                  ∅ root)
  end.

Lemma dstrepos_archs_spec (keep : string → bool) (name : string)
    (archs : list string) (repos : gset (string * string)) (k : string * string) :
  k ∈ foldl (fun repos a => if keep a then {[ (name, a) ]} ∪ repos else repos)
            repos archs
  ↔ k ∈ repos ∨ ∃ a, a ∈ archs ∧ keep a = true ∧ k = (name, a).
Proof.
  revert repos. induction archs as [|a archs IH]; intros repos; simpl.
  - split; [by left|]. intros [H | (a & Ha & _)]; [done | by apply elem_of_nil in Ha].
  - rewrite IH. destruct (keep a) eqn:Hk.
    + rewrite elem_of_union, elem_of_singleton. split.
      * intros [[-> | H] | (a' & Ha' & Hk' & ->)].
        -- right. exists a. split; [left | done].
        -- by left.
        -- right. exists a'. split; [by right | done].
      * intros [H | (a' & Ha' & Hk' & ->)]; [left; by right|].
        apply elem_of_cons in Ha' as [-> | Ha']; [left; by left|].
        right. by exists a'.
    + split.
      * intros [H | (a' & Ha' & Hk' & ->)]; [by left|].
        right. exists a'. split; [by right | done].
      * intros [H | (a' & Ha' & Hk' & ->)]; [by left|].
        apply elem_of_cons in Ha' as [-> | Ha']; [congruence|].
        right. by exists a'.
Qed.

Lemma dstrepos_spec (skip : string → bool) (keep : string → bool)
    (root : list Repository) (repos : gset (string * string)) (k : string * string) :
  k ∈ foldl (fun repos repo =>
               if skip (repo_name repo) then repos
               else foldl (fun repos a =>
                             if keep a then {[ (repo_name repo, a) ]} ∪ repos else repos)
                          repos (repo_archs repo))
            repos root
  ↔ k ∈ repos ∨ ∃ repo a, repo ∈ root ∧ a ∈ repo_archs repo
                          ∧ skip (repo_name repo) = false ∧ keep a = true
                          ∧ k = (repo_name repo, a).
Proof.
  revert repos. induction root as [|repo root IH]; intros repos; cbn [foldl].
  - split; [by left|].
    intros [H | (repo & a & Hin & _)]; [done | by apply elem_of_nil in Hin].
  - rewrite IH. destruct (skip (repo_name repo)) eqn:Hs.
    + split.
      * intros [H | (r & a & Hin & Ha & Hs' & Hk & ->)]; [by left|].
        right. exists r, a. split; [by right | done].
      * intros [H | (r & a & Hin & Ha & Hs' & Hk & ->)]; [by left|].
        apply elem_of_cons in Hin as [-> | Hin]; [congruence|].
        right. by exists r, a.
    + rewrite dstrepos_archs_spec. split.
      * intros [[H | (a & Ha & Hk & ->)] | (r & a & Hin & Ha & Hs' & Hk & ->)].
        -- by left.
        -- right. exists repo, a. split; [left | done].
        -- right. exists r, a. split; [by right | done].
      * intros [H | (r & a & Hin & Ha & Hs' & Hk & ->)]; [left; by left|].
        apply elem_of_cons in Hin as [-> | Hin].
        -- left. right. by exists a.
        -- right. by exists r, a.
Qed.

Lemma foldl_fun_ext {A B} (f g : B → A → B) (l : list A) (b : B) :
  (∀ b x, f b x = g b x) → foldl f b l = foldl g b l.
Proof.
  intros Hfg. revert b. induction l as [|x l IH]; intros b; simpl; [done|].
  by rewrite Hfg, IH.
Qed.

Lemma repo_whitelist_cases (project : option string) (n : string) :
  not_whitelisted REPO_WHITELIST project n = false
  ↔ (project = Some "openSUSE:Factory" → n = "standard" ∨ n = "snapshot")
    ∧ (project = Some "SUSE:SLE-12:Update" → is_substring n "standard" = true).
Proof.
  unfold not_whitelisted. destruct project as [p|]; simpl; [|by split].
  destruct (decide (p = "openSUSE:Factory")) as [-> | HF];
    [|destruct (decide (p = "SUSE:SLE-12:Update")) as [-> | HS]].
  - change (REPO_WHITELIST !! "openSUSE:Factory")
      with (Some (PyTuple ["standard"; "snapshot"])).
    simpl. rewrite negb_false_iff, bool_decide_eq_true.
    rewrite elem_of_cons, list_elem_of_singleton. split.
    + intros H. split; [done | discriminate].
    + intros [H _]. by apply H.
  - change (REPO_WHITELIST !! "SUSE:SLE-12:Update") with (Some (PyString "standard")).
    simpl. rewrite negb_false_iff. split.
    + intros H. split; [discriminate | done].
    + intros [_ H]. by apply H.
  - unfold REPO_WHITELIST. simpl.
    rewrite !lookup_insert_ne, lookup_empty by done.
    split; [|done]. intros _. split; intros [= ->]; done.
Qed.

Lemma arch_whitelist_cases (project : option string) (a : string) :
  not_whitelisted ARCH_WHITELIST project a = false
  ↔ (project = Some "SUSE:SLE-12:Update" →
     a ∈ ["i586"; "ppc64le"; "s390"; "s390x"; "x86_64"]).
Proof.
  unfold not_whitelisted. destruct project as [p|]; simpl; [|by split].
  destruct (decide (p = "SUSE:SLE-12:Update")) as [-> | HS].
  - change (ARCH_WHITELIST !! "SUSE:SLE-12:Update")
      with (Some (PyTuple ["i586"; "ppc64le"; "s390"; "s390x"; "x86_64"])).
    simpl. rewrite negb_false_iff, bool_decide_eq_true. split; [done|].
    intros H. by apply H.
  - unfold ARCH_WHITELIST. simpl.
    rewrite lookup_insert_ne, lookup_empty by done.
    split; [|done]. intros _ [= ->]. done.
Qed.

(** X5: [get_dstrepos] returns [None] when the project's meta document
    cannot be fetched; otherwise it returns the declared (repository,
    architecture) pairs, restricted for [openSUSE:Factory] to the
    repositories [standard] and [snapshot], and for [SUSE:SLE-12:Update]
    to five architectures and to the repositories whose name occurs in
    the text [standard] (the table entry is a string, so the test is a
    substring test). No architecture is ever denied. *)
Theorem get_dstrepos_allowed (root : list Repository) (project : option string)
    (n a : string) :
  get_dstrepos None project = None
  ∧ ∃ repos, get_dstrepos (Some root) project = Some repos
      ∧ ((n, a) ∈ repos ↔
           (∃ repo, repo ∈ root ∧ repo_name repo = n ∧ a ∈ repo_archs repo)
           ∧ (project = Some "openSUSE:Factory" → n = "standard" ∨ n = "snapshot")
           ∧ (project = Some "SUSE:SLE-12:Update" →
              is_substring n "standard" = true
              ∧ a ∈ ["i586"; "ppc64le"; "s390"; "s390x"; "x86_64"])).
Proof.
  split; [done|]. eexists. split; [reflexivity|].
  rewrite (foldl_fun_ext _
    (fun repos repo =>
       if not_whitelisted REPO_WHITELIST project (repo_name repo) then repos
       else foldl (fun repos a =>
                     if negb (not_whitelisted ARCH_WHITELIST project a)
                     then {[ (repo_name repo, a) ]} ∪ repos else repos)
                  repos (repo_archs repo))); cycle 1.
  { intros repos repo. destruct (not_whitelisted REPO_WHITELIST _ _); [done|].
    apply foldl_fun_ext. intros repos' a'.
    destruct (not_whitelisted ARCH_WHITELIST _ _); simpl; [done|].
    unfold blacklisted_in, ARCH_BLACKLIST. destruct project; simpl; [|done].
    by rewrite lookup_empty. }
  rewrite (dstrepos_spec (not_whitelisted REPO_WHITELIST project)
             (fun a => negb (not_whitelisted ARCH_WHITELIST project a))).
  split.
  - intros [H | (repo & a' & Hin & Ha & Hs & Hk & [= -> ->])]; [done|].
    apply repo_whitelist_cases in Hs as [HF HS].
    apply negb_true_iff in Hk.
    pose proof (proj1 (arch_whitelist_cases _ _) Hk) as Hk'.
    split; [by exists repo|]. split; [done|]. intros Hp.
    split; [by apply HS | by apply Hk'].
  - intros ((repo & Hin & <- & Ha) & HF & HS). right. exists repo, a.
    split; [done|]. split; [done|]. split; [|split; [|done]].
    + apply repo_whitelist_cases. split; [done|]. intros Hp. by apply HS.
    + apply negb_true_iff, arch_whitelist_cases. intros Hp. by apply HS.
Qed.

(** ** LibraryPairer: which pairs and which warnings *)

(** [a] is an alias of the library [l] in the index [idx]. *)
Definition indexed (idx : gmap string (gset string)) (a l : string) : Prop :=
  ∃ ls, idx !! a = Some ls ∧ l ∈ ls.

(** [a] is an alias of the library [l] in the library map [libs]. *)
Definition alias_of (libs : gmap string (gset string)) (a l : string) : Prop :=
  ∃ aliases, libs !! l = Some aliases ∧ a ∈ aliases.

Lemma index_aliases_spec (lib : string) (aliases : gset string)
    (idx : gmap string (gset string)) (a l : string) :
  indexed (set_fold (fun a idx => <[a := default ∅ (idx !! a) ∪ {[lib]}]> idx)
                    idx aliases) a l
  ↔ indexed idx a l ∨ (a ∈ aliases ∧ l = lib).
Proof.
  revert a l.
  apply (set_fold_ind_L
           (fun r (X : gset string) =>
              ∀ a l, indexed r a l ↔ indexed idx a l ∨ (a ∈ X ∧ l = lib))).
  - intros a l. split; [by left|]. intros [H | [H _]]; [done|].
    by apply elem_of_empty in H.
  - intros x X r Hx IH a l. unfold indexed at 1.
    destruct (decide (x = a)) as [-> | Hne].
    + rewrite lookup_insert_eq. split.
      * intros (ls & [= <-] & Hl). apply elem_of_union in Hl as [Hl | Hl].
        -- assert (Hr : indexed r a l).
           { destruct (r !! a) as [ls|] eqn:E; simpl in Hl.
             - by exists ls.
             - by apply elem_of_empty in Hl. }
           apply IH in Hr as [Hr | [Hr ->]]; [by left|].
           right. split; [|done]. apply elem_of_union. by right.
        -- apply elem_of_singleton in Hl as ->. right. split; [|done].
           apply elem_of_union. left. by apply elem_of_singleton.
      * intros H. eexists. split; [reflexivity|]. apply elem_of_union.
        assert (Hcase : indexed r a l ∨ l = lib).
        { destruct H as [H | [H ->]]; [left; apply IH; by left|].
          apply elem_of_union in H as [H | H]; [by right|].
          left. apply IH. right. by split. }
        destruct Hcase as [(ls & E & Hl) | ->].
        -- left. by rewrite E.
        -- right. by apply elem_of_singleton.
    + rewrite lookup_insert_ne by done. fold (indexed r a l). rewrite IH. split.
      * intros [H | [H ->]]; [by left|]. right. split; [|done].
        apply elem_of_union. by right.
      * intros [H | [H ->]]; [by left|].
        apply elem_of_union in H as [H | H]; [|right; by split].
        apply elem_of_singleton in H. by subst.
Qed.

Lemma src_alias_index_spec (src_libs : gmap string (gset string)) (a l : string) :
  indexed (src_alias_index src_libs) a l ↔ alias_of src_libs a l.
Proof.
  unfold src_alias_index. revert a l.
  apply (map_fold_weak_ind
           (fun r (m : gmap string (gset string)) =>
              ∀ a l, indexed r a l ↔ alias_of m a l)).
  - intros a l. split.
    + intros (ls & H & _). by rewrite lookup_empty in H.
    + intros (aliases & H & _). by rewrite lookup_empty in H.
  - intros lib aliases m r Hfresh IH a l. rewrite index_aliases_spec, IH.
    unfold alias_of. split.
    + intros [(al & Hl & Ha) | [Ha ->]].
      * exists al. split; [|done]. rewrite lookup_insert_ne; [done|].
        intros ->. by rewrite Hfresh in Hl.
      * exists aliases. by rewrite lookup_insert_eq.
    + intros (al & Hl & Ha). destruct (decide (lib = l)) as [-> | Hne].
      * rewrite lookup_insert_eq in Hl. injection Hl as <-. by right.
      * rewrite lookup_insert_ne in Hl by done. left. by exists al.
Qed.

Lemma pair_with_spec (lib : string) (ls : gset string)
    (pairs : gset (string * string)) (found : bool) :
  let r := set_fold (fun l '(pairs, _) => ({[(lib, l)]} ∪ pairs, true))
                    (pairs, found) ls in
  (∀ q, q ∈ r.1 ↔ q ∈ pairs ∨ ∃ l, l ∈ ls ∧ q = (lib, l))
  ∧ (r.2 = true ↔ found = true ∨ ∃ l, l ∈ ls).
Proof.
  apply (set_fold_ind_L
           (fun (r : gset (string * string) * bool) (X : gset string) =>
              (∀ q, q ∈ r.1 ↔ q ∈ pairs ∨ ∃ l, l ∈ X ∧ q = (lib, l))
              ∧ (r.2 = true ↔ found = true ∨ ∃ l, l ∈ X))).
  - simpl. split.
    + intros q. split; [by left|]. intros [H | (l & H & _)]; [done|].
      by apply elem_of_empty in H.
    + split; [by left|]. intros [H | (l & H)]; [done|]. by apply elem_of_empty in H.
  - intros x X [p f] Hx [IHp IHf]. simpl in *. split.
    + intros q. rewrite elem_of_union, elem_of_singleton, IHp. split.
      * intros [-> | [H | (l & Hl & ->)]].
        -- right. exists x. split; [|done]. apply elem_of_union. left.
           by apply elem_of_singleton.
        -- by left.
        -- right. exists l. split; [|done]. apply elem_of_union. by right.
      * intros [H | (l & Hl & ->)]; [right; by left|].
        apply elem_of_union in Hl as [Hl | Hl].
        -- apply elem_of_singleton in Hl as ->. by left.
        -- right. right. by exists l.
    + split; [|done]. intros _. right. exists x. apply elem_of_union. left.
      by apply elem_of_singleton.
Qed.

Lemma pair_aliases_spec (idx : gmap string (gset string)) (lib : string)
    (aliases : gset string) (pairs : gset (string * string)) :
  let r := pair_aliases idx lib aliases pairs in
  (∀ q, q ∈ r.1 ↔ q ∈ pairs ∨ ∃ a l, a ∈ aliases ∧ indexed idx a l ∧ q = (lib, l))
  ∧ (r.2 = true ↔ ∃ a l, a ∈ aliases ∧ indexed idx a l).
Proof.
  unfold pair_aliases.
  apply (set_fold_ind_L
           (fun (r : gset (string * string) * bool) (X : gset string) =>
              (∀ q, q ∈ r.1 ↔ q ∈ pairs ∨ ∃ a l, a ∈ X ∧ indexed idx a l
                                                ∧ q = (lib, l))
              ∧ (r.2 = true ↔ ∃ a l, a ∈ X ∧ indexed idx a l))).
  - simpl. split.
    + intros q. split; [by left|]. intros [H | (a & l & H & _)]; [done|].
      by apply elem_of_empty in H.
    + split; [done|]. intros (a & l & H & _). by apply elem_of_empty in H.
  - intros x X [p f] Hx [IHp IHf]. simpl in IHp, IHf.
    destruct (idx !! x) as [ls|] eqn:E.
    + destruct (pair_with_spec lib ls p f) as [Hp Hf]. split.
      * intros q. rewrite Hp, IHp. split.
        -- intros [[H | (a & l & Ha & Hi & ->)] | (l & Hl & ->)].
           ++ by left.
           ++ right. exists a, l. split; [|done]. apply elem_of_union. by right.
           ++ right. exists x, l. split; [|split; [by exists ls | done]].
              apply elem_of_union. left. by apply elem_of_singleton.
        -- intros [H | (a & l & Ha & Hi & ->)]; [left; by left|].
           apply elem_of_union in Ha as [Ha | Ha].
           ++ apply elem_of_singleton in Ha as ->.
              destruct Hi as (ls' & E' & Hl). rewrite E in E'. injection E' as <-.
              right. by exists l.
           ++ left. right. by exists a, l.
      * rewrite Hf, IHf. split.
        -- intros [(a & l & Ha & Hi) | (l & Hl)].
           ++ exists a, l. split; [|done]. apply elem_of_union. by right.
           ++ exists x, l. split; [|by exists ls].
              apply elem_of_union. left. by apply elem_of_singleton.
        -- intros (a & l & Ha & Hi). apply elem_of_union in Ha as [Ha | Ha].
           ++ apply elem_of_singleton in Ha as ->.
              destruct Hi as (ls' & E' & Hl). rewrite E in E'. injection E' as <-.
              right. by exists l.
           ++ left. by exists a, l.
    + simpl. split.
      * intros q. rewrite IHp. split.
        -- intros [H | (a & l & Ha & Hi & ->)]; [by left|].
           right. exists a, l. split; [|done]. apply elem_of_union. by right.
        -- intros [H | (a & l & Ha & Hi & ->)]; [by left|].
           apply elem_of_union in Ha as [Ha | Ha].
           ++ apply elem_of_singleton in Ha as ->.
              destruct Hi as (ls' & E' & _). by rewrite E in E'.
           ++ right. by exists a, l.
      * rewrite IHf. split.
        -- intros (a & l & Ha & Hi). exists a, l. split; [|done].
           apply elem_of_union. by right.
        -- intros (a & l & Ha & Hi). apply elem_of_union in Ha as [Ha | Ha].
           ++ apply elem_of_singleton in Ha as ->.
              destruct Hi as (ls' & E' & _). by rewrite E in E'.
           ++ by exists a, l.
Qed.

Section Pairer.

Context (src_libs : gmap string (gset string)).

(** The destination library with aliases [aliases] and the source
    library [s] have an alias in common. *)
Definition shares_alias (aliases : gset string) (s : string) : Prop :=
  ∃ a, a ∈ aliases ∧ alias_of src_libs a s.

(** The pair [(d, s)] is due for the destination libraries [m]: [d] is in
    the source under the same path and [s] is [d], or [d] is not in the
    source and shares an alias with [s]. *)
Definition paired (m : gmap string (gset string)) (d s : string) : Prop :=
  ∃ aliases, m !! d = Some aliases
             ∧ ((d = s ∧ is_Some (src_libs !! d))
                ∨ (src_libs !! d = None ∧ shares_alias aliases s)).

(** The destination library [lib] has no counterpart in the source. *)
Definition unmatched (m : gmap string (gset string)) (lib : string) : Prop :=
  ∃ aliases, m !! lib = Some aliases ∧ src_libs !! lib = None
             ∧ ¬ ∃ s, shares_alias aliases s.

Definition no_longer_packaged (lib : string) : string :=
  "*Warning*: " +:+ lib +:+ " no longer packaged" +:+ nl +:+ nl.

(** X6: the library pairer yields the pair [(d, s)] exactly when [d] is a
    destination library and either [s] is [d] and the source has a
    library of that path, or the source has no library of that path and
    some alias of [d] is an alias of the source library [s]; it warns
    "no longer packaged" once for each destination library that is not in
    the source and shares no alias with any source library, and for no
    other. *)
Theorem pair_libs_spec (dst_libs : gmap string (gset string)) :
  let r := pair_libs dst_libs src_libs in
  (∀ d s, (d, s) ∈ r.1 ↔ paired dst_libs d s)
  ∧ ∃ libs, r.2 = no_longer_packaged <$> libs
            ∧ NoDup libs
            ∧ ∀ lib, lib ∈ libs ↔ unmatched dst_libs lib.
Proof.
  unfold pair_libs.
  apply (map_fold_weak_ind
           (fun (r : gset (string * string) * list string)
                (m : gmap string (gset string)) =>
              (∀ d s, (d, s) ∈ r.1 ↔ paired m d s)
              ∧ ∃ libs, r.2 = no_longer_packaged <$> libs ∧ NoDup libs
                        ∧ ∀ lib, lib ∈ libs ↔ unmatched m lib)).
  - simpl. split.
    + intros d s. split; [intros H; by apply elem_of_empty in H|].
      intros (al & H & _). by rewrite lookup_empty in H.
    + exists []. split; [done|]. split; [apply NoDup_nil; exact I|].
      intros lib. split; [intros H; by apply elem_of_nil in H|].
      intros (al & H & _). by rewrite lookup_empty in H.
  - intros lib aliases m [pairs warnings] Hfresh [IHp (libs & IHw & IHnd & IHl)].
    simpl in IHp, IHw.
    assert (Hpaired : ∀ d s, paired (<[lib:=aliases]> m) d s
                       ↔ paired m d s
                         ∨ (d = lib ∧ ((d = s ∧ is_Some (src_libs !! d))
                                       ∨ (src_libs !! d = None
                                          ∧ shares_alias aliases s)))).
    { intros d s. unfold paired. split.
      - intros (al & Hl & H). destruct (decide (lib = d)) as [-> | Hne].
        + rewrite lookup_insert_eq in Hl. injection Hl as <-. by right.
        + rewrite lookup_insert_ne in Hl by done. left. by exists al.
      - intros [(al & Hl & H) | [-> H]].
        + exists al. split; [|done]. rewrite lookup_insert_ne; [done|].
          intros ->. by rewrite Hfresh in Hl.
        + exists aliases. by rewrite lookup_insert_eq. }
    assert (Hunmatched : ∀ l, unmatched (<[lib:=aliases]> m) l
                         ↔ unmatched m l
                           ∨ (l = lib ∧ src_libs !! lib = None
                              ∧ ¬ ∃ s, shares_alias aliases s)).
    { intros l. unfold unmatched. split.
      - intros (al & Hl & H). destruct (decide (lib = l)) as [-> | Hne].
        + rewrite lookup_insert_eq in Hl. injection Hl as <-. by right.
        + rewrite lookup_insert_ne in Hl by done. left. by exists al.
      - intros [(al & Hl & H) | (-> & H)].
        + exists al. split; [|done]. rewrite lookup_insert_ne; [done|].
          intros ->. by rewrite Hfresh in Hl.
        + exists aliases. by rewrite lookup_insert_eq. }
    assert (Hnotin : lib ∉ libs).
    { intros Hin. apply IHl in Hin as (al & Hl & _). by rewrite Hfresh in Hl. }
    case_bool_decide as Hsrc.
    + simpl. split.
      * intros d s. rewrite elem_of_union, elem_of_singleton, IHp, Hpaired. split.
        -- intros [[= -> ->] | H]; [|by left]. right. split; [done|]. by left.
        -- intros [H | [-> [[<- _] | [Hn _]]]]; [by right | by left |].
           rewrite Hn in Hsrc. by destruct Hsrc.
      * exists libs. split; [done|]. split; [done|].
        intros l. rewrite IHl, Hunmatched. split; [by left|].
        intros [H | (-> & Hn & _)]; [done|]. rewrite Hn in Hsrc. by destruct Hsrc.
    + assert (Hnone : src_libs !! lib = None).
      { destruct (src_libs !! lib) eqn:E; [|done]. destruct Hsrc. by eexists. }
      destruct (pair_aliases_spec (src_alias_index src_libs) lib aliases pairs)
        as [Hp Hf].
      assert (Hshare : ∀ s, shares_alias aliases s
                       ↔ ∃ a, a ∈ aliases ∧ indexed (src_alias_index src_libs) a s).
      { intros s. unfold shares_alias. by setoid_rewrite src_alias_index_spec. }
      destruct (pair_aliases _ lib aliases pairs) as [pairs' found].
      simpl in Hp, Hf.
      assert (Hpairs : ∀ d s, (d, s) ∈ pairs' ↔ paired (<[lib:=aliases]> m) d s).
      { intros d s. rewrite Hp, IHp, Hpaired. split.
        - intros [H | (a & l & Ha & Hi & [= -> ->])]; [by left|].
          right. split; [done|]. right. split; [done|]. apply Hshare. by exists a.
        - intros [H | [-> [[<- Hs] | [_ Hs]]]]; [by left | by destruct Hsrc |].
          apply Hshare in Hs as (a & Ha & Hi). right. by exists a, s. }
      destruct found; simpl.
      * split; [exact Hpairs|]. exists libs. split; [done|]. split; [done|].
        intros l. rewrite IHl, Hunmatched. split; [by left|].
        intros [H | (-> & _ & Hno)]; [done|]. exfalso. apply Hno.
        destruct (proj1 Hf eq_refl) as (a & s & Ha & Hi).
        exists s. apply Hshare. by exists a.
      * split; [exact Hpairs|]. exists (libs ++ [lib]).
        rewrite fmap_app, IHw. split; [done|]. split.
        -- apply NoDup_app. split; [done|]. split; [|apply NoDup_singleton].
           intros l Hl Hl'. apply list_elem_of_singleton in Hl'. by subst.
        -- intros l. rewrite elem_of_app, list_elem_of_singleton, IHl, Hunmatched.
           split.
           ++ intros [H | ->]; [by left|]. right. split; [done|]. split; [done|].
              intros (s & Hs). apply Hshare in Hs as (a & Ha & Hi).
              assert (false = true) by (apply Hf; by exists a, s). done.
           ++ intros [H | (-> & _)]; [by left | by right].
Qed.

End Pairer.

(** ** ReviewStateMachine: how the returned verdict moves *)

(** The verdict only moves down from accept over check-again to decline. *)
Definition verdict_le (loc loc' : Locals) : Prop :=
  (ret loc = Some false → ret loc' = Some false)
  ∧ (ret loc' = Some true → ret loc = Some true).

Lemma verdict_le_refl (loc : Locals) : verdict_le loc loc.
Proof. by split. Qed.

Lemma verdict_le_trans (a b c : Locals) :
  verdict_le a b → verdict_le b c → verdict_le a c.
Proof. intros [H1 H2] [H3 H4]. split; auto. Qed.

Lemma need_recheck_le (r : option bool) :
  (r = Some false → need_recheck r = Some false)
  ∧ (need_recheck r = Some true → r = Some true).
Proof. by destruct r as [[|]|]. Qed.

Section Verdict.

Context (env : Env) (src_project src_package : string) (src_srcinfo : SourceInfo)
        (dst_project : option string) (dst_package : string)
        (dst_srcinfo : SourceInfo).

(** What a step keeps, given what it started from: the verdict has not
    moved up, and it is not decline unless it was or debug information
    was found missing. *)
Definition step_ok (complete : Prop) (loc loc' : Locals) : Prop :=
  verdict_le loc loc'
  ∧ (complete → ret loc ≠ Some false → ret loc' ≠ Some false).

Lemma step_ok_refl complete loc : step_ok complete loc loc.
Proof. split; [apply verdict_le_refl | done]. Qed.

Lemma step_ok_trans complete a b c :
  step_ok complete a b → step_ok complete b c → step_ok complete a c.
Proof.
  intros [H1 H2] [H3 H4]. split; [by eapply verdict_le_trans|]. auto.
Qed.

Lemma step_ok_recheck complete loc :
  step_ok complete loc (mkLocals (need_recheck (ret loc)) (overall loc)
                                 (libresults loc) (missing_debuginfo loc)).
Proof.
  split; [split; simpl; apply need_recheck_le|].
  intros _. simpl. by destruct (ret loc) as [[|]|].
Qed.

Lemma diff_pair_verdict complete mr dst_libdebug src_libdebug loc0 loc pair :
  step_ok complete loc0 loc →
  keeps_reports (step_ok complete loc0)
    (diff_pair env src_project src_package dst_project dst_package mr
               dst_libdebug src_libdebug loc pair).
Proof.
  intros Hinv. destruct pair as [old new]. unfold diff_pair.
  apply (keeps_bind (fun _ => True)).
  - destruct (so_re_match env old) as [libname|]; [|by apply keeps_ret].
    unfold getitem. destruct (dst_libdebug !! old) as [olddebug|].
    + apply (keeps_bind (fun _ => True)); [by apply keeps_ret|]. intros ? _.
      apply (keeps_bind (fun _ => True)); [apply keeps_call|]. intros _ _.
      destruct (run_abi_dumper _); [|by apply keeps_ret].
      destruct (src_libdebug !! new) as [newdebug|].
      * apply (keeps_bind (fun _ => True)); [by apply keeps_ret|]. intros ? _.
        apply (keeps_bind (fun _ => True)); [apply keeps_call|]. intros _ _.
        destruct (run_abi_dumper _); by apply keeps_ret.
      * apply (keeps_bind (fun _ => False)); [by apply keeps_lift|]. by intros.
    + apply (keeps_bind (fun _ => False)); [by apply keeps_lift|]. by intros.
  - intros [libname|] _.
    + apply (keeps_bind (fun _ => True)); [apply keeps_call|]. intros _ _.
      destruct (run_abi_checker _) as [r|]; apply keeps_ret; [|done].
      eapply step_ok_trans; [exact Hinv|]. by split.
    + apply (keeps_bind (fun _ => True)); [apply keeps_summary_add|]. intros _ _.
      apply keeps_ret. eapply step_ok_trans; [exact Hinv|]. apply step_ok_recheck.
Qed.

(** No call of [extract] reports missing debug information. *)
Definition debuginfo_complete : Prop :=
  ∀ project pkg srcinfo repo a msg,
    extract env project pkg srcinfo repo a ≠ Raise (MissingDebugInfo msg).

Lemma on_extract_error_verdict loc0 loc e project pkg srcinfo repo a :
  extract env project pkg srcinfo repo a = Raise e →
  step_ok debuginfo_complete loc0 loc →
  keeps_reports (step_ok debuginfo_complete loc0) (lift (on_extract_error loc e)).
Proof.
  intros He Hinv. apply keeps_lift. destruct e; simpl; try done.
  - eapply step_ok_trans; [exact Hinv|]. apply step_ok_recheck.
  - eapply step_ok_trans; [exact Hinv|]. split; [by split|].
    intros Hc. exfalso. by eapply Hc.
  - eapply step_ok_trans; [exact Hinv|]. apply step_ok_recheck.
Qed.

Lemma check_repo_verdict loc0 loc mr :
  step_ok debuginfo_complete loc0 loc →
  keeps_reports (step_ok debuginfo_complete loc0)
    (check_repo env src_project src_package src_srcinfo dst_project dst_package
                dst_srcinfo loc mr).
Proof.
  intros Hinv. unfold check_repo.
  apply (keeps_bind (fun _ => True)); [apply keeps_call|]. intros _ _.
  destruct (extract env dst_project _ _ _ _) as [[[dst_libs dst_libdebug]|]|e] eqn:Ed.
  - apply (keeps_bind (fun _ => True)); [apply keeps_call|]. intros _ _.
    destruct (extract env (Some src_project) _ _ _ _)
      as [[[src_libs src_libdebug]|]|e] eqn:Es.
    + destruct (pair_libs dst_libs src_libs) as [pairs warnings].
      apply (keeps_bind (fun _ => True)); [apply keeps_summary_add|]. intros _ _.
      apply keeps_mfoldl; [|done]. intros b x Hb. by apply diff_pair_verdict.
    + apply (keeps_bind (fun _ => True)).
      * case_bool_decide; [apply keeps_summary_add | by apply keeps_ret].
      * intros _ _. by apply keeps_ret.
    + by eapply on_extract_error_verdict.
  - by apply keeps_ret.
  - by eapply on_extract_error_verdict.
Qed.

(** X7: over the loop on the matched triples the verdict [ret] only moves
    down: once it is [False] (decline) it stays [False], and it is [True]
    (accept) at the end only if it was [True] at the start. *)
Theorem verdict_only_moves_down (loc loc' : Locals) (myrepos : list MR)
    (self self' : Checker) :
  mfoldl (check_repo env src_project src_package src_srcinfo dst_project
                     dst_package dst_srcinfo) loc myrepos self
  = (Return loc', self') →
  (ret loc = Some false → ret loc' = Some false)
  ∧ (ret loc' = Some true → ret loc = Some true).
Proof.
  intros Hrun.
  pose proof (keeps_mfoldl (step_ok debuginfo_complete loc) _ myrepos loc
                (fun b x Hb => check_repo_verdict loc b x Hb)
                (step_ok_refl _ loc) self) as [_ H].
  rewrite Hrun in H. simpl in H. by destruct H as [[H1 H2] _].
Qed.

(** X8: when no extraction reports missing debug information, the loop on
    the matched triples never turns the verdict into [False]: failed
    fetches, failed tools and incompatible libraries do not decline the
    review. *)
Theorem incompatibility_never_declines (loc loc' : Locals) (myrepos : list MR)
    (self self' : Checker) :
  debuginfo_complete →
  mfoldl (check_repo env src_project src_package src_srcinfo dst_project
                     dst_package dst_srcinfo) loc myrepos self
  = (Return loc', self') →
  ret loc ≠ Some false →
  ret loc' ≠ Some false.
Proof.
  intros Hc Hrun.
  pose proof (keeps_mfoldl (step_ok debuginfo_complete loc) _ myrepos loc
                (fun b x Hb => check_repo_verdict loc b x Hb)
                (step_ok_refl _ loc) self) as [_ H].
  rewrite Hrun in H. simpl in H. destruct H as [_ H]. by apply H.
Qed.

End Verdict.

Lemma verdict_only_moves_down_witness :
  ∃ loc' self',
    mfoldl (check_repo offline_env "home:user" "libfoo" libfoo_srcinfo
                       (Some "openSUSE:Leap:15.0") "libfoo" libfoo_srcinfo)
           (mkLocals (Some false) None [] []) [mr_x86_64; mr_i586] (mkChecker [] "" [])
    = (Return loc', self')
    ∧ ret loc' = Some false.
Proof.
  eexists _, _. split; [vm_compute; reflexivity|].
  refine (proj1 (verdict_only_moves_down offline_env "home:user" "libfoo"
                   libfoo_srcinfo (Some "openSUSE:Leap:15.0") "libfoo" libfoo_srcinfo
                   (mkLocals (Some false) None [] []) _ [mr_x86_64; mr_i586]
                   (mkChecker [] "" []) _ _) _).
  - vm_compute. reflexivity.
  - reflexivity.
Defined.

Lemma incompatibility_never_declines_witness :
  ∃ loc' self',
    mfoldl (check_repo (soname_bump_env 1) "home:user" "libfoo" libfoo_srcinfo
                       (Some "openSUSE:Leap:15.0") "libfoo" libfoo_srcinfo)
           (mkLocals (Some true) None [] [])
           [mkMR "openSUSE_Leap_15.0" "standard" "x86_64"] (mkChecker [] "" [])
    = (Return loc', self')
    ∧ overall loc' = Some false
    ∧ ret loc' ≠ Some false.
Proof.
  eexists _, _. split; [vm_compute; reflexivity|]. split; [reflexivity|].
  refine (incompatibility_never_declines (soname_bump_env 1) "home:user" "libfoo"
            libfoo_srcinfo (Some "openSUSE:Leap:15.0") "libfoo" libfoo_srcinfo
            (mkLocals (Some true) None [] []) _
            [mkMR "openSUSE_Leap_15.0" "standard" "x86_64"]
            (mkChecker [] "" []) _ _ _ _).
  - intros project pkg srcinfo repo a msg. unfold soname_bump_env. simpl.
    case_bool_decide; discriminate.
  - vm_compute. reflexivity.
  - discriminate.
Defined.

(** ** MaintenanceResolver: the link of an incident *)

Lemma digit_is_no_dot (c : ascii) : is_digit c = true → c ≠ "."%char.
Proof. intros H ->. discriminate H. Qed.

Lemma after_last_dot_digits (n : string) :
  all_digits n = true → after_last_dot n = None.
Proof.
  induction n as [|c n IH]; simpl; [done|].
  intros H. apply andb_true_iff in H as [Hc Hn]. rewrite (IH Hn).
  rewrite bool_decide_eq_false_2; [done|]. by apply digit_is_no_dot.
Qed.

Lemma string_app_nil (s : string) : "" +:+ s = s.
Proof. reflexivity. Qed.

Lemma string_app_cons (c : ascii) (s t : string) :
  String c s +:+ t = String c (s +:+ t).
Proof. reflexivity. Qed.

Lemma after_last_dot_app (name n : string) :
  after_last_dot n = None → after_last_dot (name +:+ "." +:+ n) = Some n.
Proof.
  intros Hn. induction name as [|c name IH].
  - rewrite string_app_nil, string_app_cons, string_app_nil. simpl. by rewrite Hn.
  - rewrite string_app_cons. simpl. by rewrite IH.
Qed.

Lemma after_last_dot_split (s t : string) :
  after_last_dot s = Some t → ∃ name, s = name +:+ "." +:+ t.
Proof.
  revert t. induction s as [|c s IH]; simpl; intros t; [done|].
  destruct (after_last_dot s) as [t'|].
  - intros [= <-]. destruct (IH t' eq_refl) as [name ->].
    by exists (String c name).
  - case_bool_decide as Hc; [|done]. intros [= <-]. subst c. by exists "".
Qed.

(** X9: the link target of a maintained package is accepted as an incident
    link exactly when it has the form [<name>.<number>] with a non-empty
    decimal number, and the incident is that number. *)
Theorem incident_of_spec (linkpkg incident : string) :
  incident_of linkpkg = Some incident
  ↔ all_digits incident = true ∧ incident ≠ ""
    ∧ ∃ name, linkpkg = name +:+ "." +:+ incident.
Proof.
  unfold incident_of. split.
  - destruct (after_last_dot linkpkg) as [t|] eqn:E; [|done].
    destruct (all_digits t) eqn:Hd; simpl; [|done].
    case_bool_decide as Ht; simpl; [done|]. intros [= <-].
    split; [done|]. split; [done|]. by apply after_last_dot_split.
  - intros (Hd & Hne & name & ->).
    rewrite after_last_dot_app by by apply after_last_dot_digits.
    rewrite Hd. simpl. by rewrite bool_decide_eq_false_2.
Qed.

Section MaintenanceLink.

Context (staging : option string) (env : MaintEnv) (dst : string)
        (dst_srcinfo : SourceInfo) (myrepos : list MR) (mproject linkpkg : string).

Hypothesis Hmaintained : mh_maintenance_project env = Some mproject.
Hypothesis Hreleased : mh_originproject env = None.
Hypothesis Hlink : mh_linktarget env = (Some dst, Some linkpkg).

(** X10: for a maintained destination whose package links, inside the
    destination project, to [linkpkg]: a link that does not end in a
    number, or an origin package that does not exist, raises
    [MaintenanceError]. *)
Theorem maintenance_link_errors :
  incident_of linkpkg = None
  ∨ (∃ incident, incident_of linkpkg = Some incident
       ∧ mh_origin_srcinfo env (mproject +:+ ":" +:+ incident)
                           (package dst_srcinfo +:+ "." +:+ replace_colon dst)
         = None) →
  ∃ msg, _maintenance_hack staging env (Some dst) dst_srcinfo myrepos
         = Raise (MaintenanceError msg).
Proof.
  unfold _maintenance_hack. rewrite Hmaintained, Hreleased, Hlink.
  rewrite bool_decide_eq_true_2 by done.
  intros [Hbad | (incident & Hi & Hnone)].
  - rewrite Hbad. by eexists.
  - rewrite Hi, Hnone. by eexists.
Qed.

End MaintenanceLink.

(** A maintained destination whose package links to a name without
    incident number. *)
Definition broken_link_env : MaintEnv :=
  mkMaintEnv (Some "openSUSE:Maintenance") None []
             (Some "openSUSE:Leap:15.0:Update", Some "libfoo")
             (fun _ _ => None) (mkRepoEnv None None [] None).

Lemma maintenance_link_errors_witness :
  ∃ msg, _maintenance_hack None broken_link_env (Some "openSUSE:Leap:15.0:Update")
                           libfoo_srcinfo request_repos
         = Raise (MaintenanceError msg).
Proof.
  apply (maintenance_link_errors None broken_link_env "openSUSE:Leap:15.0:Update"
           libfoo_srcinfo request_repos "openSUSE:Maintenance" "libfoo").
  - reflexivity.
  - reflexivity.
  - reflexivity.
  - left. reflexivity.
Defined.

(** X11: whenever [_maintenance_hack] returns without an origin package (no
    maintenance project, an unreleased channel, or a package that is no
    link inside the destination), it hands back the source info and the
    matched triples it was given, and warns about nothing. *)
Theorem maintenance_hack_passthrough (staging : option string) (env : MaintEnv)
    (dst_project : option string) (dst_srcinfo : SourceInfo) (myrepos : list MR)
    (originproject : option string) (srcinfo : SourceInfo) (repos : list MR)
    (warnings : list string) :
  _maintenance_hack staging env dst_project dst_srcinfo myrepos
  = Return (originproject, None, srcinfo, repos, warnings) →
  srcinfo = dst_srcinfo ∧ repos = myrepos ∧ warnings = [].
Proof.
  unfold _maintenance_hack.
  destruct (mh_maintenance_project env) as [mproject|]; [|by intros [= <- <- <- <-]].
  destruct (mh_originproject env) as [op|]; [by intros [= <- <- <- <-]|].
  destruct (mh_linktarget env) as [linkprj [linkpkg|]]; [|by intros [= <- <- <- <-]].
  case_bool_decide; [|by intros [= <- <- <- <-]].
  destruct (incident_of linkpkg); [|done].
  destruct dst_project as [dst|]; [|done].
  destruct (mh_origin_srcinfo env _ _); [|done].
  destruct (findrepos _ _ _ _ _ _) as [[originrepos|]|e]; simpl; [|done|done].
  destruct (remap_repos _ _ _ _). done.
Qed.

Lemma maintenance_hack_passthrough_witness :
  libfoo_srcinfo = libfoo_srcinfo ∧ request_repos = request_repos
  ∧ ([] : list string) = [].
Proof.
  apply (maintenance_hack_passthrough None
           (mkMaintEnv None None [] (None, None) (fun _ _ => None)
                       (mkRepoEnv None None [] None))
           (Some "openSUSE:Leap:15.0") libfoo_srcinfo request_repos None
           libfoo_srcinfo request_repos []).
  reflexivity.
Defined.

(** ** ReviewStateMachine: one request *)

(** [s] without the prefix [p], when [s] starts with [p]. *)
Fixpoint strip_prefix (p s : string) : option string :=
  match p, s with
  | EmptyString, _ => Some s
  | String a p, String b s => if bool_decide (a = b) then strip_prefix p s else None
  | String _ _, EmptyString => None
  end.

(** One of the alternatives [alts], tried in order, at the start of [s]. *)
Fixpoint strip_one_of (alts : list string) (s : string) : option (string * string) :=
  match alts with
  | [] => None
  | alt :: alts =>
      match strip_prefix alt s with
      | Some rest => Some (alt, rest)
      | None => strip_one_of alts s
      end
  end.

(** [comment_marker_re.match(comment)], groups [state] and [result]:
    [<!-- abichecker state=(done|seen)( result=(accepted|declined))? -->]
    at the start of the comment. The optional part is tried first; no
    two alternatives start alike, so nothing else has to be retried. *)
Definition comment_marker_match (comment : string) : option (string * option string) :=
  rest ← strip_prefix "<!-- abichecker state=" comment;
  '(state, rest) ← strip_one_of ["done"; "seen"] rest;
  let with_result :=
    r1 ← strip_prefix " result=" rest;
    '(result, r2) ← strip_one_of ["accepted"; "declined"] r1;
    _ ← strip_prefix " -->" r2;
    Some (state, Some result) in
  match with_result with
  | Some m => Some m
  | None => _ ← strip_prefix " -->" rest; Some (state, None)
  end.

(** The text [post_comment] sends. *)
Definition comment_text (state : string) (result : option string) (summary : string)
  : string :=
  "<!-- abichecker state=" +:+ state
  +:+ (if truthy result then " result=" +:+ pystr result else "")
  +:+ " -->" +:+ nl +:+ summary.

(** What the bot is run with. *)
Record Config : Type := mkConfig {
  no_review : bool;
  force : bool;
  dryrun : bool;
  WEB_URL : option string
}.

(** The bot between requests: the checker object, the database and the
    comments of the request at the review system (identifier and text,
    oldest first). The comment service removes the comment with a given
    identifier and adds a new one under an unused identifier. The log
    table and the review messages are left out. *)
Record Bot : Type := mkBot {
  bot_checker : Checker;
  bot_db : DB;
  bot_comments : list (nat * string)
}.

(** [check_request_already_done(self, reqid)] *)
Definition check_request_already_done (reqid : nat) (db : DB) : bool :=
  match requests db !! reqid with
  | Some request => bool_decide (rq_state request = "done")
  | None => false
  end.

(** [find_abichecker_comment(self, req)]: the first comment that carries
    the marker. *)
Fixpoint find_abichecker_comment (comments : list (nat * string))
  : option nat * option string * option string :=
  match comments with
  | [] => (None, None, None)
  | (id, comment) :: comments =>
      match comment_marker_match comment with
      | Some (state, result) => (Some id, Some state, result)
      | None => find_abichecker_comment comments
      end
  end.

(** [post_comment(self, req, state, result)] *)
Definition post_comment (cfg : Config) (state : string) (result : option string)
    (summary : string) (comments : list (nat * string)) : list (nat * string) :=
  if bool_decide (summary = "") then comments
  else if dryrun cfg then comments
  else comments ++ [(next_id (fst <$> comments), comment_text state result summary)].

(** [check_one_request(self, req)]; [base] is the review bot's own
    [check_one_request], which runs the submission checks of the request
    on the checker and may raise. *)
Definition check_one_request (cfg : Config)
    (base : Checker → result (option bool) * Checker) (reqid : nat) (bot : Bot)
  : option bool * Bot :=
  if no_review cfg && negb (force cfg) && check_request_already_done reqid (bot_db bot)
  then (None, bot)
  else
    let '(commentid, _, _) := find_abichecker_comment (bot_comments bot) in
    let '(outcome, self) := base (mkChecker [] "" (calls (bot_checker bot))) in
    let ret := match outcome with Return ret => ret | Raise _ => None end in
    let '(state, result) :=
      match ret with
      | Some r => ("done", Some (if r then "accepted" else "declined"))
      | None => ("seen", None)
      end in
    let '(self, db) := save_reports_to_db (WEB_URL cfg) reqid state result self
                                          (bot_db bot) in
    let summary :=
      if bool_decide (ret ≠ None) && bool_decide (text_summary self = "")
      then "ABI checker result: [" +:+ pystr result +:+ "](" +:+ pystr (WEB_URL cfg)
           +:+ "/request/" +:+ pretty reqid +:+ ")"
      else text_summary self in
    let comments :=
      match commentid with
      | Some id =>
          if negb (bool_decide (id = 0%nat)) && negb (dryrun cfg)
          then filter (fun c => c.1 ≠ id) (bot_comments bot)
          else bot_comments bot
      | None => bot_comments bot
      end in
    let comments := post_comment cfg state result summary comments in
    (if no_review cfg then None else ret,
     mkBot (mkChecker (reports self) summary (calls self)) db comments).

Lemma marker_reads_back (state : string) (result : option string)
    (summary : string) :
  state ∈ ["done"; "seen"] →
  result ∈ [None; Some "accepted"; Some "declined"] →
  comment_marker_match (comment_text state result summary) = Some (state, result).
Proof.
  intros Hs Hr.
  apply elem_of_cons in Hs as [-> | Hs]; [|apply list_elem_of_singleton in Hs as ->];
    (apply elem_of_cons in Hr as [-> | Hr];
     [|apply elem_of_cons in Hr as [-> | Hr];
       [|apply list_elem_of_singleton in Hr as ->]]);
    vm_compute; reflexivity.
Qed.

(** X12: the marker that [post_comment] writes in front of the summary is
    read back by [comment_marker_re]: for the states [done] and [seen]
    and the results [accepted], [declined] and none, matching the posted
    text gives the state and the result that were posted, whatever the
    summary is. *)
Theorem comment_marker_roundtrip (state : string) (result : option string)
    (summary : string) :
  state ∈ ["done"; "seen"] →
  result ∈ [None; Some "accepted"; Some "declined"] →
  comment_marker_match (comment_text state result summary) = Some (state, result).
Proof. apply marker_reads_back. Qed.

Lemma comment_marker_roundtrip_witness :
  comment_marker_match
    (comment_text "done" (Some "declined") "Warning: bad news from ABI check")
  = Some ("done", Some "declined").
Proof.
  apply (comment_marker_roundtrip "done" (Some "declined")
           "Warning: bad news from ABI check").
  - apply list_elem_of_here.
  - apply list_elem_of_further, list_elem_of_further, list_elem_of_here.
Defined.

(** The verdict the submission checks of a request give: an exception
    counts as no verdict. *)
Definition base_verdict (base : Checker → result (option bool) * Checker) (bot : Bot)
  : option bool :=
  match (base (mkChecker [] "" (calls (bot_checker bot)))).1 with
  | Return ret => ret
  | Raise _ => None
  end.

Definition state_of (v : option bool) : string :=
  if v is Some _ then "done" else "seen".

Definition result_of (v : option bool) : option string :=
  match v with
  | Some true => Some "accepted"
  | Some false => Some "declined"
  | None => None
  end.

Lemma save_reports_to_db_request web_url reqid state result self db :
  requests (save_reports_to_db web_url reqid state result self db).2 !! reqid
  = Some (mkRequestRow state result).
Proof.
  rewrite save_reports_to_db_db.
  destruct (grown_fold web_url reqid (upsert_request reqid state result db)
              (reports self) (upsert_request reqid state result db)
              (text_summary self) (grown_refl reqid _)) as [-> _].
  unfold upsert_request. destruct (requests db !! reqid); simpl;
    apply lookup_insert_eq.
Qed.

Section OneRequest.

Context (cfg : Config) (base : Checker → result (option bool) * Checker)
        (reqid : nat) (bot : Bot).

(** The request is not passed over as already done. *)
Definition examined : Prop :=
  no_review cfg && negb (force cfg) && check_request_already_done reqid (bot_db bot)
  = false.

Lemma check_one_request_outcome :
  examined →
  let v := base_verdict base bot in
  let run := check_one_request cfg base reqid bot in
  requests (bot_db run.2) !! reqid = Some (mkRequestRow (state_of v) (result_of v))
  ∧ (check_request_already_done reqid (bot_db run.2) = true ↔ v ≠ None)
  ∧ run.1 = (if no_review cfg then None else v)
  ∧ reports (bot_checker run.2) = []
  ∧ (v ≠ None → text_summary (bot_checker run.2) ≠ "").
Proof.
  unfold examined, base_verdict, check_one_request. intros ->.
  destruct (find_abichecker_comment (bot_comments bot)) as [[commentid st0] res0].
  destruct (base _) as [outcome self]. simpl.
  set (v := match outcome with Return ret => ret | Raise _ => None end).
  assert (Hsr : (match v with
                 | Some r => ("done", Some (if r then "accepted" else "declined"))
                 | None => ("seen", None)
                 end) = (state_of v, result_of v)).
  { by destruct v as [[|]|]. }
  rewrite Hsr.
  pose proof (save_reports_to_db_request (WEB_URL cfg) reqid (state_of v) (result_of v)
                self (bot_db bot)) as Hreq.
  pose proof (save_reports_to_db_clears (WEB_URL cfg) reqid (state_of v) (result_of v)
                self (bot_db bot)) as Hclear.
  destruct (save_reports_to_db _ _ _ _ _ _) as [self' db']. simpl in *.
  split; [done|]. split; [|split; [done|split; [done|]]].
  - unfold check_request_already_done. rewrite Hreq. simpl.
    rewrite bool_decide_eq_true. by destruct v as [[|]|].
  - intros Hv. rewrite (bool_decide_eq_true_2 _ Hv). simpl.
    case_bool_decide as Hempty; [|done].
    rewrite string_app_cons. discriminate.
Qed.

(** X13: a request that is examined is stored with state [done] and result
    [accepted] or [declined] when its checks return [True] or [False],
    and with state [seen] and no result when they return [None] or raise;
    afterwards it counts as already done exactly in the first case. The
    call returns the verdict, or [None] in no-review mode, and leaves no
    report behind in the checker; with a verdict the summary is never
    empty. *)
Theorem check_one_request_persists :
  examined →
  let v := base_verdict base bot in
  let run := check_one_request cfg base reqid bot in
  requests (bot_db run.2) !! reqid = Some (mkRequestRow (state_of v) (result_of v))
  ∧ (check_request_already_done reqid (bot_db run.2) = true ↔ v ≠ None)
  ∧ run.1 = (if no_review cfg then None else v)
  ∧ reports (bot_checker run.2) = []
  ∧ (v ≠ None → text_summary (bot_checker run.2) ≠ "").
Proof. apply check_one_request_outcome. Qed.

(** X14: when the checks of an examined request give a verdict and the bot
    is not in a dry run, a comment is added as the last one and it
    carries the marker of the stored state and result; the comment found
    at the start, if any, is gone. *)
Theorem verdict_is_announced :
  examined →
  dryrun cfg = false →
  base_verdict base bot ≠ None →
  let v := base_verdict base bot in
  let run := check_one_request cfg base reqid bot in
  ∃ kept id text,
    bot_comments run.2 = kept ++ [(id, text)]
    ∧ comment_marker_match text = Some (state_of v, result_of v)
    ∧ (∀ c, c ∈ kept → c ∈ bot_comments bot)
    ∧ (∀ old, (find_abichecker_comment (bot_comments bot)).1.1 = Some old →
              old ≠ 0%nat → ∀ c, c ∈ kept → c.1 ≠ old).
Proof.
  unfold examined, base_verdict, check_one_request. intros -> Hdry Hv.
  destruct (find_abichecker_comment (bot_comments bot)) as [[commentid st0] res0].
  destruct (base _) as [outcome self]. simpl in *.
  set (v := match outcome with Return ret => ret | Raise _ => None end) in *.
  assert (Hsr : (match v with
                 | Some r => ("done", Some (if r then "accepted" else "declined"))
                 | None => ("seen", None)
                 end) = (state_of v, result_of v)).
  { by destruct v as [[|]|]. }
  rewrite Hsr.
  destruct (save_reports_to_db _ _ _ _ _ _) as [self' db']. simpl.
  rewrite (bool_decide_eq_true_2 _ Hv), Hdry. simpl.
  unfold post_comment. rewrite Hdry.
  match goal with
  | |- context [bool_decide (?s = "")] =>
      assert (Hne : s ≠ "");
      [ case_bool_decide; [rewrite string_app_cons; discriminate | done]
      | rewrite (bool_decide_eq_false_2 _ Hne) ]
  end.
  do 3 eexists. split; [reflexivity|]. split.
  - apply marker_reads_back.
    + destruct v as [[|]|]; simpl; [left | left | done].
    + destruct v as [[|]|]; simpl;
        [right; left | right; right; left | done].
  - split.
    + intros c Hc. destruct commentid as [id|]; [|done].
      destruct (bool_decide (id = 0%nat)); simpl in Hc; [done|].
      by apply list_elem_of_filter in Hc as [_ ?].
    + intros old [= ->] Hold c Hc.
      rewrite (bool_decide_eq_false_2 _ Hold) in Hc. simpl in Hc.
      by apply list_elem_of_filter in Hc as [? _].
Qed.

End OneRequest.

(** X15: in no-review mode without [force], a request whose checks gave a
    verdict is passed over from then on: the next call returns [None] and
    changes nothing, whatever the checks would now give. *)
Theorem definite_verdict_is_final (cfg : Config)
    (base base' : Checker → result (option bool) * Checker) (reqid : nat) (bot : Bot) :
  no_review cfg = true →
  force cfg = false →
  examined cfg reqid bot →
  base_verdict base bot ≠ None →
  let after := (check_one_request cfg base reqid bot).2 in
  check_one_request cfg base' reqid after = (None, after).
Proof.
  intros Hnr Hf Hex Hv after.
  destruct (check_one_request_outcome cfg base reqid bot Hex) as (_ & Hdone & _).
  apply Hdone in Hv. fold after in Hv.
  unfold check_one_request at 1. by rewrite Hnr, Hf, Hv.
Qed.

(** One request with a single submission, checked as in
    [soname_bump_env]. *)
Definition single_submission (code : Z) (self : Checker)
  : result (option bool) * Checker :=
  check_source_submission (soname_bump_env code) "home:user" "libfoo" (Some "4")
                          (Some "openSUSE:Leap:15.0") "libfoo" self.

Definition fresh_bot : Bot := mkBot (mkChecker [] "" []) stored_db [].

Lemma check_one_request_persists_witness :
  requests (bot_db (check_one_request
                      (mkConfig false false false (Some "https://abi.example.org"))
                      (single_submission 1) 1001 fresh_bot).2) !! 1001%nat
  = Some (mkRequestRow "done" (Some "accepted")).
Proof.
  refine (eq_trans
            (proj1 (check_one_request_persists
                      (mkConfig false false false (Some "https://abi.example.org"))
                      (single_submission 1) 1001 fresh_bot _)) _).
  - reflexivity.
  - vm_compute. reflexivity.
Defined.

Lemma verdict_is_announced_witness :
  ∃ kept id text,
    bot_comments (check_one_request
                    (mkConfig false false false (Some "https://abi.example.org"))
                    (single_submission 1) 1001 fresh_bot).2
    = kept ++ [(id, text)]
    ∧ comment_marker_match text = Some ("done", Some "accepted").
Proof.
  destruct (verdict_is_announced
              (mkConfig false false false (Some "https://abi.example.org"))
              (single_submission 1) 1001 fresh_bot)
    as (kept & id & text & Hc & Hm & _).
  - reflexivity.
  - reflexivity.
  - vm_compute. discriminate.
  - exists kept, id, text. split; [exact Hc|]. rewrite Hm. vm_compute. reflexivity.
Defined.

Lemma definite_verdict_is_final_witness :
  let cfg := mkConfig true false false (Some "https://abi.example.org") in
  let after := (check_one_request cfg (single_submission 1) 1001 fresh_bot).2 in
  check_one_request cfg (single_submission 0) 1001 after = (None, after).
Proof.
  apply (definite_verdict_is_final
           (mkConfig true false false (Some "https://abi.example.org"))
           (single_submission 1) (single_submission 0) 1001 fresh_bot).
  - reflexivity.
  - reflexivity.
  - vm_compute. reflexivity.
  - vm_compute. discriminate.
Defined.

(** ** BinaryExtractor: provenance token and downloads *)

(** [s.split('-')[0]] *)
Fixpoint before_dash (s : string) : string :=
  match s with
  | EmptyString => EmptyString
  | String c rest =>
      if bool_decide (c = "-"%char) then EmptyString else String c (before_dash rest)
  end.

(** [_md5_disturl(self, disturl)] *)
Definition _md5_disturl (disturl : string) : string := before_dash (basename disturl).

(** [disturl_matches_md5(self, disturl, md5)] *)
Definition disturl_matches_md5 (disturl md5 : string) : bool :=
  bool_decide (_md5_disturl disturl = md5).

(** [disturl_matches(self, disturl, prj, srcinfo)]; [sourceinfo] is
    [get_sourceinfo]. An unknown revision gives [None], whose attribute
    cannot be read. *)
Definition disturl_matches
    (sourceinfo : option string → string → option string → option SourceInfo)
    (disturl : string) (prj : option string) (srcinfo : SourceInfo) : result bool :=
  match sourceinfo prj (package srcinfo) (Some (_md5_disturl disturl)) with
  | Some info => Return (bool_decide (verifymd5 info = verifymd5 srcinfo))
  | None => Raise (PyError "AttributeError")
  end.

(** [c] occurs in [s]. *)
Fixpoint has_char (c : ascii) (s : string) : bool :=
  match s with
  | EmptyString => false
  | String d rest => bool_decide (d = c) || has_char c rest
  end.

Lemma after_last_slash_none (s : string) :
  has_char "/" s = false → after_last_slash s = None.
Proof.
  induction s as [|c s IH]; simpl; [done|].
  intros H. apply orb_false_iff in H as [Hc Hs]. rewrite (IH Hs).
  by rewrite Hc.
Qed.

Lemma basename_join (dir file : string) :
  has_char "/" file = false → basename (dir +:+ "/" +:+ file) = file.
Proof.
  intros Hf. unfold basename.
  assert (H : after_last_slash (dir +:+ "/" +:+ file) = Some file).
  { induction dir as [|c dir IH].
    - rewrite string_app_nil, string_app_cons, string_app_nil. simpl.
      by rewrite after_last_slash_none.
    - rewrite string_app_cons. simpl. by rewrite IH. }
  by rewrite H.
Qed.

Lemma before_dash_app (md5 rest : string) :
  has_char "-" md5 = false → before_dash (md5 +:+ "-" +:+ rest) = md5.
Proof.
  induction md5 as [|c md5 IH]; intros H.
  - by rewrite string_app_nil, string_app_cons.
  - simpl in H. apply orb_false_iff in H as [Hc Hm].
    rewrite string_app_cons. simpl. rewrite Hc. by rewrite IH.
Qed.

Lemma has_char_app (c : ascii) (s t : string) :
  has_char c (s +:+ t) = has_char c s || has_char c t.
Proof.
  induction s as [|d s IH].
  - by rewrite string_app_nil.
  - rewrite string_app_cons. simpl. by rewrite IH, orb_assoc.
Qed.

(** X16: from a provenance token [<dir>/<md5>-<package>] the revision
    [md5] is read back, for every package name (dashes included) as long
    as [md5] holds no dash and neither part holds a slash; so the token
    matches a revision exactly when that revision is [md5]. *)
Theorem md5_disturl_roundtrip (dir md5 pkg wanted : string) :
  has_char "-" md5 = false →
  has_char "/" md5 = false →
  has_char "/" pkg = false →
  _md5_disturl (dir +:+ "/" +:+ md5 +:+ "-" +:+ pkg) = md5
  ∧ (disturl_matches_md5 (dir +:+ "/" +:+ md5 +:+ "-" +:+ pkg) wanted = true
     ↔ wanted = md5).
Proof.
  intros Hdash Hslash Hpkg.
  assert (H : _md5_disturl (dir +:+ "/" +:+ md5 +:+ "-" +:+ pkg) = md5).
  { unfold _md5_disturl. rewrite basename_join.
    - by apply before_dash_app.
    - rewrite has_char_app, Hslash. simpl. exact Hpkg. }
  split; [done|]. unfold disturl_matches_md5. rewrite H, bool_decide_eq_true.
  split; congruence.
Qed.

Lemma md5_disturl_roundtrip_witness :
  _md5_disturl ("obs://build.opensuse.org/openSUSE:Leap:15.0/standard" +:+ "/"
                +:+ "0123456789abcdef0123456789abcdef" +:+ "-" +:+ "libfoo-devel")
  = "0123456789abcdef0123456789abcdef".
Proof.
  refine (proj1 (md5_disturl_roundtrip
                   "obs://build.opensuse.org/openSUSE:Leap:15.0/standard"
                   "0123456789abcdef0123456789abcdef" "libfoo-devel" "" _ _ _)).
  - reflexivity.
  - reflexivity.
  - reflexivity.
Defined.

(** [path.endswith('/')] *)
Fixpoint ends_with_slash (s : string) : bool :=
  match s with
  | EmptyString => false
  | String c EmptyString => bool_decide (c = "/"%char)
  | String _ rest => ends_with_slash rest
  end.

(** [os.path.join(a, b)] *)
Definition path_join (a b : string) : string :=
  if match b with
     | String c _ => bool_decide (c = "/"%char)
     | EmptyString => false
     end
  then b
  else if bool_decide (a = "") || ends_with_slash a then a +:+ b
  else a +:+ "/" +:+ b.

(** The body of the loop of [download_files] up to the download: the
    target path of [fn]. [mtimes] is [None] when the listing of the
    binaries could not be fetched, and a project that is [None] cannot be
    joined into a path. *)
Definition download_target (DOWNLOADS : string) (project : option string)
    (pkg repo : string) (mtimes : option (gmap string string)) (fn : string)
  : result string :=
  match mtimes with
  | None => Raise (PyError "TypeError")
  | Some mtimes =>
      if bool_decide (is_Some (mtimes !! fn)) then
        match project with
        | None => Raise (PyError "TypeError")
        | Some project =>
            Return (path_join (path_join (path_join (path_join DOWNLOADS pkg) project)
                                         repo) fn)
        end
      else Raise (FetchError ("missing mtime information for " +:+ fn
                              +:+ ", can't check"))
  end.

(** [download_files(self, project, package, repo, arch, filenames,
    mtimes)]; [get_binary_file] downloads a file to a target and may
    raise. *)
Fixpoint download_files (DOWNLOADS : string)
    (get_binary_file : string → string → result unit)
    (project : option string) (pkg repo : string) (filenames : list string)
    (mtimes : option (gmap string string)) (downloaded : gmap string string)
  : result (gmap string string) :=
  match filenames with
  | [] => Return downloaded
  | fn :: filenames =>
      t ← download_target DOWNLOADS project pkg repo mtimes fn;
      _ ← get_binary_file fn t;
      download_files DOWNLOADS get_binary_file project pkg repo filenames mtimes
                     (<[fn := t]> downloaded)
  end.

Section Downloads.

Context (DOWNLOADS : string) (get_binary_file : string → string → result unit)
        (project pkg repo : string) (mtimes : gmap string string).

Hypothesis Hfetch : ∀ fn t, get_binary_file fn t = Return tt.

Let target (fn : string) : string :=
  path_join (path_join (path_join (path_join DOWNLOADS pkg) project) repo) fn.

Lemma download_files_all (filenames : list string) (downloaded : gmap string string) :
  Forall (fun fn => is_Some (mtimes !! fn)) filenames →
  ∃ d, download_files DOWNLOADS get_binary_file (Some project) pkg repo filenames
                      (Some mtimes) downloaded = Return d
       ∧ ∀ fn, d !! fn = if bool_decide (fn ∈ filenames) then Some (target fn)
                         else downloaded !! fn.
Proof.
  intros Hall. revert downloaded.
  induction Hall as [|fn filenames Hfn _ IH]; intros downloaded.
  - exists downloaded. split; [done|]. intros fn.
    rewrite bool_decide_eq_false_2; [done|]. apply not_elem_of_nil.
  - simpl. unfold download_target. rewrite (bool_decide_eq_true_2 _ Hfn). simpl.
    rewrite Hfetch. simpl.
    destruct (IH (<[fn := target fn]> downloaded)) as (d & Hd & Hl).
    exists d. split; [exact Hd|]. intros fn'. rewrite Hl.
    destruct (decide (fn' ∈ filenames)) as [Hin | Hin].
    + rewrite !bool_decide_eq_true_2; [done | by right | done].
    + rewrite (bool_decide_eq_false_2 _ Hin).
      destruct (decide (fn' = fn)) as [-> | Hne].
      * rewrite lookup_insert_eq, bool_decide_eq_true_2; [done | left].
      * rewrite lookup_insert_ne by done. rewrite bool_decide_eq_false_2; [done|].
        intros Hc. apply elem_of_cons in Hc as [? | ?]; done.
Qed.

(** X17: when the downloads themselves succeed, [download_files] returns a
    target under [DOWNLOADS/package/project/repo] for every requested
    file and for nothing else if every requested file has a modification
    time; otherwise it raises [FetchError] for the first requested file
    that has none. *)
Theorem download_files_needs_mtimes (filenames : list string) :
  (Forall (fun fn => is_Some (mtimes !! fn)) filenames →
   ∃ d, download_files DOWNLOADS get_binary_file (Some project) pkg repo filenames
                       (Some mtimes) ∅ = Return d
        ∧ ∀ fn, d !! fn = if bool_decide (fn ∈ filenames) then Some (target fn)
                          else None)
  ∧ (∀ pre fn post,
       filenames = pre ++ fn :: post →
       Forall (fun fn => is_Some (mtimes !! fn)) pre →
       mtimes !! fn = None →
       download_files DOWNLOADS get_binary_file (Some project) pkg repo filenames
                      (Some mtimes) ∅
       = Raise (FetchError ("missing mtime information for " +:+ fn
                            +:+ ", can't check"))).
Proof.
  split.
  - intros Hall. destruct (download_files_all filenames ∅ Hall) as (d & Hd & Hl).
    exists d. split; [done|]. intros fn. rewrite Hl. by rewrite lookup_empty.
  - intros pre fn post -> Hpre Hnone. generalize (∅ : gmap string string).
    induction Hpre as [|fn' pre Hfn' _ IH]; intros downloaded; simpl.
    + unfold download_target. rewrite bool_decide_eq_false_2; [done|].
      rewrite Hnone. by intros [? ?].
    + unfold download_target. rewrite (bool_decide_eq_true_2 _ Hfn'). simpl.
      rewrite Hfetch. simpl. apply IH.
Qed.

End Downloads.

Lemma download_files_needs_mtimes_witness :
  download_files "/var/cache/abi-checker/downloads" (fun _ _ => Return tt)
                 (Some "openSUSE:Leap:15.0") "libfoo" "standard"
                 ["libfoo1-1.0-1.x86_64.rpm"; "libfoo1-debuginfo-1.0-1.x86_64.rpm"]
                 (Some {[ "libfoo1-1.0-1.x86_64.rpm" := "1700000000" ]}) ∅
  = Raise (FetchError ("missing mtime information for "
                       +:+ "libfoo1-debuginfo-1.0-1.x86_64.rpm" +:+ ", can't check")).
Proof.
  apply (proj2 (download_files_needs_mtimes "/var/cache/abi-checker/downloads"
                  (fun _ _ => Return tt) "openSUSE:Leap:15.0" "libfoo" "standard"
                  {[ "libfoo1-1.0-1.x86_64.rpm" := "1700000000" ]}
                  (fun _ _ => eq_refl)
                  ["libfoo1-1.0-1.x86_64.rpm"; "libfoo1-debuginfo-1.0-1.x86_64.rpm"])
               ["libfoo1-1.0-1.x86_64.rpm"] "libfoo1-debuginfo-1.0-1.x86_64.rpm" []).
  - reflexivity.
  - apply Forall_cons. split; [|apply Forall_nil; exact I].
    vm_compute. eexists. reflexivity.
  - vm_compute. reflexivity.
Defined.

(** ** Archive parser: errors of the constructor, and alignment *)

Lemma substring_length (n m : nat) (s : string) :
  String.length (substring n m s) = Nat.min m (String.length s - n).
Proof.
  revert n m. induction s as [|c s IH]; intros n m.
  - destruct n, m; reflexivity.
  - destruct n as [|n]; simpl.
    + destruct m as [|m]; simpl; [done|]. rewrite IH. by rewrite Nat.sub_0_r.
    + apply IH.
Qed.

(** X18: the constructor of [CpioFile] on a [bytes] buffer fails in one of
    three ways, decided in this order: an offset that is no multiple of
    four is refused as invalid; an aligned offset with fewer than 110
    bytes left gives [struct.error]; and with a full header left it ends
    in [AttributeError], whatever the header holds. *)
Theorem CpioFile_init_errors (off : Z) (buf : string) :
  (0 <= off)%Z →
  ((off mod 4 ≠ 0)%Z →
   cpio.CpioFile_init off buf = Raise (PyError "Exception: invalid offset"))
  ∧ ((off mod 4 = 0)%Z → (Z.of_nat (String.length buf) < off + 110)%Z →
     cpio.CpioFile_init off buf = Raise (PyError "struct.error"))
  ∧ ((off mod 4 = 0)%Z → (off + 110 <= Z.of_nat (String.length buf))%Z →
     cpio.CpioFile_init off buf = Raise (PyError "AttributeError")).
Proof.
  intros Hoff.
  assert (Hland : Z.land off 3 = (off mod 4)%Z).
  { change 3%Z with (Z.ones 2). rewrite Z.land_ones by lia. reflexivity. }
  assert (Hlen : Z.of_nat (String.length (cpio.slice buf off (off + cpio.header_size)))
                 = Z.min 110 (Z.max 0 (Z.of_nat (String.length buf) - off))).
  { unfold cpio.slice, cpio.header_size. rewrite substring_length. lia. }
  unfold cpio.CpioFile_init. rewrite Hland.
  split; [|split].
  - intros H. by rewrite bool_decide_eq_true_2.
  - intros H Hshort. rewrite (bool_decide_eq_false_2 _ (fun Hn => Hn H)).
    unfold cpio.unpack_header. rewrite bool_decide_eq_false_2; [done|].
    rewrite Hlen. unfold cpio.header_size. lia.
  - intros H Hfull. rewrite (bool_decide_eq_false_2 _ (fun Hn => Hn H)).
    unfold cpio.unpack_header. rewrite bool_decide_eq_true_2; [done|].
    rewrite Hlen. unfold cpio.header_size. lia.
Qed.

Lemma CpioFile_init_errors_witness :
  cpio.CpioFile_init 120 (cpio.archive "a" "hello") = Raise (PyError "AttributeError").
Proof.
  refine (proj2 (proj2 (CpioFile_init_errors 120 (cpio.archive "a" "hello") _)) _ _).
  - lia.
  - reflexivity.
  - vm_compute. discriminate.
Defined.

(** X19: the length of an entry that starts at a multiple of four and
    whose payload starts at a multiple of four is a multiple of four, so
    the offset [next] moves to is aligned again. *)
Theorem cpio_length_keeps_alignment (f : cpio.CpioFile) :
  Z.land (cpio.off f) 3 = 0%Z →
  Z.land (cpio.payloadstart f) 3 = 0%Z →
  Z.land (cpio.off f + cpio.length f) 3 = 0%Z.
Proof.
  unfold cpio.length. change 3%Z with (Z.ones 2). rewrite !Z.land_ones by lia.
  change (2 ^ 2)%Z with 4%Z. intros Hoff Hpay.
  pose proof (Z.mod_pos_bound (cpio.c_filesize f) 4 ltac:(lia)) as Hb.
  pose proof (Z.div_mod (cpio.c_filesize f) 4 ltac:(lia)) as Hd.
  pose proof (Z.div_mod (cpio.payloadstart f) 4 ltac:(lia)) as Hp.
  rewrite Hpay in Hp.
  case_bool_decide as Hpad.
  - replace (cpio.off f + (cpio.payloadstart f - cpio.off f + cpio.c_filesize f + 4
                           - cpio.c_filesize f mod 4))%Z
      with ((cpio.payloadstart f / 4 + cpio.c_filesize f / 4 + 1) * 4)%Z by lia.
    apply Z.mod_mul. lia.
  - replace (cpio.off f + (cpio.payloadstart f - cpio.off f + cpio.c_filesize f))%Z
      with ((cpio.payloadstart f / 4 + cpio.c_filesize f / 4) * 4)%Z by lia.
    apply Z.mod_mul. lia.
Qed.

Lemma cpio_length_keeps_alignment_witness :
  Z.land (0 + cpio.length
                (cpio.mkCpioFile 0 (cpio.archive "a" "hello") 1 33188 0 0 1 0 5 0 0 0 0 2 0
                                 (cpio.PyBytes "a") 112)) 3
  = 0%Z.
Proof.
  apply (cpio_length_keeps_alignment
           (cpio.mkCpioFile 0 (cpio.archive "a" "hello") 1 33188 0 0 1 0 5 0 0 0 0 2 0
                            (cpio.PyBytes "a") 112)).
  - reflexivity.
  - reflexivity.
Defined.

(** ** Scanning the binary packages of a build for libraries *)

Module fetch.

(** The tags [compute_fetchlist] reads of an rpm header, decoded. *)
Record RpmHeader : Type := mkRpmHeader {
  h_sourcepackage : bool;          (* truth value of h['sourcepackage'] *)
  h_name : string;
  h_disturl : string;
  h_arch : string;
  h_version : string;
  h_release : string;
  h_filenames : list string;
  h_filemodes : list N;            (* RPMTAG_FILEMODES: unsigned, 16 bit *)
  h_filelinktos : list string
}.

(** [stat.S_ISREG] and [stat.S_ISLNK] *)
Definition S_IFMT (mode : N) : N := N.land mode 61440.          (* 0o170000 *)
Definition S_ISREG (mode : N) : bool := bool_decide (S_IFMT mode = 32768%N).
Definition S_ISLNK (mode : N) : bool := bool_decide (S_IFMT mode = 40960%N).

(** [zip(a, b, c)] *)
Fixpoint zip3 {A B C} (a : list A) (b : list B) (c : list C) : list (A * B * C) :=
  match a, b, c with
  | x :: a, y :: b, z :: c => (x, y, z) :: zip3 a b c
  | _, _, _ => []
  end.

(** [s.endswith(suffix)] *)
Definition endswith (s suffix : string) : bool :=
  bool_decide (String.length suffix ≤ String.length s)
  && bool_decide (substring (String.length s - String.length suffix)
                            (String.length suffix) s = suffix).

(** [debugpkg_re.match(pkgname)] for
    [-debug(?:source|info)(?:-(?:32|64)bit)?$]: [match] starts at the
    first character, and [$] stands at the end or before a final line
    break. *)
Definition debugpkg_names : list string :=
  ["-debugsource"; "-debuginfo"; "-debugsource-32bit"; "-debugsource-64bit";
   "-debuginfo-32bit"; "-debuginfo-64bit"].

Definition debugpkg_re_match (pkgname : string) : bool :=
  bool_decide (pkgname ∈ debugpkg_names)
  || bool_decide (pkgname ∈ (fun n => n +:+ nl) <$> debugpkg_names).

(** The dictionaries the first loop fills. A set that is iterated later
    is a duplicate-free list. *)
Record Scan : Type := mkScan {
  lib_packages : gmap string (list string);
  pkgs : gmap string (string * RpmHeader);
  lib_aliases : gmap string (gset string)
}.

(** One round of the loop over the files of a package. *)
Definition scan_file (so_re_match : string → option string) (pkgname : string)
    (st : Scan) (f : string * N * string) : Scan :=
  let '(fn, mode, lnk) := f in
  if bool_decide (is_Some (so_re_match fn)) then
    if S_ISREG mode then
      mkScan (<[pkgname := set_add fn (default [] (lib_packages st !! pkgname))]>
                (lib_packages st))
             (pkgs st) (lib_aliases st)
    else if S_ISLNK mode then
      let alias := basename fn in
      let libname := basename lnk in
      mkScan (lib_packages st) (pkgs st)
             (<[libname := default ∅ (lib_aliases st !! libname) ∪ {[alias]}]>
                (lib_aliases st))
    else st
  else st.

(** A header the loop looks into: no source rpm, no repackaged one. *)
Definition inspected (h : RpmHeader) : bool :=
  negb (h_sourcepackage h)
  && negb (endswith (h_name h) "-32bit" || endswith (h_name h) "-64bit").

(** One round of the loop over the headers. *)
Definition scan_header
    (sourceinfo : option string → string → option string → option SourceInfo)
    (so_re_match : string → option string) (srcinfo_str : SourceInfo → string)
    (prj : option string) (srcinfo : SourceInfo)
    (st : Scan) (rpmfn : string) (h : RpmHeader) : result Scan :=
  if negb (inspected h) then Return st
  else
    let pkgname := h_name h in
    m ← disturl_matches sourceinfo (h_disturl h) prj srcinfo;
    if negb m then Raise (DistUrlMismatch (h_disturl h) (srcinfo_str srcinfo))
    else
      let st := mkScan (lib_packages st) (<[pkgname := (rpmfn, h)]> (pkgs st))
                       (lib_aliases st) in
      if debugpkg_re_match pkgname then Return st
      else Return (foldl (scan_file so_re_match pkgname) st
                         (zip3 (h_filenames h) (h_filemodes h) (h_filelinktos h))).

(** The loop over the generator [headers]: an item is a pair, or the
    exception the generator ends with. *)
Fixpoint scan_headers
    (sourceinfo : option string → string → option string → option SourceInfo)
    (so_re_match : string → option string) (srcinfo_str : SourceInfo → string)
    (prj : option string) (srcinfo : SourceInfo)
    (headers : list (result (string * RpmHeader))) (st : Scan) : result Scan :=
  match headers with
  | [] => Return st
  | Raise e :: _ => Raise e
  | Return (rpmfn, h) :: headers =>
      st ← scan_header sourceinfo so_re_match srcinfo_str prj srcinfo st rpmfn h;
      scan_headers sourceinfo so_re_match srcinfo_str prj srcinfo headers st
  end.

(** An element of [missing_debuginfo]: a tuple of five, or of six with
    the library. *)
Definition Missing : Type :=
  option string * string * string * string * string * option string.

(** The variables the second loop updates; [arch] is the parameter of
    the function, which the loop assigns to. *)
Record Found : Type := mkFound {
  arch : string;
  ok : bool;
  missing_debuginfo : list Missing;
  fetchlist : list string;
  liblist : gmap string (gset string);
  debuglist : gmap string string
}.

(** [d.setdefault(k, v)] as a statement *)
Definition setdefault {V} (k : string) (v : V) (d : gmap string V) : gmap string V :=
  match d !! k with
  | Some _ => d
  | None => <[k := v]> d
  end.

(** One round of the loop over the libraries of a package; [rpmfn] and
    [h] are the debuginfo package. *)
Definition check_lib (prj : option string) (pkg repo pkgname rpmfn : string)
    (h : RpmHeader) (sc : Scan) (st : Found) (lib : string) : result Found :=
  let files := h_filenames h in
  let libdebug := "/usr/lib/debug" +:+ lib +:+ ".debug" in
  let '(libdebug, arch1, missing, ok1) :=
    if bool_decide (libdebug ∈ files)
    then (libdebug, arch st, missing_debuginfo st, ok st)
    else
      let a := h_arch h in
      let a := if bool_decide (a = "i586") then "i386" else a in
      let libdebug := "/usr/lib/debug" +:+ lib +:+ "-" +:+ h_version h +:+ "-"
                      +:+ h_release h +:+ "." +:+ a +:+ ".debug" in
      if bool_decide (libdebug ∈ files)
      then (libdebug, a, missing_debuginfo st, ok st)
      else (libdebug, a,
            set_add (prj, pkg, repo, a, pkgname, Some lib) (missing_debuginfo st),
            false) in
  if ok1 then
    match pkgs sc !! pkgname with
    | None => Raise (PyError "KeyError")
    | Some (fn0, _) =>
        let fl := set_add rpmfn (set_add fn0 (fetchlist st)) in
        let ll := setdefault lib ∅ (liblist st) in
        let dl := setdefault lib libdebug (debuglist st) in
        let libname := basename lib in
        let ll := match lib_aliases sc !! libname with
                  | Some aliases => <[lib := default ∅ (ll !! lib) ∪ aliases]> ll
                  | None => ll
                  end in
        Return (mkFound arch1 ok1 missing fl ll dl)
    end
  else Return (mkFound arch1 ok1 missing (fetchlist st) (liblist st) (debuglist st)).

Fixpoint foldM {A B} (f : A → B → result A) (a : A) (l : list B) : result A :=
  match l with
  | [] => Return a
  | x :: l => a ← f a x; foldM f a l
  end.

(** One round of the loop over the library packages. *)
Definition check_package (prj : option string) (pkg repo : string) (sc : Scan)
    (st : Found) (pkgname : string) : result Found :=
  let dpkgname := pkgname +:+ "-debuginfo" in
  match pkgs sc !! dpkgname with
  | None =>
      Return (mkFound (arch st) (ok st)
                (set_add (prj, pkg, repo, arch st, pkgname, None) (missing_debuginfo st))
                (fetchlist st) (liblist st) (debuglist st))
  | Some (rpmfn, h) =>
      match lib_packages sc !! pkgname with
      | None => Raise (PyError "KeyError")
      | Some libs =>
          foldM (check_lib prj pkg repo pkgname rpmfn h sc)
                (mkFound (arch st) true (missing_debuginfo st) (fetchlist st)
                         (liblist st) (debuglist st))
                libs
      end
  end.

(** [sorted(d.keys())] *)
Definition sorted_keys {V} (d : gmap string V) : list string :=
  merge_sort (fun a b => String.leb a b) (map_to_list d).*1.

(** The text of [MissingDebugInfo(missing_debuginfo)] *)
Definition missing_line (i : Missing) : string :=
  let '(prj, pkg, repo, arch, pkgname, lib) := i in
  let line := pystr prj +:+ "/" +:+ pkg +:+ " " +:+ repo +:+ "/" +:+ arch
              +:+ " " +:+ pkgname in
  match lib with
  | Some lib => line +:+ " " +:+ lib +:+ nl
  | None => line +:+ nl
  end.

(** [compute_fetchlist(self, prj, pkg, srcinfo, repo, arch)]; [headers]
    is what [_fetchcpioheaders] yields. *)
Definition compute_fetchlist
    (sourceinfo : option string → string → option string → option SourceInfo)
    (so_re_match : string → option string) (srcinfo_str : SourceInfo → string)
    (headers : list (result (string * RpmHeader)))
    (prj : option string) (pkg : string) (srcinfo : SourceInfo) (repo arch0 : string)
  : result (list string * gmap string (gset string) * gmap string string) :=
  sc ← scan_headers sourceinfo so_re_match srcinfo_str prj srcinfo headers
                    (mkScan ∅ ∅ ∅);
  st ← foldM (check_package prj pkg repo sc) (mkFound arch0 true [] [] ∅ ∅)
             (sorted_keys (lib_packages sc));
  if bool_decide (missing_debuginfo st ≠ [])
  then Raise (MissingDebugInfo
                (foldr String.append "" (missing_line <$> missing_debuginfo st)))
  else Return (fetchlist st, liblist st, debuglist st).

End fetch.

Section Fetchlist.

Context (sourceinfo : option string → string → option string → option SourceInfo)
        (so_re_match : string → option string) (srcinfo_str : SourceInfo → string)
        (prj : option string) (pkg : string) (srcinfo : SourceInfo) (repo : string).

(** [fn] is a regular file of [h] with the name of a shared library. *)
Definition lib_file (h : fetch.RpmHeader) (fn : string) : Prop :=
  ∃ mode lnk,
    (fn, mode, lnk) ∈ fetch.zip3 (fetch.h_filenames h) (fetch.h_filemodes h)
                                 (fetch.h_filelinktos h)
    ∧ is_Some (so_re_match fn) ∧ fetch.S_ISREG mode = true.

(** The files of [h] are scanned for libraries. *)
Definition lib_scanned (h : fetch.RpmHeader) : Prop :=
  fetch.inspected h = true ∧ fetch.debugpkg_re_match (fetch.h_name h) = false.

Lemma scan_file_pkgs pkgname st f :
  fetch.pkgs (fetch.scan_file so_re_match pkgname st f) = fetch.pkgs st.
Proof.
  destruct f as [[fn mode] lnk]. unfold fetch.scan_file.
  repeat case_match; reflexivity.
Qed.

Lemma scan_files_pkgs pkgname files st :
  fetch.pkgs (foldl (fetch.scan_file so_re_match pkgname) st files) = fetch.pkgs st.
Proof.
  revert st. induction files as [|f files IH]; intros st; simpl; [done|].
  by rewrite IH, scan_file_pkgs.
Qed.

Lemma scan_file_libs pkgname st f p :
  fetch.lib_packages (fetch.scan_file so_re_match pkgname st f) !! p
  = let '(fn, mode, _) := f in
    if bool_decide (p = pkgname) && bool_decide (is_Some (so_re_match fn))
       && fetch.S_ISREG mode
    then Some (set_add fn (default [] (fetch.lib_packages st !! p)))
    else fetch.lib_packages st !! p.
Proof.
  destruct f as [[fn mode] lnk]. unfold fetch.scan_file.
  destruct (decide (p = pkgname)) as [->|Hp].
  - rewrite (bool_decide_eq_true_2 (pkgname = pkgname)) by done. simpl.
    case_bool_decide; simpl; [|done].
    destruct (fetch.S_ISREG mode); simpl; [by rewrite lookup_insert_eq|].
    by destruct (fetch.S_ISLNK mode).
  - rewrite (bool_decide_eq_false_2 (p = pkgname)) by done. simpl.
    case_bool_decide; simpl; [|done].
    destruct (fetch.S_ISREG mode); simpl; [by rewrite lookup_insert_ne|].
    by destruct (fetch.S_ISLNK mode).
Qed.

Lemma elem_of_set_add {A} `{EqDecision A} (x y : A) (s : list A) :
  y ∈ set_add x s ↔ y = x ∨ y ∈ s.
Proof.
  unfold set_add. case_bool_decide as Hx.
  - split; [by right|]. intros [->|H]; done.
  - rewrite elem_of_app, list_elem_of_singleton. tauto.
Qed.

(** What the loop over the files of one package leaves in [lib_packages]. *)
Lemma scan_files_libs pkgname files st :
  let st' := foldl (fetch.scan_file so_re_match pkgname) st files in
  (∀ p, p ≠ pkgname → fetch.lib_packages st' !! p = fetch.lib_packages st !! p)
  ∧ (∀ lib, lib ∈ default [] (fetch.lib_packages st' !! pkgname)
            ↔ lib ∈ default [] (fetch.lib_packages st !! pkgname)
              ∨ ∃ mode lnk, (lib, mode, lnk) ∈ files ∧ is_Some (so_re_match lib)
                            ∧ fetch.S_ISREG mode = true)
  ∧ (is_Some (fetch.lib_packages st' !! pkgname) →
     is_Some (fetch.lib_packages st !! pkgname)
     ∨ ∃ lib, lib ∈ default [] (fetch.lib_packages st' !! pkgname)).
Proof.
  revert st. induction files as [|f files IH]; intros st; simpl.
  - split; [done|]. split; [|by left].
    intros lib. split; [by left|]. intros [H|(mode & lnk & H & _)]; [done|].
    by apply elem_of_nil in H.
  - destruct (IH (fetch.scan_file so_re_match pkgname st f)) as (IH1 & IH2 & IH3).
    pose proof (scan_file_libs pkgname st f) as Hf.
    destruct f as [[fn mode] lnk].
    split; [|split].
    + intros p Hp. rewrite IH1 by done. rewrite Hf.
      by rewrite (bool_decide_eq_false_2 _ Hp).
    + intros lib. rewrite IH2, Hf. rewrite bool_decide_eq_true_2 by done. simpl.
      case_bool_decide as Hso; simpl.
      * destruct (fetch.S_ISREG mode) eqn:Hreg; simpl.
        -- rewrite elem_of_set_add. split.
           ++ intros [[->|H]|(m & l & H & Hs & Hr)].
              ** right. exists mode, lnk. split; [apply list_elem_of_here|done].
              ** by left.
              ** right. exists m, l. split; [by apply list_elem_of_further|done].
           ++ intros [H|(m & l & H & Hs & Hr)]; [by left; right|].
              apply elem_of_cons in H as [H|H].
              ** left. left. congruence.
              ** right. by exists m, l.
        -- split.
           ++ intros [H|(m & l & H & Hs & Hr)]; [by left|].
              right. exists m, l. split; [by apply list_elem_of_further|done].
           ++ intros [H|(m & l & H & Hs & Hr)]; [by left|].
              apply elem_of_cons in H as [H|H]; [congruence|].
              right. by exists m, l.
      * split.
        -- intros [H|(m & l & H & Hs & Hr)]; [by left|].
           right. exists m, l. split; [by apply list_elem_of_further|done].
        -- intros [H|(m & l & H & Hs & Hr)]; [by left|].
           apply elem_of_cons in H as [H|H]; [|right; by exists m, l].
           exfalso. apply Hso. congruence.
    + intros H. destruct (IH3 H) as [H'|H']; [|by right].
      rewrite Hf in H'. rewrite bool_decide_eq_true_2 in H' by done. simpl in H'.
      destruct (bool_decide (is_Some (so_re_match fn)) && fetch.S_ISREG mode) eqn:Hc;
        [|by left].
      right. exists fn. apply IH2. left. rewrite Hf.
      rewrite bool_decide_eq_true_2 by done. simpl. rewrite Hc. simpl.
      apply elem_of_set_add. by left.
Qed.

(** What the first loop has established after the headers [seen]. *)
Definition scan_inv (seen : list (string * fetch.RpmHeader)) (st : fetch.Scan) : Prop :=
  (∀ k fn h, fetch.pkgs st !! k = Some (fn, h) →
     (fn, h) ∈ seen ∧ fetch.h_name h = k ∧ fetch.inspected h = true)
  ∧ (∀ fn h, (fn, h) ∈ seen → fetch.inspected h = true →
       is_Some (fetch.pkgs st !! fetch.h_name h)
       ∧ disturl_matches sourceinfo (fetch.h_disturl h) prj srcinfo = Return true)
  ∧ (∀ p, is_Some (fetch.lib_packages st !! p) → is_Some (fetch.pkgs st !! p))
  ∧ (∀ p lib, lib ∈ default [] (fetch.lib_packages st !! p) ↔
       ∃ fn h, (fn, h) ∈ seen ∧ fetch.h_name h = p ∧ lib_scanned h ∧ lib_file h lib).

Lemma scan_inv_init : scan_inv [] (fetch.mkScan ∅ ∅ ∅).
Proof.
  split; [|split; [|split]]; simpl.
  - intros k fn h H. by rewrite lookup_empty in H.
  - intros fn h H. by apply elem_of_nil in H.
  - intros p. rewrite lookup_empty. by intros [? ?].
  - intros p lib. rewrite lookup_empty. simpl. split.
    + intros H. by apply elem_of_nil in H.
    + intros (fn & h & H & _). by apply elem_of_nil in H.
Qed.

Lemma scan_header_inv seen st rpmfn h st' :
  fetch.scan_header sourceinfo so_re_match srcinfo_str prj srcinfo st rpmfn h
  = Return st' →
  scan_inv seen st → scan_inv (seen ++ [(rpmfn, h)]) st'.
Proof.
  intros Hrun (I1 & I2 & I3 & I4). unfold fetch.scan_header in Hrun.
  destruct (fetch.inspected h) eqn:Hins; simpl in Hrun.
  2:{ injection Hrun as <-. split; [|split; [|split]].
      - intros k fn h0 H. apply I1 in H as (H & Hn & Hi).
        split; [|done]. apply elem_of_app. by left.
      - intros fn h0 H Hi. apply elem_of_app in H as [H|H]; [by eapply I2|].
        apply list_elem_of_singleton in H. congruence.
      - done.
      - intros p lib. rewrite I4. split.
        + intros (fn & h0 & H & Hrest).
          exists fn, h0. split; [apply elem_of_app; by left|done].
        + intros (fn & h0 & H & Hn & [Hi Hd] & Hl).
          apply elem_of_app in H as [H|H]; [by exists fn, h0|].
          apply list_elem_of_singleton in H. congruence. }
  destruct (disturl_matches sourceinfo (fetch.h_disturl h) prj srcinfo)
    as [m|e] eqn:Hm; simpl in Hrun; [|done].
  destruct m; simpl in Hrun; [|done].
  set (st1 := fetch.mkScan (fetch.lib_packages st)
                (<[fetch.h_name h := (rpmfn, h)]> (fetch.pkgs st))
                (fetch.lib_aliases st)) in Hrun.
  assert (Hpk : ∀ k fn h0, fetch.pkgs st1 !! k = Some (fn, h0) →
            (fn, h0) ∈ seen ++ [(rpmfn, h)] ∧ fetch.h_name h0 = k
            ∧ fetch.inspected h0 = true).
  { intros k fn h0. simpl. destruct (decide (k = fetch.h_name h)) as [->|Hk].
    - rewrite lookup_insert_eq. intros [= <- <-].
      split; [|done]. apply elem_of_app. right. apply list_elem_of_here.
    - rewrite lookup_insert_ne by done. intros H. apply I1 in H as (H & Hn & Hi).
      split; [|done]. apply elem_of_app. by left. }
  assert (Hseen : ∀ fn h0, (fn, h0) ∈ seen ++ [(rpmfn, h)] → fetch.inspected h0 = true →
            is_Some (fetch.pkgs st1 !! fetch.h_name h0)
            ∧ disturl_matches sourceinfo (fetch.h_disturl h0) prj srcinfo = Return true).
  { intros fn h0 H Hi. simpl. apply elem_of_app in H as [H|H].
    - destruct (I2 _ _ H Hi) as [Hs Hd]. split; [|done].
      destruct (decide (fetch.h_name h0 = fetch.h_name h)) as [->|Hk].
      + rewrite lookup_insert_eq. by eexists.
      + by rewrite lookup_insert_ne.
    - apply list_elem_of_singleton in H. injection H as -> ->.
      rewrite lookup_insert_eq. split; [by eexists|done]. }
  assert (Hkeys : ∀ p, is_Some (fetch.lib_packages st1 !! p) →
            is_Some (fetch.pkgs st1 !! p)).
  { intros p H. simpl in *. destruct (decide (p = fetch.h_name h)) as [->|Hk].
    - rewrite lookup_insert_eq. by eexists.
    - rewrite lookup_insert_ne by done. by apply I3. }
  destruct (fetch.debugpkg_re_match (fetch.h_name h)) eqn:Hdbg.
  - injection Hrun as <-. split; [done|]. split; [done|]. split; [done|].
    intros p lib. simpl. rewrite I4. split.
    + intros (fn & h0 & H & Hrest). exists fn, h0.
      split; [apply elem_of_app; by left|done].
    + intros (fn & h0 & H & Hn & [Hi Hd] & Hl).
      apply elem_of_app in H as [H|H]; [by exists fn, h0|].
      apply list_elem_of_singleton in H. congruence.
  - injection Hrun as <-.
    destruct (scan_files_libs (fetch.h_name h)
                (fetch.zip3 (fetch.h_filenames h) (fetch.h_filemodes h)
                            (fetch.h_filelinktos h)) st1) as (L1 & L2 & L3).
    split; [by rewrite scan_files_pkgs|]. split; [by rewrite scan_files_pkgs|].
    split.
    + intros p H. rewrite scan_files_pkgs.
      destruct (decide (p = fetch.h_name h)) as [->|Hk].
      * simpl. rewrite lookup_insert_eq. by eexists.
      * rewrite L1 in H by done. by apply Hkeys.
    + intros p lib. destruct (decide (p = fetch.h_name h)) as [->|Hk].
      * rewrite L2. simpl. rewrite I4. split.
        -- intros [(fn & h0 & H & Hrest)|(mode & lnk & Hl)].
           ++ exists fn, h0. split; [apply elem_of_app; by left|done].
           ++ exists rpmfn, h. split; [apply elem_of_app; right; apply list_elem_of_here|].
              split; [done|]. split; [done|]. by exists mode, lnk.
        -- intros (fn & h0 & H & Hn & Hs & Hl).
           apply elem_of_app in H as [H|H]; [left; by exists fn, h0|].
           apply list_elem_of_singleton in H. injection H as -> ->.
           right. exact Hl.
      * rewrite L1 by done. simpl. rewrite I4. split.
        -- intros (fn & h0 & H & Hrest). exists fn, h0.
           split; [apply elem_of_app; by left|done].
        -- intros (fn & h0 & H & Hn & Hs & Hl).
           apply elem_of_app in H as [H|H]; [by exists fn, h0|].
           apply list_elem_of_singleton in H. injection H as -> ->. done.
Qed.

Lemma scan_headers_inv headers : ∀ seen st st',
  fetch.scan_headers sourceinfo so_re_match srcinfo_str prj srcinfo headers st
  = Return st' →
  scan_inv seen st →
  ∃ items, headers = Return <$> items ∧ scan_inv (seen ++ items) st'.
Proof.
  induction headers as [|[[rpmfn h]|e] headers IH]; intros seen st st' Hrun Hinv;
    simpl in Hrun.
  - injection Hrun as <-. exists []. by rewrite app_nil_r.
  - destruct (fetch.scan_header sourceinfo so_re_match srcinfo_str prj srcinfo
                st rpmfn h) as [st1|e] eqn:Hh; simpl in Hrun; [|done].
    destruct (IH _ _ _ Hrun (scan_header_inv _ _ _ _ _ Hh Hinv)) as (items & -> & Hi).
    exists ((rpmfn, h) :: items). split; [done|].
    by rewrite <- app_assoc in Hi.
  - done.
Qed.

(** The loop runs through a stream that holds no exception and in which
    every inspected header carries a matching disturl. *)
Lemma scan_headers_runs items : ∀ st,
  (∀ fn h, (fn, h) ∈ items → fetch.inspected h = true →
     disturl_matches sourceinfo (fetch.h_disturl h) prj srcinfo = Return true) →
  ∃ st', fetch.scan_headers sourceinfo so_re_match srcinfo_str prj srcinfo
           (Return <$> items) st = Return st'.
Proof.
  induction items as [|[rpmfn h] items IH]; intros st Hok; simpl; [by eexists|].
  assert (∃ st1, fetch.scan_header sourceinfo so_re_match srcinfo_str prj srcinfo
                   st rpmfn h = Return st1) as [st1 ->].
  { unfold fetch.scan_header. destruct (fetch.inspected h) eqn:Hi; simpl; [|by eexists].
    rewrite (Hok rpmfn h) by (done || apply list_elem_of_here). simpl.
    destruct (fetch.debugpkg_re_match (fetch.h_name h)); by eexists. }
  simpl. apply IH. intros fn h0 H. apply (Hok fn h0). by apply list_elem_of_further.
Qed.

(** The two names under which the debug file of [lib] is looked up in the
    debuginfo package [h]. *)
Definition plain_debug (lib : string) : string :=
  "/usr/lib/debug" +:+ lib +:+ ".debug".

Definition guessed_arch (h : fetch.RpmHeader) : string :=
  if bool_decide (fetch.h_arch h = "i586") then "i386" else fetch.h_arch h.

Definition versioned_debug (lib : string) (h : fetch.RpmHeader) : string :=
  "/usr/lib/debug" +:+ lib +:+ "-" +:+ fetch.h_version h +:+ "-"
  +:+ fetch.h_release h +:+ "." +:+ guessed_arch h +:+ ".debug".

Definition with_aliases (sc : fetch.Scan) (lib : string)
    (ll : gmap string (gset string)) : gmap string (gset string) :=
  let ll := fetch.setdefault lib ∅ ll in
  match fetch.lib_aliases sc !! basename lib with
  | Some aliases => <[lib := default ∅ (ll !! lib) ∪ aliases]> ll
  | None => ll
  end.

Lemma check_lib_eq pkgname rpmfn h sc st lib :
  fetch.check_lib prj pkg repo pkgname rpmfn h sc st lib
  = let plain := bool_decide (plain_debug lib ∈ fetch.h_filenames h) in
    let dbg := if plain then plain_debug lib else versioned_debug lib h in
    let a := if plain then fetch.arch st else guessed_arch h in
    if plain || bool_decide (versioned_debug lib h ∈ fetch.h_filenames h) then
      if fetch.ok st then
        match fetch.pkgs sc !! pkgname with
        | None => Raise (PyError "KeyError")
        | Some (fn0, _) =>
            Return (fetch.mkFound a true (fetch.missing_debuginfo st)
                      (set_add rpmfn (set_add fn0 (fetch.fetchlist st)))
                      (with_aliases sc lib (fetch.liblist st))
                      (fetch.setdefault lib dbg (fetch.debuglist st)))
        end
      else Return (fetch.mkFound a false (fetch.missing_debuginfo st)
                     (fetch.fetchlist st) (fetch.liblist st) (fetch.debuglist st))
    else Return (fetch.mkFound a false
                   (set_add (prj, pkg, repo, a, pkgname, Some lib)
                            (fetch.missing_debuginfo st))
                   (fetch.fetchlist st) (fetch.liblist st) (fetch.debuglist st)).
Proof.
  unfold fetch.check_lib. cbv zeta.
  change ("/usr/lib/debug" +:+ lib +:+ ".debug") with (plain_debug lib).
  change (if bool_decide (fetch.h_arch h = "i586") then "i386" else fetch.h_arch h)
    with (guessed_arch h).
  change ("/usr/lib/debug" +:+ lib +:+ "-" +:+ fetch.h_version h +:+ "-"
          +:+ fetch.h_release h +:+ "." +:+ guessed_arch h +:+ ".debug")
    with (versioned_debug lib h).
  destruct (bool_decide (plain_debug lib ∈ fetch.h_filenames h)).
  - cbn [orb]. destruct (fetch.ok st); [|done].
    destruct (fetch.pkgs sc !! pkgname) as [[fn0 h0]|]; reflexivity.
  - cbn [orb]. destruct (bool_decide (versioned_debug lib h ∈ fetch.h_filenames h)).
    + destruct (fetch.ok st); [|done].
      destruct (fetch.pkgs sc !! pkgname) as [[fn0 h0]|]; reflexivity.
    + reflexivity.
Qed.

Lemma set_add_not_nil {A} `{EqDecision A} (x : A) (s : list A) : set_add x s ≠ [].
Proof.
  unfold set_add. case_bool_decide as H.
  - intros ->. by apply elem_of_nil in H.
  - by destruct s.
Qed.

Lemma setdefault_lookup {V} (k : string) (v : V) (d : gmap string V) (x : string) :
  fetch.setdefault k v d !! x
  = if bool_decide (x = k) then Some (default v (d !! k)) else d !! x.
Proof.
  unfold fetch.setdefault. case_bool_decide as Hx.
  - subst x. destruct (d !! k) eqn:E; simpl; [done|]. by rewrite lookup_insert_eq.
  - destruct (d !! k) eqn:E; [done|]. by rewrite lookup_insert_ne.
Qed.

Lemma with_aliases_is_Some sc lib ll x :
  is_Some (with_aliases sc lib ll !! x) ↔ x = lib ∨ is_Some (ll !! x).
Proof.
  unfold with_aliases. cbv zeta.
  destruct (fetch.lib_aliases sc !! basename lib) as [aliases|].
  - destruct (decide (x = lib)) as [->|Hx].
    + rewrite lookup_insert_eq. split; [by left|by eexists].
    + rewrite lookup_insert_ne, setdefault_lookup by done.
      rewrite bool_decide_eq_false_2 by done. tauto.
  - rewrite setdefault_lookup. case_bool_decide as Hx.
    + split; [by left|by eexists].
    + tauto.
Qed.

(** What the second loop has established after the pairs (package,
    library) in [visited]. *)
Definition found_inv (sc : fetch.Scan) (visited : list (string * string))
    (st : fetch.Found) : Prop :=
  (∀ lib, is_Some (fetch.liblist st !! lib) ↔ is_Some (fetch.debuglist st !! lib))
  ∧ (∀ lib dbg, fetch.debuglist st !! lib = Some dbg →
       ∃ p libs drpmfn dh,
         fetch.lib_packages sc !! p = Some libs ∧ lib ∈ libs
         ∧ fetch.pkgs sc !! (p +:+ "-debuginfo") = Some (drpmfn, dh)
         ∧ dbg ∈ fetch.h_filenames dh
         ∧ (dbg = plain_debug lib ∨ dbg = versioned_debug lib dh)
         ∧ drpmfn ∈ fetch.fetchlist st)
  ∧ (∀ fn, fn ∈ fetch.fetchlist st →
       (∃ k h, fetch.pkgs sc !! k = Some (fn, h))
       ∧ ∃ lib, is_Some (fetch.liblist st !! lib))
  ∧ (∀ lib, is_Some (fetch.liblist st !! lib) → fetch.fetchlist st ≠ [])
  ∧ (fetch.missing_debuginfo st = [] →
       ∀ p lib, (p, lib) ∈ visited →
         is_Some (fetch.liblist st !! lib)
         ∧ ∃ fn0 h0 drpmfn dh,
             fetch.pkgs sc !! p = Some (fn0, h0) ∧ fn0 ∈ fetch.fetchlist st
             ∧ fetch.pkgs sc !! (p +:+ "-debuginfo") = Some (drpmfn, dh)
             ∧ drpmfn ∈ fetch.fetchlist st)
  ∧ (fetch.ok st = false → fetch.missing_debuginfo st ≠ []).

Lemma check_lib_inv sc pkgname fn0 h0 rpmfn h libs visited st lib :
  fetch.pkgs sc !! pkgname = Some (fn0, h0) →
  fetch.pkgs sc !! (pkgname +:+ "-debuginfo") = Some (rpmfn, h) →
  fetch.lib_packages sc !! pkgname = Some libs → lib ∈ libs →
  found_inv sc visited st →
  ∃ st', fetch.check_lib prj pkg repo pkgname rpmfn h sc st lib = Return st'
         ∧ found_inv sc (visited ++ [(pkgname, lib)]) st'
         ∧ (fetch.missing_debuginfo st' = [] → fetch.missing_debuginfo st = []).
Proof.
  intros Hp Hd Hl Hlib (F1 & F2 & F3 & F4 & F5 & F6).
  rewrite check_lib_eq. cbv zeta.
  destruct (bool_decide (plain_debug lib ∈ fetch.h_filenames h)
            || bool_decide (versioned_debug lib h ∈ fetch.h_filenames h)) eqn:Hfound.
  2:{ eexists. split; [reflexivity|]. split.
      - split; [done|]. split; [done|]. split; [done|]. split; [done|]. simpl.
        split; [|intros _; apply set_add_not_nil].
        intros H. by apply set_add_not_nil in H.
      - simpl. intros H. by apply set_add_not_nil in H. }
  destruct (fetch.ok st) eqn:Hok.
  2:{ eexists. split; [reflexivity|]. split; [|done].
      split; [done|]. split; [done|]. split; [done|]. split; [done|]. simpl.
      split; [|intros _; by apply F6].
      intros H. by apply F6 in H. }
  rewrite Hp. eexists. split; [reflexivity|]. split; [|done].
  set (dbg := if bool_decide (plain_debug lib ∈ fetch.h_filenames h)
              then plain_debug lib else versioned_debug lib h).
  assert (Hdbg : dbg ∈ fetch.h_filenames h
                 ∧ (dbg = plain_debug lib ∨ dbg = versioned_debug lib h)).
  { unfold dbg. apply orb_true_iff in Hfound as [H|H].
    - rewrite H. apply bool_decide_eq_true in H. split; [done|by left].
    - apply bool_decide_eq_true in H.
      case_bool_decide as Hpl; [split; [done|by left]|split; [done|by right]]. }
  clearbody dbg. clear Hfound.
  assert (Hmono : ∀ fn, fn ∈ fetch.fetchlist st →
                        fn ∈ set_add rpmfn (set_add fn0 (fetch.fetchlist st))).
  { intros fn H. apply elem_of_set_add. right. apply elem_of_set_add. by right. }
  assert (Hnew : rpmfn ∈ set_add rpmfn (set_add fn0 (fetch.fetchlist st))
                 ∧ fn0 ∈ set_add rpmfn (set_add fn0 (fetch.fetchlist st))).
  { split; apply elem_of_set_add; [by left|right; apply elem_of_set_add; by left]. }
  split; [|split; [|split; [|split; [|split]]]]; simpl.
  - intros x. rewrite with_aliases_is_Some, setdefault_lookup.
    case_bool_decide as Hx; [split; [intros _; by eexists|intros _; by left]|].
    rewrite F1. split; [by intros [?|?]|by right].
  - intros x d. rewrite setdefault_lookup. case_bool_decide as Hx.
    + subst x. destruct (fetch.debuglist st !! lib) as [d0|] eqn:Hd0; simpl.
      * intros [= <-]. destruct (F2 _ _ Hd0) as (p & ls & dr & dh & H1 & H2 & H3 & H4 & H5 & H6).
        exists p, ls, dr, dh. repeat split; try done. by apply Hmono.
      * intros [= <-]. exists pkgname, libs, rpmfn, h.
        repeat split; try done; [apply Hdbg|apply Hdbg|apply Hnew].
    + intros H. destruct (F2 _ _ H) as (p & ls & dr & dh & H1 & H2 & H3 & H4 & H5 & H6).
      exists p, ls, dr, dh. repeat split; try done. by apply Hmono.
  - intros fn H. split.
    + apply elem_of_set_add in H as [->|H]; [by eexists _, _|].
      apply elem_of_set_add in H as [->|H]; [by eexists _, _|].
      by apply F3.
    + exists lib. apply with_aliases_is_Some. by left.
  - intros _ _. apply set_add_not_nil.
  - intros Hm p x H. apply elem_of_app in H as [H|H].
    + destruct (F5 Hm _ _ H) as (Hs & f & hh & dr & dh & H1 & H2 & H3 & H4).
      split; [apply with_aliases_is_Some; by right|].
      exists f, hh, dr, dh. repeat split; try done; by apply Hmono.
    + apply list_elem_of_singleton in H. injection H as -> ->.
      split; [apply with_aliases_is_Some; by left|].
      exists fn0, h0, rpmfn, h. repeat split; try done; apply Hnew.
  - done.
Qed.

Lemma check_libs_inv sc pkgname fn0 h0 rpmfn h libs :
  fetch.pkgs sc !! pkgname = Some (fn0, h0) →
  fetch.pkgs sc !! (pkgname +:+ "-debuginfo") = Some (rpmfn, h) →
  fetch.lib_packages sc !! pkgname = Some libs →
  ∀ todo visited st,
    (∀ lib, lib ∈ todo → lib ∈ libs) →
    found_inv sc visited st →
    ∃ st', fetch.foldM (fetch.check_lib prj pkg repo pkgname rpmfn h sc) st todo
           = Return st'
           ∧ found_inv sc (visited ++ ((fun lib => (pkgname, lib)) <$> todo)) st'
           ∧ (fetch.missing_debuginfo st' = [] → fetch.missing_debuginfo st = []).
Proof.
  intros Hp Hd Hl todo. induction todo as [|lib todo IH]; intros visited st Hin Hinv.
  - exists st. simpl. by rewrite app_nil_r.
  - destruct (check_lib_inv sc pkgname fn0 h0 rpmfn h libs visited st lib Hp Hd Hl)
      as (st1 & Hrun & Hinv1 & Hm1); [apply Hin, list_elem_of_here|done|].
    destruct (IH (visited ++ [(pkgname, lib)]) st1) as (st' & Hrun' & Hinv' & Hm').
    { intros x Hx. by apply Hin, list_elem_of_further. }
    { done. }
    exists st'. simpl. rewrite Hrun. simpl. split; [done|].
    split; [|by intros H; apply Hm1, Hm'].
    by rewrite <- app_assoc in Hinv'.
Qed.

Lemma check_package_inv sc visited st pkgname libs :
  (∀ p, is_Some (fetch.lib_packages sc !! p) → is_Some (fetch.pkgs sc !! p)) →
  fetch.lib_packages sc !! pkgname = Some libs →
  found_inv sc visited st →
  ∃ st', fetch.check_package prj pkg repo sc st pkgname = Return st'
         ∧ found_inv sc (visited ++ ((fun lib => (pkgname, lib)) <$> libs)) st'
         ∧ (fetch.missing_debuginfo st' = [] →
            fetch.missing_debuginfo st = []
            ∧ is_Some (fetch.pkgs sc !! (pkgname +:+ "-debuginfo"))).
Proof.
  intros Hkeys Hl Hinv. unfold fetch.check_package. cbv zeta.
  destruct (fetch.pkgs sc !! (pkgname +:+ "-debuginfo")) as [[rpmfn h]|] eqn:Hd.
  - rewrite Hl. destruct (Hkeys pkgname) as [[fn0 h0] Hp]; [by eexists|].
    destruct (check_libs_inv sc pkgname fn0 h0 rpmfn h libs Hp Hd Hl libs visited
                (fetch.mkFound (fetch.arch st) true (fetch.missing_debuginfo st)
                   (fetch.fetchlist st) (fetch.liblist st) (fetch.debuglist st)))
      as (st' & Hrun & Hinv' & Hm); [done| |].
    { destruct Hinv as (F1 & F2 & F3 & F4 & F5 & F6).
      split; [done|]. split; [done|]. split; [done|]. split; [done|]. by split. }
    exists st'. split; [done|]. split; [done|].
    intros H. split; [by apply Hm|by eexists].
  - eexists. split; [reflexivity|].
    destruct Hinv as (F1 & F2 & F3 & F4 & F5 & F6). split.
    + split; [done|]. split; [done|]. split; [done|]. split; [done|]. simpl.
      split; [|intros _; apply set_add_not_nil].
      intros H. by apply set_add_not_nil in H.
    + simpl. intros H. by apply set_add_not_nil in H.
Qed.

Lemma check_packages_inv sc :
  (∀ p, is_Some (fetch.lib_packages sc !! p) → is_Some (fetch.pkgs sc !! p)) →
  ∀ todo visited st,
    (∀ p, p ∈ todo → is_Some (fetch.lib_packages sc !! p)) →
    found_inv sc visited st →
    ∃ st' visited',
      fetch.foldM (fetch.check_package prj pkg repo sc) st todo = Return st'
      ∧ found_inv sc visited' st'
      ∧ (∀ x, x ∈ visited → x ∈ visited')
      ∧ (∀ p libs lib, p ∈ todo → fetch.lib_packages sc !! p = Some libs →
           lib ∈ libs → (p, lib) ∈ visited')
      ∧ (fetch.missing_debuginfo st' = [] →
         fetch.missing_debuginfo st = []
         ∧ ∀ p, p ∈ todo → is_Some (fetch.pkgs sc !! (p +:+ "-debuginfo"))).
Proof.
  intros Hkeys todo. induction todo as [|p todo IH]; intros visited st Hin Hinv.
  - exists st, visited. simpl. split; [done|]. split; [done|]. split; [done|].
    split; [intros ? ? ? H; by apply elem_of_nil in H|].
    intros H. split; [done|]. intros ? H'. by apply elem_of_nil in H'.
  - destruct (Hin p) as [libs Hl]; [apply list_elem_of_here|].
    destruct (check_package_inv sc visited st p libs Hkeys Hl Hinv)
      as (st1 & Hrun & Hinv1 & Hm1).
    destruct (IH (visited ++ ((fun lib => (p, lib)) <$> libs)) st1)
      as (st' & visited' & Hrun' & Hinv' & Hsub & Hall & Hm').
    { intros x Hx. by apply Hin, list_elem_of_further. }
    { done. }
    exists st', visited'. simpl. rewrite Hrun. simpl. split; [done|]. split; [done|].
    split; [|split].
    + intros x Hx. apply Hsub, elem_of_app. by left.
    + intros q ls lib Hq Hls Hlib. apply elem_of_cons in Hq as [->|Hq].
      * apply Hsub, elem_of_app. right. rewrite Hl in Hls. injection Hls as <-.
        apply list_elem_of_fmap. by exists lib.
      * by eapply Hall.
    + intros H. destruct (Hm' H) as [H1 H2]. destruct (Hm1 H1) as [H3 H4].
      split; [done|]. intros q Hq. apply elem_of_cons in Hq as [->|Hq]; [done|].
      by apply H2.
Qed.

Lemma found_inv_init sc arch0 : found_inv sc [] (fetch.mkFound arch0 true [] [] ∅ ∅).
Proof.
  split; [|split; [|split; [|split; [|split]]]]; simpl.
  - intros lib. by rewrite !lookup_empty.
  - intros lib dbg H. by rewrite lookup_empty in H.
  - intros fn H. by apply elem_of_nil in H.
  - intros lib. rewrite lookup_empty. by intros [? ?].
  - intros _ p lib H. by apply elem_of_nil in H.
  - done.
Qed.

Lemma sorted_keys_spec {V} (d : gmap string V) (k : string) :
  k ∈ fetch.sorted_keys d ↔ is_Some (d !! k).
Proof.
  unfold fetch.sorted_keys. rewrite merge_sort_Permutation.
  rewrite list_elem_of_fmap. split.
  - intros ([k' v] & -> & H). apply elem_of_map_to_list in H. by eexists.
  - intros [v H]. exists (k, v). split; [done|]. by apply elem_of_map_to_list.
Qed.

Lemma Return_inj {A} : Inj (=) (=) (@Return A).
Proof. intros x y H. by injection H. Qed.

Lemma compute_fetchlist_returns headers arch0 fl ll dl :
  fetch.compute_fetchlist sourceinfo so_re_match srcinfo_str headers prj pkg srcinfo
                          repo arch0 = Return (fl, ll, dl) →
  ∃ items sc st visited,
    headers = Return <$> items ∧ scan_inv items sc ∧ found_inv sc visited st
    ∧ (∀ p libs lib, fetch.lib_packages sc !! p = Some libs → lib ∈ libs →
         (p, lib) ∈ visited)
    ∧ fetch.missing_debuginfo st = []
    ∧ fl = fetch.fetchlist st ∧ ll = fetch.liblist st ∧ dl = fetch.debuglist st.
Proof.
  unfold fetch.compute_fetchlist. intros Hrun.
  destruct (fetch.scan_headers sourceinfo so_re_match srcinfo_str prj srcinfo headers
              (fetch.mkScan ∅ ∅ ∅)) as [sc|e] eqn:Hscan; simpl in Hrun; [|done].
  destruct (scan_headers_inv _ _ _ _ Hscan scan_inv_init) as (items & -> & Hinv).
  simpl in Hinv. pose proof Hinv as (I1 & I2 & I3 & I4).
  destruct (check_packages_inv sc I3 (fetch.sorted_keys (fetch.lib_packages sc)) []
              (fetch.mkFound arch0 true [] [] ∅ ∅))
    as (st & visited & Hfold & Hfound & _ & Hall & _).
  { intros p. by rewrite sorted_keys_spec. }
  { apply found_inv_init. }
  rewrite Hfold in Hrun. simpl in Hrun.
  case_bool_decide as Hm; [done|]. injection Hrun as <- <- <-.
  exists items, sc, st, visited. split; [done|]. split; [done|]. split; [done|].
  split.
  - intros p libs lib Hl Hlib. eapply Hall; [|done..].
    apply sorted_keys_spec. by eexists.
  - split; [|done]. by destruct (fetch.missing_debuginfo st).
Qed.

Lemma compute_fetchlist_runs items arch0 :
  (∀ fn h, (fn, h) ∈ items → fetch.inspected h = true →
     disturl_matches sourceinfo (fetch.h_disturl h) prj srcinfo = Return true) →
  ∃ sc st,
    scan_inv items sc
    ∧ (fetch.missing_debuginfo st = [] →
       ∀ p, is_Some (fetch.lib_packages sc !! p) →
            is_Some (fetch.pkgs sc !! (p +:+ "-debuginfo")))
    ∧ fetch.compute_fetchlist sourceinfo so_re_match srcinfo_str (Return <$> items)
                              prj pkg srcinfo repo arch0
      = if bool_decide (fetch.missing_debuginfo st ≠ [])
        then Raise (MissingDebugInfo
                      (foldr String.append ""
                             (fetch.missing_line <$> fetch.missing_debuginfo st)))
        else Return (fetch.fetchlist st, fetch.liblist st, fetch.debuglist st).
Proof.
  intros Hok.
  destruct (scan_headers_runs items (fetch.mkScan ∅ ∅ ∅) Hok) as [sc Hscan].
  destruct (scan_headers_inv _ _ _ _ Hscan scan_inv_init) as (items' & Heq & Hinv).
  apply (list_fmap_eq_inj Return Return_inj) in Heq as <-. simpl in Hinv.
  pose proof Hinv as (I1 & I2 & I3 & I4).
  destruct (check_packages_inv sc I3 (fetch.sorted_keys (fetch.lib_packages sc)) []
              (fetch.mkFound arch0 true [] [] ∅ ∅))
    as (st & visited & Hfold & Hfound & _ & _ & Hm).
  { intros p. by rewrite sorted_keys_spec. }
  { apply found_inv_init. }
  exists sc, st. split; [done|]. split.
  - intros H p Hp. apply (Hm H). by apply sorted_keys_spec.
  - unfold fetch.compute_fetchlist. rewrite Hscan. simpl. rewrite Hfold. done.
Qed.

(** X20: when [compute_fetchlist] returns, the stream of headers held no
    exception, and every regular file with a library name in a scanned
    package is a key of the library list and of the debug list, and the
    fetch list holds the rpm of a package of that name and the rpm of
    its debuginfo package. *)
Theorem compute_fetchlist_covers_libraries headers arch0 fl ll dl :
  fetch.compute_fetchlist sourceinfo so_re_match srcinfo_str headers prj pkg srcinfo
                          repo arch0 = Return (fl, ll, dl) →
  ∃ items, headers = Return <$> items ∧
    ∀ rpmfn h lib, (rpmfn, h) ∈ items → lib_scanned h → lib_file h lib →
      is_Some (ll !! lib) ∧ is_Some (dl !! lib)
      ∧ ∃ rpmfn' h' drpmfn dh,
          (rpmfn', h') ∈ items ∧ fetch.h_name h' = fetch.h_name h ∧ rpmfn' ∈ fl
          ∧ (drpmfn, dh) ∈ items
          ∧ fetch.h_name dh = fetch.h_name h +:+ "-debuginfo" ∧ drpmfn ∈ fl.
Proof.
  intros Hrun.
  destruct (compute_fetchlist_returns _ _ _ _ _ Hrun)
    as (items & sc & st & visited & -> & (I1 & I2 & I3 & I4) & HF & Hall & Hm
        & -> & -> & ->).
  destruct HF as (F1 & F2 & F3 & F4 & F5 & F6).
  exists items. split; [done|]. intros rpmfn h lib Hin Hsc Hlf.
  assert (Hlib : lib ∈ default [] (fetch.lib_packages sc !! fetch.h_name h)).
  { apply I4. by exists rpmfn, h. }
  destruct (fetch.lib_packages sc !! fetch.h_name h) as [libs|] eqn:Hl;
    simpl in Hlib; [|by apply elem_of_nil in Hlib].
  destruct (F5 Hm _ _ (Hall _ _ _ Hl Hlib))
    as (Hs & fn0 & h0 & drpmfn & dh & Hp & Hfn0 & Hd & Hdr).
  split; [done|]. split; [by apply F1|].
  destruct (I1 _ _ _ Hp) as (Hin0 & Hn0 & _).
  destruct (I1 _ _ _ Hd) as (Hind & Hnd & _).
  by exists fn0, h0, drpmfn, dh.
Qed.

(** X21: what [compute_fetchlist] returns holds nothing else: the library
    list and the debug list have the same keys, each key is a regular
    file with a library name in a scanned package, its debug file is one
    of the two names looked up and is a file of the debuginfo package of
    a package holding the library, every entry of the fetch list is
    the rpm of an inspected header, and the fetch list is empty exactly
    when the library list is. *)
Theorem compute_fetchlist_result_sound headers arch0 fl ll dl :
  fetch.compute_fetchlist sourceinfo so_re_match srcinfo_str headers prj pkg srcinfo
                          repo arch0 = Return (fl, ll, dl) →
  (∀ lib, is_Some (ll !! lib) ↔ is_Some (dl !! lib))
  ∧ (∀ lib dbg, dl !! lib = Some dbg →
       ∃ rpmfn h drpmfn dh,
         Return (rpmfn, h) ∈ headers ∧ lib_scanned h ∧ lib_file h lib
         ∧ Return (drpmfn, dh) ∈ headers ∧ fetch.inspected dh = true
         ∧ fetch.h_name dh = fetch.h_name h +:+ "-debuginfo"
         ∧ dbg ∈ fetch.h_filenames dh
         ∧ (dbg = plain_debug lib ∨ dbg = versioned_debug lib dh)
         ∧ drpmfn ∈ fl)
  ∧ (∀ fn, fn ∈ fl → ∃ h, Return (fn, h) ∈ headers ∧ fetch.inspected h = true)
  ∧ (fl = [] ↔ ll = ∅).
Proof.
  intros Hrun.
  destruct (compute_fetchlist_returns _ _ _ _ _ Hrun)
    as (items & sc & st & visited & -> & (I1 & I2 & I3 & I4) & HF & Hall & Hm
        & -> & -> & ->).
  destruct HF as (F1 & F2 & F3 & F4 & F5 & F6).
  split; [done|]. split; [|split].
  - intros lib dbg Hdl.
    destruct (F2 _ _ Hdl) as (p & libs & drpmfn & dh & Hl & Hlib & Hd & Hf & Hshape & Hdr).
    destruct (proj1 (I4 p lib)) as (rpmfn & h & Hin & Hn & Hsc & Hlf);
      [by rewrite Hl|].
    destruct (I1 _ _ _ Hd) as (Hind & Hnd & Hid).
    exists rpmfn, h, drpmfn, dh. subst p.
    split; [apply list_elem_of_fmap; by eexists|]. split; [done|]. split; [done|].
    split; [apply list_elem_of_fmap; by eexists|]. done.
  - intros fn Hfn. destruct (F3 _ Hfn) as [(k & h & Hk) _].
    destruct (I1 _ _ _ Hk) as (Hin & _ & Hi).
    exists h. split; [apply list_elem_of_fmap; by eexists|done].
  - split.
    + intros Hfl. apply map_eq. intros lib. rewrite lookup_empty.
      destruct (fetch.liblist st !! lib) eqn:E; [|done].
      exfalso. apply (F4 lib); [by eexists|done].
    + intros Hll. destruct (fetch.fetchlist st) as [|fn fl] eqn:E; [done|].
      destruct (F3 fn) as [_ [lib Hs]]; [apply list_elem_of_here|].
      rewrite Hll, lookup_empty in Hs. by destruct Hs.
Qed.

(** X22: on a stream that holds no exception and in which every inspected
    header carries a matching disturl, [compute_fetchlist] returns or
    raises [MissingDebugInfo], nothing else; and it raises
    [MissingDebugInfo] when a scanned package holds a library and the
    stream has no inspected header named like the package with
    [-debuginfo] appended. *)
Theorem compute_fetchlist_missing_debuginfo items arch0 :
  (∀ fn h, (fn, h) ∈ items → fetch.inspected h = true →
     disturl_matches sourceinfo (fetch.h_disturl h) prj srcinfo = Return true) →
  ((∃ r, fetch.compute_fetchlist sourceinfo so_re_match srcinfo_str (Return <$> items)
                                 prj pkg srcinfo repo arch0 = Return r)
   ∨ (∃ msg, fetch.compute_fetchlist sourceinfo so_re_match srcinfo_str
                                     (Return <$> items) prj pkg srcinfo repo arch0
             = Raise (MissingDebugInfo msg)))
  ∧ (∀ rpmfn h lib,
       (rpmfn, h) ∈ items → lib_scanned h → lib_file h lib →
       (∀ fn' h', (fn', h') ∈ items → fetch.inspected h' = true →
                  fetch.h_name h' ≠ fetch.h_name h +:+ "-debuginfo") →
       ∃ msg, fetch.compute_fetchlist sourceinfo so_re_match srcinfo_str
                                      (Return <$> items) prj pkg srcinfo repo arch0
              = Raise (MissingDebugInfo msg)).
Proof.
  intros Hok.
  destruct (compute_fetchlist_runs items arch0 Hok)
    as (sc & st & (I1 & I2 & I3 & I4) & Hm & ->).
  split.
  - case_bool_decide; [right|left]; by eexists.
  - intros rpmfn h lib Hin Hsc Hlf Hnone.
    case_bool_decide as Hmiss; [by eexists|]. exfalso.
    assert (Hnil : fetch.missing_debuginfo st = []).
    { by destruct (fetch.missing_debuginfo st). }
    assert (Hlib : lib ∈ default [] (fetch.lib_packages sc !! fetch.h_name h)).
    { apply I4. by exists rpmfn, h. }
    destruct (fetch.lib_packages sc !! fetch.h_name h) as [libs|] eqn:Hl;
      simpl in Hlib; [|by apply elem_of_nil in Hlib].
    destruct (Hm Hnil (fetch.h_name h)) as [[drpmfn dh] Hd]; [by eexists|].
    destruct (I1 _ _ _ Hd) as (Hind & Hnd & Hid).
    by apply (Hnone drpmfn dh).
Qed.

(** X23: the first inspected header whose disturl does not belong to the
    submitted sources ends the scan with [DistUrlMismatch], whatever the
    stream holds after it; source rpms and [-32bit]/[-64bit] packages
    before it are passed over without a look at their disturl. *)
Theorem compute_fetchlist_disturl_mismatch pre rpmfn h post arch0 :
  (∀ fn h0, (fn, h0) ∈ pre → fetch.inspected h0 = true →
     disturl_matches sourceinfo (fetch.h_disturl h0) prj srcinfo = Return true) →
  fetch.inspected h = true →
  disturl_matches sourceinfo (fetch.h_disturl h) prj srcinfo = Return false →
  fetch.compute_fetchlist sourceinfo so_re_match srcinfo_str
                          ((Return <$> pre) ++ Return (rpmfn, h) :: post)
                          prj pkg srcinfo repo arch0
  = Raise (DistUrlMismatch (fetch.h_disturl h) (srcinfo_str srcinfo)).
Proof.
  intros Hpre Hi Hm. unfold fetch.compute_fetchlist.
  assert (Hscan : ∀ st,
            fetch.scan_headers sourceinfo so_re_match srcinfo_str prj srcinfo
                               ((Return <$> pre) ++ Return (rpmfn, h) :: post) st
            = Raise (DistUrlMismatch (fetch.h_disturl h) (srcinfo_str srcinfo))).
  { clear -Hpre Hi Hm. induction pre as [|[fn0 h0] pre IH]; intros st; simpl.
    - unfold fetch.scan_header. rewrite Hi. simpl. rewrite Hm. done.
    - assert (∃ st1, fetch.scan_header sourceinfo so_re_match srcinfo_str prj srcinfo
                       st fn0 h0 = Return st1) as [st1 ->].
      { unfold fetch.scan_header.
        destruct (fetch.inspected h0) eqn:Hi0; simpl; [|by eexists].
        rewrite (Hpre fn0 h0) by (done || apply list_elem_of_here). simpl.
        destruct (fetch.debugpkg_re_match (fetch.h_name h0)); by eexists. }
      simpl. apply IH. intros fn h1 H. apply (Hpre fn h1).
      by apply list_elem_of_further. }
  by rewrite Hscan.
Qed.

End Fetchlist.

(** A build of [libfoo]: the source rpm, the library package with its
    library and a link to it, and the debuginfo package. *)
Definition lib_name_match (fn : string) : option string :=
  if String.prefix "/usr/lib64/lib" fn then Some "foo" else None.

Definition libfoo_src_header : fetch.RpmHeader :=
  fetch.mkRpmHeader true "libfoo" "obs://build.opensuse.org/home:user/standard/0123-libfoo"
                    "x86_64" "1.0" "1" ["libfoo-1.0.tar.xz"; "libfoo.spec"]
                    [33188; 33188]%N [""; ""].

Definition libfoo1_header : fetch.RpmHeader :=
  fetch.mkRpmHeader false "libfoo1" "obs://build.opensuse.org/home:user/standard/0123-libfoo"
                    "x86_64" "1.0" "1"
                    ["/usr/lib64/libfoo.so.1.0"; "/usr/lib64/libfoo.so.1"]
                    [33261; 41471]%N [""; "libfoo.so.1.0"].

Definition libfoo1_debuginfo_header : fetch.RpmHeader :=
  fetch.mkRpmHeader false "libfoo1-debuginfo"
                    "obs://build.opensuse.org/home:user/standard/0123-libfoo"
                    "x86_64" "1.0" "1"
                    ["/usr/lib/debug/usr/lib64/libfoo.so.1.0-1.0-1.x86_64.debug"]
                    [33188]%N [""].

Definition libfoo_build : list (string * fetch.RpmHeader) :=
  [("libfoo-1.0-1.src.rpm", libfoo_src_header);
   ("libfoo1-1.0-1.x86_64.rpm", libfoo1_header);
   ("libfoo1-debuginfo-1.0-1.x86_64.rpm", libfoo1_debuginfo_header)].

(** The source service knows the revision [0123] as the submitted
    sources, and every other revision as something else. *)
Definition libfoo_revisions (prj : option string) (package : string)
    (rev : option string) : option SourceInfo :=
  if bool_decide (rev = Some "0123") then Some libfoo_srcinfo
  else Some (mkSourceInfo "libfoo" "ffffffffffffffffffffffffffffffff").

Definition libfoo_found
  : list string * gmap string (gset string) * gmap string string :=
  (["libfoo1-1.0-1.x86_64.rpm"; "libfoo1-debuginfo-1.0-1.x86_64.rpm"],
   {[ "/usr/lib64/libfoo.so.1.0" := {[ "libfoo.so.1" ]} ]},
   {[ "/usr/lib64/libfoo.so.1.0"
      := "/usr/lib/debug/usr/lib64/libfoo.so.1.0-1.0-1.x86_64.debug" ]}).

Lemma libfoo_build_found :
  fetch.compute_fetchlist libfoo_revisions lib_name_match verifymd5
                          (Return <$> libfoo_build) (Some "home:user") "libfoo"
                          libfoo_srcinfo "standard" "x86_64"
  = Return libfoo_found.
Proof. vm_compute. reflexivity. Qed.

Lemma compute_fetchlist_covers_libraries_witness :
  ∃ items, Return <$> libfoo_build = Return <$> items ∧
    ∀ rpmfn h lib, (rpmfn, h) ∈ items → lib_scanned h → lib_file lib_name_match h lib →
      is_Some (libfoo_found.1.2 !! lib) ∧ is_Some (libfoo_found.2 !! lib)
      ∧ ∃ rpmfn' h' drpmfn dh,
          (rpmfn', h') ∈ items ∧ fetch.h_name h' = fetch.h_name h
          ∧ rpmfn' ∈ libfoo_found.1.1
          ∧ (drpmfn, dh) ∈ items
          ∧ fetch.h_name dh = fetch.h_name h +:+ "-debuginfo"
          ∧ drpmfn ∈ libfoo_found.1.1.
Proof.
  apply (compute_fetchlist_covers_libraries libfoo_revisions lib_name_match verifymd5
           (Some "home:user") "libfoo" libfoo_srcinfo "standard"
           (Return <$> libfoo_build) "x86_64"
           libfoo_found.1.1 libfoo_found.1.2 libfoo_found.2).
  vm_compute. reflexivity.
Defined.

Lemma compute_fetchlist_result_sound_witness :
  libfoo_found.1.1 = [] ↔ libfoo_found.1.2 = ∅.
Proof.
  apply (compute_fetchlist_result_sound libfoo_revisions lib_name_match verifymd5
           (Some "home:user") "libfoo" libfoo_srcinfo "standard"
           (Return <$> libfoo_build) "x86_64"
           libfoo_found.1.1 libfoo_found.1.2 libfoo_found.2).
  vm_compute. reflexivity.
Defined.

Lemma compute_fetchlist_missing_debuginfo_witness :
  ∃ msg, fetch.compute_fetchlist libfoo_revisions lib_name_match verifymd5
           (Return <$> [("libfoo-1.0-1.src.rpm", libfoo_src_header);
                        ("libfoo1-1.0-1.x86_64.rpm", libfoo1_header)])
           (Some "home:user") "libfoo" libfoo_srcinfo "standard" "x86_64"
         = Raise (MissingDebugInfo msg).
Proof.
  refine (proj2 (compute_fetchlist_missing_debuginfo libfoo_revisions lib_name_match
                   verifymd5 (Some "home:user") "libfoo" libfoo_srcinfo "standard"
                   [("libfoo-1.0-1.src.rpm", libfoo_src_header);
                    ("libfoo1-1.0-1.x86_64.rpm", libfoo1_header)] "x86_64" _)
                "libfoo1-1.0-1.x86_64.rpm" libfoo1_header "/usr/lib64/libfoo.so.1.0"
                _ _ _ _).
  - intros fn h H Hi.
    apply elem_of_cons in H as [[= -> ->]|H]; [discriminate Hi|].
    apply list_elem_of_singleton in H as [= -> ->]. reflexivity.
  - apply list_elem_of_further, list_elem_of_here.
  - split; reflexivity.
  - exists 33261%N, "". split; [apply list_elem_of_here|].
    split; [by eexists|reflexivity].
  - intros fn h H Hi.
    apply elem_of_cons in H as [[= -> ->]|H]; [discriminate Hi|].
    apply list_elem_of_singleton in H as [= -> ->]. discriminate.
Defined.

Lemma compute_fetchlist_disturl_mismatch_witness :
  fetch.compute_fetchlist libfoo_revisions lib_name_match verifymd5
    ((Return <$> [("libfoo-1.0-1.src.rpm", libfoo_src_header)])
     ++ Return ("libbar1-1.0-1.x86_64.rpm",
                fetch.mkRpmHeader false "libbar1"
                  "obs://build.opensuse.org/home:user/standard/4567-libbar"
                  "x86_64" "1.0" "1" [] [] [])
        :: [Raise (FetchError "failed to read rpm header for libbar1-debuginfo")])
    (Some "home:user") "libfoo" libfoo_srcinfo "standard" "x86_64"
  = Raise (DistUrlMismatch "obs://build.opensuse.org/home:user/standard/4567-libbar"
                           "0123456789abcdef").
Proof.
  apply (compute_fetchlist_disturl_mismatch libfoo_revisions lib_name_match verifymd5
           (Some "home:user") "libfoo" libfoo_srcinfo "standard"
           [("libfoo-1.0-1.src.rpm", libfoo_src_header)]).
  - intros fn h H Hi. apply list_elem_of_singleton in H as [= -> ->].
    discriminate Hi.
  - reflexivity.
  - reflexivity.
Defined.

(** ** Fetching and unpacking the packages *)

Module binaries.

(** The loop of [extract] over the fetch list. [rpm2cpio] is the exit
    status of the tool on a downloaded file; [unpack] stands for reading
    the archive it wrote and copying the listed files out of it. *)
Fixpoint unpack_files (rpm2cpio : string → Z) (unpack : string → result unit)
    (downloaded : gmap string string) (fetchlist : list string) : result unit :=
  match fetchlist with
  | [] => Return tt
  | fn :: fetchlist =>
      match downloaded !! fn with
      | None => Raise (FetchError (fn +:+ " was not downloaded!"))
      | Some t =>
          if bool_decide (rpm2cpio t ≠ 0%Z)
          then Raise (FetchError ("failed to extract " +:+ fn +:+ "!"))
          else _ ← unpack t; unpack_files rpm2cpio unpack downloaded fetchlist
      end
  end.

(** [extract(self, project, package, srcinfo, repo, arch)]; [(None,
    None)] is [None]. *)
Definition extract (DOWNLOADS : string)
    (sourceinfo : option string → string → option string → option SourceInfo)
    (so_re_match : string → option string) (srcinfo_str : SourceInfo → string)
    (_fetchcpioheaders : option string → string → string → string →
                         list (result (string * fetch.RpmHeader)))
    (_getmtimes : option string → string → string → string →
                  option (gmap string string))
    (get_binary_file : string → string → result unit)
    (rpm2cpio : string → Z) (unpack : string → result unit)
    (project : option string) (package : string) (srcinfo : SourceInfo)
    (repo arch : string)
  : result (option (gmap string (gset string) * gmap string string)) :=
  found ← fetch.compute_fetchlist sourceinfo so_re_match srcinfo_str
             (_fetchcpioheaders project package repo arch)
             project package srcinfo repo arch;
  let '(fetchlist, liblist, debuglist) := found in
  if bool_decide (fetchlist = []) then Return None
  else
    let mtimes := _getmtimes project package repo arch in
    downloaded ← download_files DOWNLOADS get_binary_file project package repo
                    fetchlist mtimes ∅;
    _ ← unpack_files rpm2cpio unpack downloaded fetchlist;
    Return (Some (liblist, debuglist)).

End binaries.

Section Extract.

Context (DOWNLOADS : string)
        (sourceinfo : option string → string → option string → option SourceInfo)
        (so_re_match : string → option string) (srcinfo_str : SourceInfo → string)
        (_fetchcpioheaders : option string → string → string → string →
                             list (result (string * fetch.RpmHeader)))
        (_getmtimes : option string → string → string → string →
                      option (gmap string string))
        (get_binary_file : string → string → result unit)
        (rpm2cpio : string → Z) (unpack : string → result unit)
        (package : string) (srcinfo : SourceInfo) (repo arch : string).

(** Where [download_files] puts the file [fn] of project [p]. *)
Definition download_path (p fn : string) : string :=
  path_join (path_join (path_join (path_join DOWNLOADS package) p) repo) fn.

Lemma download_files_returns p mt fns : ∀ d0 d,
  download_files DOWNLOADS get_binary_file (Some p) package repo fns (Some mt) d0
  = Return d ↔
  Forall (fun fn => is_Some (mt !! fn)
                    ∧ get_binary_file fn (download_path p fn) = Return tt) fns
  ∧ d = foldl (fun d fn => <[fn := download_path p fn]> d) d0 fns.
Proof.
  induction fns as [|fn fns IH]; intros d0 d; simpl.
  - split; [intros [= <-]; by split|by intros [_ ->]].
  - unfold download_target. fold (download_path p fn).
    rewrite Forall_cons. case_bool_decide as Hmt; simpl.
    + destruct (get_binary_file fn (download_path p fn)) as [[]|e] eqn:Hg; simpl.
      * rewrite IH. tauto.
      * split; [done|]. by intros [[[_ ?] _] _].
    + split; [done|]. by intros [[[? _] _] _].
Qed.

Lemma downloaded_lookup p fns : ∀ (d0 : gmap string string) fn,
  foldl (fun d fn => <[fn := download_path p fn]> d) d0 fns !! fn
  = if bool_decide (fn ∈ fns) then Some (download_path p fn) else d0 !! fn.
Proof.
  induction fns as [|fn0 fns IH]; intros d0 fn; cbn [foldl].
  - rewrite bool_decide_eq_false_2; [done|]. apply not_elem_of_nil.
  - rewrite IH. destruct (decide (fn ∈ fns)) as [Hin|Hin].
    + rewrite !bool_decide_eq_true_2; [done|by right|done].
    + rewrite (bool_decide_eq_false_2 _ Hin).
      destruct (decide (fn = fn0)) as [->|Hne].
      * rewrite lookup_insert_eq, bool_decide_eq_true_2; [done|left].
      * rewrite lookup_insert_ne by done. rewrite bool_decide_eq_false_2; [done|].
        intros Hc. apply elem_of_cons in Hc as [?|?]; done.
Qed.

Lemma unpack_files_returns p d fns :
  (∀ fn, fn ∈ fns → d !! fn = Some (download_path p fn)) →
  binaries.unpack_files rpm2cpio unpack d fns = Return tt ↔
  Forall (fun fn => rpm2cpio (download_path p fn) = 0%Z
                    ∧ unpack (download_path p fn) = Return tt) fns.
Proof.
  induction fns as [|fn fns IH]; intros Hd; simpl.
  - split; [by constructor|done].
  - rewrite Forall_cons, (Hd fn) by apply list_elem_of_here.
    case_bool_decide as Hr; simpl.
    + split; [done|]. by intros [[? _] _].
    + destruct (unpack (download_path p fn)) as [[]|e]; simpl.
      * rewrite IH; [tauto|]. intros fn' H. by apply Hd, list_elem_of_further.
      * split; [done|]. by intros [[_ ?] _].
Qed.

(** X24: [extract] returns the lists of [compute_fetchlist] exactly when
    that found a non-empty fetch list, the listing of the binaries gave a
    modification time for every file of it, every download succeeded,
    [rpm2cpio] ended with status 0 on every downloaded file and every
    archive was unpacked. The test for a file that was not downloaded
    is never in the way. *)
Theorem extract_returns_lists project ll dl :
  binaries.extract DOWNLOADS sourceinfo so_re_match srcinfo_str _fetchcpioheaders _getmtimes
          get_binary_file rpm2cpio unpack project package srcinfo repo arch
  = Return (Some (ll, dl)) ↔
  ∃ fl p mt,
    fetch.compute_fetchlist sourceinfo so_re_match srcinfo_str
      (_fetchcpioheaders project package repo arch) project package srcinfo repo arch
    = Return (fl, ll, dl)
    ∧ fl ≠ [] ∧ project = Some p
    ∧ _getmtimes project package repo arch = Some mt
    ∧ Forall (fun fn => is_Some (mt !! fn)
                        ∧ get_binary_file fn (download_path p fn) = Return tt
                        ∧ rpm2cpio (download_path p fn) = 0%Z
                        ∧ unpack (download_path p fn) = Return tt) fl.
Proof.
  unfold binaries.extract.
  destruct (fetch.compute_fetchlist sourceinfo so_re_match srcinfo_str
              (_fetchcpioheaders project package repo arch) project package srcinfo
              repo arch) as [[[fl ll0] dl0]|e] eqn:Hc; simpl.
  2:{ split; [done|]. by intros (? & ? & ? & ? & _). }
  case_bool_decide as Hfl.
  { split; [done|]. intros (fl' & p & mt & [= <- <- <-] & Hne & _). done. }
  destruct fl as [|fn0 fl]; [done|].
  destruct (_getmtimes project package repo arch) as [mt|] eqn:Hmt.
  2:{ simpl. split; [done|]. by intros (? & ? & ? & _ & _ & _ & ? & _). }
  destruct project as [p|].
  2:{ split; [|by intros (? & ? & ? & _ & _ & ? & _)].
      simpl. unfold download_target. by case_bool_decide. }
  destruct (download_files DOWNLOADS get_binary_file (Some p) package repo
              (fn0 :: fl) (Some mt) ∅) as [d|e] eqn:Hd.
  - apply download_files_returns in Hd as [Hall ->]. cbn [mbind result_bind].
    pose proof (unpack_files_returns p
                  (foldl (fun d fn => <[fn := download_path p fn]> d)
                         (∅ : gmap string string) (fn0 :: fl))
                  (fn0 :: fl)) as Hu.
    destruct (binaries.unpack_files rpm2cpio unpack _ (fn0 :: fl)) as [[]|e] eqn:He.
    + cbn [mbind result_bind]. split.
      * intros [= <- <-]. exists (fn0 :: fl), p, mt.
        split; [done|]. split; [done|]. split; [done|]. split; [done|].
        assert (Hok : Forall (fun fn => rpm2cpio (download_path p fn) = 0%Z
                                ∧ unpack (download_path p fn) = Return tt) (fn0 :: fl)).
        { apply Hu; [|done]. intros fn H. rewrite downloaded_lookup.
          by rewrite bool_decide_eq_true_2. }
        rewrite Forall_forall in Hall, Hok. apply Forall_forall. intros fn H.
        destruct (Hall fn H), (Hok fn H). done.
      * by intros (fl' & p' & mt' & [= <- <- <-] & _).
    + cbn [mbind result_bind]. split; [done|].
      intros (fl' & p' & mt' & [= <- <- <-] & _ & [= <-] & [= <-] & Hok).
      assert (Raise e = Return tt); [|done].
      apply Hu.
      * intros fn H. rewrite downloaded_lookup. by rewrite bool_decide_eq_true_2.
      * eapply Forall_impl; [exact Hok|]. by intros fn (_ & _ & ? & ?).
  - cbn [mbind result_bind]. split; [done|].
    intros (fl' & p' & mt' & [= <- <- <-] & _ & [= <-] & [= <-] & Hok).
    assert (Raise e = Return (foldl (fun d fn => <[fn := download_path p fn]> d)
                                    (∅ : gmap string string) (fn0 :: fl))); [|done].
    rewrite <- Hd. apply download_files_returns. split; [|done].
    eapply Forall_impl; [exact Hok|]. by intros fn (? & ? & _).
Qed.

(** X25: [extract] returns [(None, None)] exactly when [compute_fetchlist]
    returns an empty fetch list, and then the lists it drops are empty
    too; whatever the listing of the binaries and the downloads would give. *)
Theorem extract_without_libraries project :
  binaries.extract DOWNLOADS sourceinfo so_re_match srcinfo_str _fetchcpioheaders _getmtimes
          get_binary_file rpm2cpio unpack project package srcinfo repo arch
  = Return None ↔
  fetch.compute_fetchlist sourceinfo so_re_match srcinfo_str
    (_fetchcpioheaders project package repo arch) project package srcinfo repo arch
  = Return ([], ∅, ∅).
Proof.
  unfold binaries.extract.
  destruct (fetch.compute_fetchlist sourceinfo so_re_match srcinfo_str
              (_fetchcpioheaders project package repo arch) project package srcinfo
              repo arch) as [[[fl ll] dl]|e] eqn:Hc; simpl; [|done].
  case_bool_decide as Hfl.
  - subst fl. split; [intros _|done].
    destruct (compute_fetchlist_returns _ _ _ _ _ _ _ _ _ _ _ _ Hc)
      as (items & sc & st & visited & _ & _ & HF & _ & _ & Hfl & -> & ->).
    destruct HF as (F1 & _ & _ & F4 & _).
    assert (Hll : fetch.liblist st = ∅).
    { apply map_eq. intros lib. rewrite lookup_empty.
      destruct (fetch.liblist st !! lib) eqn:E; [|done].
      exfalso. apply (F4 lib); [by eexists|done]. }
    assert (Hdl : fetch.debuglist st = ∅).
    { apply map_eq. intros lib. rewrite lookup_empty.
      destruct (fetch.debuglist st !! lib) eqn:E; [|done].
      destruct (proj2 (F1 lib)) as [x Hx]; [by eexists|].
      by rewrite Hll, lookup_empty in Hx. }
    by rewrite Hll, Hdl.
  - split; [|by intros [= ->]].
    destruct (download_files _ _ _ _ _ _ _ _) as [d|]; simpl; [|done].
    by destruct (binaries.unpack_files _ _ _ _) as [[]|].
Qed.

(** X26: when libraries were found but the listing of the binaries could
    not be fetched, [extract] ends in [TypeError], not in [FetchError]. *)
Theorem extract_without_mtimes project fl ll dl :
  fetch.compute_fetchlist sourceinfo so_re_match srcinfo_str
    (_fetchcpioheaders project package repo arch) project package srcinfo repo arch
  = Return (fl, ll, dl) →
  fl ≠ [] →
  _getmtimes project package repo arch = None →
  binaries.extract DOWNLOADS sourceinfo so_re_match srcinfo_str _fetchcpioheaders _getmtimes
          get_binary_file rpm2cpio unpack project package srcinfo repo arch
  = Raise (PyError "TypeError").
Proof.
  intros Hc Hfl Hmt. unfold binaries.extract. rewrite Hc. simpl.
  rewrite bool_decide_eq_false_2 by done. rewrite Hmt.
  by destruct fl.
Qed.

End Extract.

Lemma extract_without_mtimes_witness :
  binaries.extract "/var/cache/abi-checker/downloads" libfoo_revisions lib_name_match verifymd5
          (fun _ _ _ _ => Return <$> libfoo_build) (fun _ _ _ _ => None)
          (fun _ _ => Return tt) (fun _ => 0%Z) (fun _ => Return tt)
          (Some "home:user") "libfoo" libfoo_srcinfo "standard" "x86_64"
  = Raise (PyError "TypeError").
Proof.
  apply (extract_without_mtimes "/var/cache/abi-checker/downloads" libfoo_revisions
           lib_name_match verifymd5 (fun _ _ _ _ => Return <$> libfoo_build)
           (fun _ _ _ _ => None) (fun _ _ => Return tt) (fun _ => 0%Z)
           (fun _ => Return tt) "libfoo" libfoo_srcinfo "standard" "x86_64"
           (Some "home:user") libfoo_found.1.1 libfoo_found.1.2 libfoo_found.2).
  - vm_compute. reflexivity.
  - discriminate.
  - reflexivity.
Defined.
